(** * Qwt plot layout: a shallow embedding of [qwt_plot_layout.cpp]

    The development follows the source file top down: the measurement
    snapshot ([QwtPlotLayoutData]), the engine ([QwtPlotLayoutEngine]:
    [layoutLegend], [alignLegend], [heightForWidth], [layoutDimensions],
    [alignScales]) and the public class ([QwtPlotLayout]: the setters, the
    per-axis accessors, [invalidate], [minimumSizeHint], [update],
    [activate]).

    Conventions of the embedding.
    - A C++ [int] is a [Z]; signed overflow is undefined in C++ and is not
      modelled.
    - The coordinates of the rectangles and the other measures of type
      [double] / [qreal] are exact rationals [Q]; for them rounding
      errors, infinities and NaN are outside the model.
    - The ratio of the legend is a binary64 [float], a [double] as it
      is: the comparisons of the setters, the products and quotients
      with the ratio and the conversions [int( v )] of their results are
      those of IEEE 754, NaN included. A rational extent that enters
      such a product is taken as the nearest [double].
    - A [QVector] is a [list]; an index out of range, and a null pointer
      that is dereferenced, end the computation with [Fault].
    - The [while] loop of [layoutDimensions] runs on fuel; running out of
      it is [OutOfFuel].
    - The widgets of the plot (labels, legend, scale widgets, canvas) are
      records of the values and measuring functions the layout reads. *)

From Stdlib Require Import ZArith QArith Qround Lia Lqa List Floats.
From stdpp Require Import base list.
Import ListNotations.
Open Scope Z_scope.

Set Warnings "-inexact-float".

(** ** Outcomes of fallible code *)

Inductive outcome (A : Type) : Type :=
  | Done (a : A)
  | Fault
  | OutOfFuel.
Arguments Done {A} a.
Arguments Fault {A}.
Arguments OutOfFuel {A}.

#[global] Instance outcome_ret : MRet outcome := fun A a => Done a.
#[global] Instance outcome_bind : MBind outcome := fun A B f m =>
  match m with
  | Done a => f a
  | Fault => Fault
  | OutOfFuel => OutOfFuel
  end.

Definition fromOption {A : Type} (o : option A) : outcome A :=
  match o with
  | Some a => Done a
  | None => Fault
  end.

(** ** Numeric helpers of Qt ([qglobal.h], [qmath.h]) *)

Definition Qlt_bool (a b : Q) : bool := negb (Qle_bool b a).

Definition qFloor (v : Q) : Z := Qfloor v.
Definition qCeil (v : Q) : Z := Qceiling v.

(** The range of a 32 bit [int]. *)
Definition INT_MIN : Z := -2147483648.
Definition INT_MAX : Z := 2147483647.

(** [int( v )]: the conversion of a [double] to [int] truncates towards
    zero. For a NaN, an infinity and a value whose truncation is outside
    the range of [int] the conversion is undefined in C++; the model
    takes what the conversion instruction of x86-64 ([cvttsd2si])
    gives there, [INT_MIN]. *)
Definition toInt (v : float) : Z :=
  match Prim2SF v with
  | S754_zero _ => 0
  | S754_finite s m e =>
      let a := if 0 <=? e then Z.shiftl (Zpos m) e
               else Z.shiftr (Zpos m) (- e) in
      let z := if s then - a else a in
      if (INT_MIN <=? z) && (z <=? INT_MAX) then z else INT_MIN
  | _ => INT_MIN
  end.

(** The conversion of an [int] to [double]; it is exact. *)
Definition ofInt (z : Z) : float :=
  if z <? 0 then (- of_uint63 (Uint63.of_Z (- z)))%float
  else of_uint63 (Uint63.of_Z z).

(** A rational measure as the [double] it stands for: the quotient of
    numerator and denominator, which is the nearest [double] (and the
    rational itself when that is a [double]) as long as both are below
    2^53. *)
Definition ofQ (q : Q) : float :=
  (ofInt (Qnum q) / ofInt (Zpos (Qden q)))%float.

(** [qRound]: for negative values Qt computes
    [int( d - double( int( d - 1 ) ) + 0.5 ) + int( d - 1 )], which like
    [int( d + 0.5 )] for the others is the floor of [d + 1/2]. *)
Definition qRound (d : Q) : Z := Qfloor (d + (1 # 2)).

(** [qMin( a, b )] is [( a < b ) ? a : b], [qMax( a, b )] is
    [( a < b ) ? b : a]; on [int] these are [Z.min] and [Z.max]. *)
Definition qMinF (a b : Q) : Q := if Qlt_bool a b then a else b.
Definition qMaxF (a b : Q) : Q := if Qlt_bool a b then b else a.

Definition QWIDGETSIZE_MAX : Z := 16777215.

(** ** Rectangles and sizes of Qt *)

Record QSize := mkQSize { sz_width : Z; sz_height : Z }.

Module QRectF.

Record t := mk { xp : Q; yp : Q; w : Q; h : Q }.

(** [QRectF()] *)
Definition null : t := mk 0 0 0 0.

Definition x (r : t) : Q := xp r.
Definition y (r : t) : Q := yp r.
Definition width (r : t) : Q := w r.
Definition height (r : t) : Q := h r.
Definition left (r : t) : Q := xp r.
Definition top (r : t) : Q := yp r.
Definition right (r : t) : Q := (xp r + w r)%Q.
Definition bottom (r : t) : Q := (yp r + h r)%Q.

Definition isValid (r : t) : bool := Qlt_bool 0 (w r) && Qlt_bool 0 (h r).
Definition isEmpty (r : t) : bool := Qle_bool (w r) 0 || Qle_bool (h r) 0.

(** The edge setters move one edge and keep the opposite one. *)
Definition setLeft (pos : Q) (r : t) : t :=
  mk pos (yp r) (w r - (pos - xp r))%Q (h r).
Definition setRight (pos : Q) (r : t) : t :=
  mk (xp r) (yp r) (pos - xp r)%Q (h r).
Definition setTop (pos : Q) (r : t) : t :=
  mk (xp r) pos (w r) (h r - (pos - yp r))%Q.
Definition setBottom (pos : Q) (r : t) : t :=
  mk (xp r) (yp r) (w r) (pos - yp r)%Q.
Definition setX (pos : Q) (r : t) : t := setLeft pos r.
Definition setY (pos : Q) (r : t) : t := setTop pos r.
Definition setWidth (v : Q) (r : t) : t := mk (xp r) (yp r) v (h r).
Definition setHeight (v : Q) (r : t) : t := mk (xp r) (yp r) (w r) v.

Definition normalized (r : t) : t :=
  let '(x', w') :=
    if Qlt_bool (w r) 0 then ((xp r + w r)%Q, (- w r)%Q) else (xp r, w r) in
  let '(y', h') :=
    if Qlt_bool (h r) 0 then ((yp r + h r)%Q, (- h r)%Q) else (yp r, h r) in
  mk x' y' w' h'.

(** Equality of rectangles up to the representation of the rationals. *)
Definition equiv (a b : t) : Prop :=
  (xp a == xp b /\ yp a == yp b /\ w a == w b /\ h a == h b)%Q.

End QRectF.

(** The integer rectangle [QRect], stored like Qt does by its corners (both
    inclusive), and as much of [QRegion] as [activate] uses. *)
Module QRect.

Record t := mk { x1 : Z; y1 : Z; x2 : Z; y2 : Z }.

(** [QRect()] *)
Definition null : t := mk 0 0 (-1) (-1).

Definition ofXYWH (x y w h : Z) : t := mk x y (x + w - 1) (y + h - 1).
Definition width (r : t) : Z := x2 r - x1 r + 1.
Definition height (r : t) : Z := y2 r - y1 r + 1.
Definition isEmpty (r : t) : bool := (x2 r <? x1 r) || (y2 r <? y1 r).

(** [QRectF::toRect()] *)
Definition ofRectF (r : QRectF.t) : t :=
  ofXYWH (qRound (QRectF.xp r)) (qRound (QRectF.yp r))
         (qRound (QRectF.w r)) (qRound (QRectF.h r)).

(** [QRectF( const QRect & )] *)
Definition toRectF (r : t) : QRectF.t :=
  QRectF.mk (inject_Z (x1 r)) (inject_Z (y1 r))
            (inject_Z (width r)) (inject_Z (height r)).

Definition intersected (a b : t) : t :=
  mk (Z.max (x1 a) (x1 b)) (Z.max (y1 a) (y1 b))
     (Z.min (x2 a) (x2 b)) (Z.min (y2 a) (y2 b)).

Definition united (a b : t) : t :=
  if isEmpty a then b
  else if isEmpty b then a
  else mk (Z.min (x1 a) (x1 b)) (Z.min (y1 a) (y1 b))
          (Z.max (x2 a) (x2 b)) (Z.max (y2 a) (y2 b)).

(** [QRegion( a ).subtracted( b ).boundingRect()]: the pixels of [a]
    outside [b] are the bands of [a] above and below the intersection
    and the pieces left and right of it; the bounding rectangle is the
    union of those that are not empty, and [QRect()] when none is. *)
Definition subtractedBoundingRect (a b : t) : t :=
  if isEmpty a then null
  else
    let i := intersected a b in
    if isEmpty i then a
    else
      let above := mk (x1 a) (y1 a) (x2 a) (y1 i - 1) in
      let below := mk (x1 a) (y2 i + 1) (x2 a) (y2 a) in
      let leftOf := mk (x1 a) (y1 i) (x1 i - 1) (y2 i) in
      let rightOf := mk (x2 i + 1) (y1 i) (x2 a) (y2 i) in
      let u := united (united above below) (united leftOf rightOf) in
      if isEmpty u then null else u.

End QRect.

(** ** Enumerations of [QwtPlot] and [QwtPlotLayout] *)

(** Modelled from the spec: the enumeration of the four axis positions
    and their number [NumAxisPositions], declared in [qwt_plot.h]. The
    order of the constructors is the order in which the loops over
    [axisPos] visit the positions. *)

Inductive Position := yLeft | yRight | xBottom | xTop.

Definition NumAxisPositions : Z := 4.

Definition posIndex (p : Position) : Z :=
  match p with yLeft => 0 | yRight => 1 | xBottom => 2 | xTop => 3 end.

Definition posOfInt (z : Z) : option Position :=
  if z =? 0 then Some yLeft
  else if z =? 1 then Some yRight
  else if z =? 2 then Some xBottom
  else if z =? 3 then Some xTop
  else None.

(** [for ( axisPos = 0; axisPos < NumAxisPositions; axisPos++ )] *)
Definition positions : list Position := [yLeft; yRight; xBottom; xTop].

(** Modelled from the spec: the macro [QWT_DUMMY_ID], the index of the
    first axis of a position. *)
Definition QWT_DUMMY_ID : nat := 0.

(** Modelled from the spec: the enumeration of the four legend positions,
    declared in [qwt_plot.h]. *)
Inductive LegendPosition := LeftLegend | RightLegend | BottomLegend | TopLegend.

Definition legendPosOfInt (z : Z) : option LegendPosition :=
  if z =? 0 then Some LeftLegend
  else if z =? 1 then Some RightLegend
  else if z =? 2 then Some BottomLegend
  else if z =? 3 then Some TopLegend
  else None.

Definition legendPosIndex (p : LegendPosition) : Z :=
  match p with
  | LeftLegend => 0 | RightLegend => 1 | BottomLegend => 2 | TopLegend => 3
  end.

(** Modelled from the spec: the flags of [QwtPlotLayout::Options],
    declared in [qwt_plot_layout.h], one bit each. *)
Definition AlignScales : Z := 0x01.
Definition IgnoreScrollbars : Z := 0x02.
Definition IgnoreFrames : Z := 0x04.
Definition IgnoreLegend : Z := 0x08.
Definition IgnoreTitle : Z := 0x10.
Definition IgnoreFooter : Z := 0x20.

(** [options & flag] used as a condition *)
Definition testFlag (options flag : Z) : bool :=
  negb (Z.land options flag =? 0).

Definition qwtIsXAxis (axisPos : Position) : bool :=
  match axisPos with xTop | xBottom => true | _ => false end.

Definition qwtIsYAxis (axisPos : Position) : bool :=
  match axisPos with yLeft | yRight => true | _ => false end.

(** An array indexed by the axis position, [T a[ NumAxisPositions ]]. *)
Record PosArray (A : Type) := mkPosArray
  { atLeft : A; atRight : A; atBottom : A; atTop : A }.
Arguments mkPosArray {A}.
Arguments atLeft {A}.
Arguments atRight {A}.
Arguments atBottom {A}.
Arguments atTop {A}.

Definition getAt {A : Type} (a : PosArray A) (p : Position) : A :=
  match p with
  | yLeft => atLeft a
  | yRight => atRight a
  | xBottom => atBottom a
  | xTop => atTop a
  end.

Definition setAt {A : Type} (a : PosArray A) (p : Position) (v : A) : PosArray A :=
  match p with
  | yLeft => mkPosArray v (atRight a) (atBottom a) (atTop a)
  | yRight => mkPosArray (atLeft a) v (atBottom a) (atTop a)
  | xBottom => mkPosArray (atLeft a) (atRight a) v (atTop a)
  | xTop => mkPosArray (atLeft a) (atRight a) (atBottom a) v
  end.

Definition constArray {A : Type} (v : A) : PosArray A := mkPosArray v v v v.

(** [QVector::resize]: the first [n] elements are kept, new ones are
    default constructed. *)
Definition resizeV {A : Type} (n : nat) (dflt : A) (l : list A) : list A :=
  take n l ++ replicate (n - length l) dflt.

(** [for ( int i = i0; i < l.size(); i++ ) body( i, l[i] )] over a vector
    [l] the body does not change, with the state threaded through. *)
Fixpoint forEachFrom {A St : Type} (body : nat -> A -> St -> outcome St)
    (i : nat) (l : list A) (st : St) : outcome St :=
  match l with
  | [] => Done st
  | a :: l' => st' ← body i a st; forEachFrom body (S i) l' st'
  end.

(** ** The widgets of the plot, as far as the layout reads them *)

(** [QwtText]: [isEmpty()] and the measuring function
    [heightForWidth( double )]; the font the snapshot installs is part of
    the function. *)
Record QwtText := mkText
  { text_isEmpty : bool;
    text_heightForWidth : Q -> Q }.

(** [QwtText()] *)
Definition emptyText : QwtText := mkText true (fun _ => 0%Q).

Record QwtTextLabel := mkLabel
  { label_text : QwtText;
    label_frameWidth : Z }.

(** [QwtScaleWidget] with its [QwtScaleDraw]; [dimForLength] is taken at
    the font of the widget. *)
Record QwtScaleWidget := mkScaleWidget
  { sw_margin : Z;
    sw_startBorderDist : Z;
    sw_endBorderDist : Z;
    sw_dimForLength : Z -> Z;
    sw_titleIsEmpty : bool;
    sw_titleHeightForWidth : Z -> Z;
    sw_hasTicks : bool;
    sw_maxTickLength : Q }.

Record QwtAbstractLegend := mkLegend
  { lg_frameWidth : Z;
    lg_scrollExtentH : Z;
    lg_scrollExtentV : Z;
    lg_sizeHint : QSize;
    lg_heightForWidth : Z -> Z;
    lg_isEmpty : bool }.

(** One axis slot of the plot: [isAxisVisible( axisId )] and
    [axisWidget( axisId )]. *)
Record Axis := mkAxis
  { axisVisible : bool;
    axisWidget : QwtScaleWidget }.

(** [QwtPlot]; [None] is a null pointer. [plot_axes] holds the axes of
    each position, [axesCount( axisPos )] is the length of the list. *)
Record QwtPlot := mkPlot
  { plot_legend : option QwtAbstractLegend;
    plot_titleLabel : option QwtTextLabel;
    plot_footerLabel : option QwtTextLabel;
    plot_axes : PosArray (list Axis);
    plot_canvasMargins : PosArray Z }.

Definition axesCount (plot : QwtPlot) (axisPos : Position) : nat :=
  length (getAt (plot_axes plot) axisPos).

(** Modelled from the spec: [plot->axesCount( axisPos, true )], the
    number of the visible axes of a position. *)
Definition visibleAxesCount (plot : QwtPlot) (axisPos : Position) : Z :=
  Z.of_nat (length (List.filter axisVisible (getAt (plot_axes plot) axisPos))).

(** What [minimumSizeHint] reads of a scale widget besides:
    [minimumSizeHint()] and the two values of
    [getBorderDistHint( start, end )]. *)
Record ScaleWidgetHint := mkScaleWidgetHint
  { swh_minimumSizeHint : QSize;
    swh_minLeft : Z;
    swh_minRight : Z }.

(** What [minimumSizeHint] reads of the plot besides: the hints of the
    widget of the first axis of each position,
    [canvas()->minimumSize()], and [heightForWidth( int )] of the title
    label and of the footer label. *)
Record QwtPlotHints := mkPlotHints
  { hint_axisWidget : PosArray ScaleWidgetHint;
    hint_canvasMinimumSize : QSize;
    hint_titleHeightForWidth : Z -> Z;
    hint_footerHeightForWidth : Z -> Z }.

(** ** The measurement snapshot: [QwtPlotLayoutData] *)

Module QwtPlotLayoutData.

Record LegendData := mkLegendData
  { lgd_frameWidth : Z;
    hScrollExtent : Z;
    vScrollExtent : Z;
    hint : QSize }.

(** [LegendData::init]; without a legend the members keep their values. *)
Definition LegendData_init (old : LegendData)
    (legend : option QwtAbstractLegend) (rect : QRectF.t) : LegendData :=
  match legend with
  | Some legend =>
      let legendHint := lg_sizeHint legend in
      let w := Z.min (sz_width legendHint) (qFloor (QRectF.width rect)) in
      let h := lg_heightForWidth legend w in
      let h := if h <=? 0 then sz_height legendHint else h in
      let w := if Qlt_bool (QRectF.height rect) (inject_Z h)
               then w + lg_scrollExtentH legend else w in
      mkLegendData (lg_frameWidth legend) (lg_scrollExtentH legend)
                   (lg_scrollExtentV legend) (mkQSize w h)
  | None => old
  end.

Record LabelData := mkLabelData
  { text : QwtText;
    lbd_frameWidth : Z }.

Definition LabelData_init (label : option QwtTextLabel) : LabelData :=
  match label with
  | Some label => mkLabelData (label_text label) (label_frameWidth label)
  | None => mkLabelData emptyText 0
  end.

Record ScaleData := mkScaleData
  { isVisible : bool;
    scaleWidget : option QwtScaleWidget;
    start : Z;
    end_ : Z;
    baseLineOffset : Z;
    dimWithoutTitle : Z }.

(** A default constructed element of the vector. *)
Definition ScaleData_default : ScaleData := mkScaleData false None 0 0 0 0.

(** [ScaleData::init]. For a null widget the source assigns [NULL] to its
    parameter, not to the member: [scaleWidget] keeps its old value. *)
Definition ScaleData_init (old : ScaleData)
    (axisWidget : option QwtScaleWidget) : ScaleData :=
  match axisWidget with
  | Some aw =>
      let dim := sw_dimForLength aw QWIDGETSIZE_MAX in
      let dim :=
        if negb (sw_titleIsEmpty aw)
        then dim - sw_titleHeightForWidth aw QWIDGETSIZE_MAX else dim in
      mkScaleData true (Some aw) (sw_startBorderDist aw)
                  (sw_endBorderDist aw) (sw_margin aw) dim
  | None => mkScaleData false (scaleWidget old) 0 0 0 0
  end.

Record CanvasData := mkCanvasData { contentsMargins : PosArray Z }.

Inductive Label := Title | Footer.

Record t := mk
  { legendData : LegendData;
    titleData : LabelData;
    footerData : LabelData;
    scaleData : PosArray (list ScaleData);
    canvasData : CanvasData;
    tickOffset : PosArray Q;
    numVisibleScales : PosArray Z }.

(** [labelData[ labelType ]] *)
Definition labelData (d : t) (labelType : Label) : LabelData :=
  match labelType with Title => titleData d | Footer => footerData d end.

Definition numAxes (d : t) (axisPos : Position) : nat :=
  length (getAt (scaleData d) axisPos).

(** The loop over the axes of one position in [init]: [slots] is the
    resized vector, the counter of visible scales and the tick offset
    of the position are threaded through. *)
Fixpoint initAxes (axes : list Axis) (slots : list ScaleData)
    (numVisible : Z) (tickOff : Q) : list ScaleData * (Z * Q) :=
  match axes, slots with
  | a :: axes', sclData :: slots' =>
      if axisVisible a then
        let aw := axisWidget a in
        let tickOff :=
          if numVisible =? 0 then
            let t0 := inject_Z (sw_margin aw) in
            if sw_hasTicks aw then (t0 + sw_maxTickLength aw)%Q else t0
          else tickOff in
        let '(rest, acc) := initAxes axes' slots' (numVisible + 1) tickOff in
        (ScaleData_init sclData (Some aw) :: rest, acc)
      else
        let '(rest, acc) := initAxes axes' slots' numVisible tickOff in
        (ScaleData_init sclData None :: rest, acc)
  | _, _ => ([], (numVisible, tickOff))
  end.

Definition initPosition (plot : QwtPlot) (old : t) (axisPos : Position)
    : list ScaleData * (Z * Q) :=
  let axes := getAt (plot_axes plot) axisPos in
  let slots := resizeV (length axes) ScaleData_default
                       (getAt (scaleData old) axisPos) in
  initAxes axes slots 0 0%Q.

(** [QwtPlotLayoutData::init] *)
Definition init (plot : QwtPlot) (rect : QRectF.t) (old : t) : t :=
  let l := initPosition plot old yLeft in
  let r := initPosition plot old yRight in
  let b := initPosition plot old xBottom in
  let u := initPosition plot old xTop in
  mk (LegendData_init (legendData old) (plot_legend plot) rect)
     (LabelData_init (plot_titleLabel plot))
     (LabelData_init (plot_footerLabel plot))
     (mkPosArray (fst l) (fst r) (fst b) (fst u))
     (mkCanvasData (plot_canvasMargins plot))
     (mkPosArray (snd (snd l)) (snd (snd r)) (snd (snd b)) (snd (snd u)))
     (mkPosArray (fst (snd l)) (fst (snd r)) (fst (snd b)) (fst (snd u))).

Definition hasSymmetricYAxes (d : t) : bool :=
  getAt (numVisibleScales d) yLeft =? getAt (numVisibleScales d) yRight.

End QwtPlotLayoutData.

(** ** The engine: [QwtPlotLayoutEngine] *)

Module QwtPlotLayoutEngine.

Import QwtPlotLayoutData.

Record t := mk
  { d_legendPos : LegendPosition;
    d_legendRatio : float;
    d_canvasMargin : PosArray Z;
    d_alignCanvas : PosArray bool;
    d_spacing : Z }.

Definition setSpacing (spacing : Z) (e : t) : t :=
  mk (d_legendPos e) (d_legendRatio e) (d_canvasMargin e) (d_alignCanvas e) spacing.
Definition setAlignCanvas (axisPos : Position) (on : bool) (e : t) : t :=
  mk (d_legendPos e) (d_legendRatio e) (d_canvasMargin e)
     (setAt (d_alignCanvas e) axisPos on) (d_spacing e).
Definition setCanvasMargin (axisPos : Position) (margin : Z) (e : t) : t :=
  mk (d_legendPos e) (d_legendRatio e) (setAt (d_canvasMargin e) axisPos margin)
     (d_alignCanvas e) (d_spacing e).
Definition setLegendPos (pos : LegendPosition) (e : t) : t :=
  mk pos (d_legendRatio e) (d_canvasMargin e) (d_alignCanvas e) (d_spacing e).
Definition setLegendRatio (ratio : float) (e : t) : t :=
  mk (d_legendPos e) ratio (d_canvasMargin e) (d_alignCanvas e) (d_spacing e).

(** *** [Dimensions] *)

Record Dimensions := mkDimensions
  { dimTitle : Z;
    dimFooter : Z;
    dimAxisVector : PosArray (list Z) }.

(** The constructor [Dimensions( layoutData )]. *)
Definition newDimensions (layoutData : QwtPlotLayoutData.t) : Dimensions :=
  mkDimensions 0 0
    (mkPosArray (replicate (numAxes layoutData yLeft) 0)
                (replicate (numAxes layoutData yRight) 0)
                (replicate (numAxes layoutData xBottom) 0)
                (replicate (numAxes layoutData xTop) 0)).

Definition setDimTitle (d : Z) (dims : Dimensions) : Dimensions :=
  mkDimensions d (dimFooter dims) (dimAxisVector dims).
Definition setDimFooter (d : Z) (dims : Dimensions) : Dimensions :=
  mkDimensions (dimTitle dims) d (dimAxisVector dims).

Definition dimAxis (dims : Dimensions) (axisPos : Position) (i : nat) : outcome Z :=
  fromOption (getAt (dimAxisVector dims) axisPos !! i).

Definition setDimAxis (axisPos : Position) (i : nat) (dim : Z)
    (dims : Dimensions) : outcome Dimensions :=
  let v := getAt (dimAxisVector dims) axisPos in
  if (i <? length v)%nat
  then Done (mkDimensions (dimTitle dims) (dimFooter dims)
               (setAt (dimAxisVector dims) axisPos (<[i := dim]> v)))
  else Fault.

Definition dimAxes (dims : Dimensions) (axisPos : Position) : Z :=
  fold_left Z.add (getAt (dimAxisVector dims) axisPos) 0.

Definition dimYAxes (dims : Dimensions) : Z :=
  dimAxes dims yLeft + dimAxes dims yRight.

Definition dimXAxes (dims : Dimensions) : Z :=
  dimAxes dims xTop + dimAxes dims xBottom.

Definition centered (dims : Dimensions) (rect labelRect : QRectF.t) : QRectF.t :=
  let r := labelRect in
  let r := QRectF.setX (QRectF.left rect + inject_Z (dimAxes dims yLeft))%Q r in
  QRectF.setWidth (QRectF.width rect - inject_Z (dimYAxes dims))%Q r.

Definition innerRect (dims : Dimensions) (rect : QRectF.t) : QRectF.t :=
  QRectF.mk
    (QRectF.x rect + inject_Z (dimAxes dims yLeft))%Q
    (QRectF.y rect + inject_Z (dimAxes dims xTop))%Q
    (QRectF.width rect - inject_Z (dimYAxes dims))%Q
    (QRectF.height rect - inject_Z (dimXAxes dims))%Q.

(** *** [layoutLegend] *)

(** The thickness [dim] of the legend. *)
Definition legendDim (e : t) (options : Z) (legendData : LegendData)
    (rect : QRectF.t) : Z :=
  match d_legendPos e with
  | LeftLegend | RightLegend =>
      let dim := Z.min (sz_width (hint legendData))
                       (toInt (ofQ (QRectF.width rect) * d_legendRatio e)%float) in
      if negb (testFlag options IgnoreScrollbars) then
        if Qlt_bool (QRectF.height rect) (inject_Z (sz_height (hint legendData)))
        then dim + hScrollExtent legendData
        else dim
      else dim
  | _ =>
      let dim := Z.min (sz_height (hint legendData))
                       (toInt (ofQ (QRectF.height rect) * d_legendRatio e)%float) in
      Z.max dim (vScrollExtent legendData)
  end.

Definition layoutLegend (e : t) (options : Z) (legendData : LegendData)
    (rect : QRectF.t) : QRectF.t :=
  let dim := inject_Z (legendDim e options legendData rect) in
  let legendRect := rect in
  match d_legendPos e with
  | LeftLegend => QRectF.setWidth dim legendRect
  | RightLegend =>
      QRectF.setWidth dim (QRectF.setX (QRectF.right rect - dim)%Q legendRect)
  | TopLegend => QRectF.setHeight dim legendRect
  | BottomLegend =>
      QRectF.setHeight dim (QRectF.setY (QRectF.bottom rect - dim)%Q legendRect)
  end.

(** *** [alignLegend] *)

Definition alignLegend (e : t) (legendData : LegendData)
    (canvasRect legendRect : QRectF.t) : QRectF.t :=
  let alignedRect := legendRect in
  match d_legendPos e with
  | BottomLegend | TopLegend =>
      if Qlt_bool (inject_Z (sz_width (hint legendData))) (QRectF.width canvasRect)
      then QRectF.setWidth (QRectF.width canvasRect)
             (QRectF.setX (QRectF.x canvasRect) alignedRect)
      else alignedRect
  | _ =>
      if Qlt_bool (inject_Z (sz_height (hint legendData))) (QRectF.height canvasRect)
      then QRectF.setHeight (QRectF.height canvasRect)
             (QRectF.setY (QRectF.y canvasRect) alignedRect)
      else alignedRect
  end.

(** *** [heightForWidth] *)

Definition heightForWidth (labelType : Label) (layoutData : QwtPlotLayoutData.t)
    (options : Z) (width : Q) (axesWidth : Z) : Z :=
  let labelData := labelData layoutData labelType in
  if text_isEmpty (text labelData) then 0
  else
    let w := width in
    let w := if negb (hasSymmetricYAxes layoutData)
             then (w - inject_Z axesWidth)%Q else w in
    let d := qCeil (text_heightForWidth (text labelData) w) in
    if negb (testFlag options IgnoreFrames)
    then d + 2 * lbd_frameWidth labelData
    else d.

(** *** [layoutDimensions] *)

(** [backboneOffset[ axisPos ]] as computed at the head of
    [layoutDimensions]. *)
Definition backboneOffset (e : t) (options : Z)
    (layoutData : QwtPlotLayoutData.t) (axisPos : Position) : Z :=
  let bo := 0 in
  let bo := if negb (testFlag options IgnoreFrames)
            then bo + getAt (contentsMargins (canvasData layoutData)) axisPos
            else bo in
  if negb (getAt (d_alignCanvas e) axisPos)
  then bo + getAt (d_canvasMargin e) axisPos
  else bo.

(** The value of [length] for one visible axis. *)
Definition axisLength (e : t) (options : Z) (layoutData : QwtPlotLayoutData.t)
    (rect : QRectF.t) (dims : Dimensions) (axisPos : Position)
    (sd : ScaleData) : Q :=
  let bo := backboneOffset e options layoutData in
  if qwtIsXAxis axisPos then
    let length := (QRectF.width rect - inject_Z (dimYAxes dims))%Q in
    let length := (length - inject_Z (start sd + end_ sd))%Q in
    let length := if dimAxes dims yRight >? 0 then (length - 1)%Q else length in
    let length :=
      (length + inject_Z (Z.min (dimAxes dims yLeft) (start sd - bo yLeft)))%Q in
    let length :=
      (length + inject_Z (Z.min (dimAxes dims yRight) (end_ sd - bo yRight)))%Q in
    length
  else
    let length := (QRectF.height rect - inject_Z (dimXAxes dims))%Q in
    let length := (length - inject_Z (start sd + end_ sd))%Q in
    let length := (length - 1)%Q in
    let length := if dimAxes dims xBottom <=? 0 then (length - 1)%Q else length in
    let length := if dimAxes dims xTop <=? 0 then (length - 1)%Q else length in
    let length :=
      if dimAxes dims xBottom >? 0
      then (length + qMinF (getAt (tickOffset layoutData) xBottom)
                           (inject_Z (start sd - bo xBottom)))%Q
      else length in
    let length :=
      if dimAxes dims xTop >? 0
      then (length + qMinF (getAt (tickOffset layoutData) xTop)
                           (inject_Z (end_ sd - bo xTop)))%Q
      else length in
    let length :=
      if dimTitle dims >? 0
      then (length - inject_Z (dimTitle dims + d_spacing e))%Q
      else length in
    length.

(** The thickness [d] the loop computes for one visible axis; the scale
    widget is dereferenced. *)
Definition axisDim (e : t) (options : Z) (layoutData : QwtPlotLayoutData.t)
    (rect : QRectF.t) (dims : Dimensions) (axisPos : Position)
    (sd : ScaleData) : outcome Z :=
  let length := axisLength e options layoutData rect dims axisPos sd in
  let d := dimWithoutTitle sd in
  sw ← fromOption (scaleWidget sd);
  if negb (sw_titleIsEmpty sw)
  then Done (d + sw_titleHeightForWidth sw (qFloor length))
  else Done d.

(** The body of the loop over the axes of one position. The state is
    the pair of [dimensions] and [done]. *)
Definition axisStep (e : t) (options : Z) (layoutData : QwtPlotLayoutData.t)
    (rect : QRectF.t) (axisPos : Position) (i : nat) (sd : ScaleData)
    (st : Dimensions * bool) : outcome (Dimensions * bool) :=
  if isVisible sd then
    d ← axisDim e options layoutData rect (fst st) axisPos sd;
    cur ← dimAxis (fst st) axisPos i;
    if d >? cur then
      dims' ← setDimAxis axisPos i d (fst st);
      Done (dims', false)
    else Done st
  else Done st.

(** [for ( int i = 0; i < layoutData.numAxes( axisPos ); i++ )] *)
Definition axesLoop (e : t) (options : Z) (layoutData : QwtPlotLayoutData.t)
    (rect : QRectF.t) (axisPos : Position) (st : Dimensions * bool)
    : outcome (Dimensions * bool) :=
  forEachFrom (axisStep e options layoutData rect axisPos) 0
    (getAt (scaleData layoutData) axisPos) st.

Definition labelStep (e : t) (options : Z) (layoutData : QwtPlotLayoutData.t)
    (rect : QRectF.t) (labelType : Label) (st : Dimensions * bool)
    : Dimensions * bool :=
  let dims := fst st in
  match labelType with
  | Title =>
      if negb (testFlag options IgnoreTitle) then
        let d := heightForWidth Title layoutData options
                   (QRectF.width rect) (dimYAxes dims) in
        if d >? dimTitle dims then (setDimTitle d dims, false) else st
      else st
  | Footer =>
      if negb (testFlag options IgnoreFooter) then
        let d := heightForWidth Footer layoutData options
                   (QRectF.width rect) (dimYAxes dims) in
        if d >? dimFooter dims then (setDimFooter d dims, false) else st
      else st
  end.

(** One pass through the body of the [while] loop; the result carries
    the value of [done] at the end of the pass. *)
Definition layoutPass (e : t) (options : Z) (layoutData : QwtPlotLayoutData.t)
    (rect : QRectF.t) (dims : Dimensions) : outcome (Dimensions * bool) :=
  let st := (dims, true) in
  let st := labelStep e options layoutData rect Title st in
  let st := labelStep e options layoutData rect Footer st in
  st ← axesLoop e options layoutData rect yLeft st;
  st ← axesLoop e options layoutData rect yRight st;
  st ← axesLoop e options layoutData rect xBottom st;
  axesLoop e options layoutData rect xTop st.

(** [while ( !done )] *)
Fixpoint layoutLoop (fuel : nat) (e : t) (options : Z)
    (layoutData : QwtPlotLayoutData.t) (rect : QRectF.t)
    (dims : Dimensions) : outcome Dimensions :=
  match fuel with
  | O => OutOfFuel
  | S fuel' =>
      '(dims', done) ← layoutPass e options layoutData rect dims;
      if (done : bool) then Done dims'
      else layoutLoop fuel' e options layoutData rect dims'
  end.

Definition layoutDimensions (fuel : nat) (e : t) (options : Z)
    (layoutData : QwtPlotLayoutData.t) (rect : QRectF.t) : outcome Dimensions :=
  layoutLoop fuel e options layoutData rect (newDimensions layoutData).

(** *** [alignScales] *)

(** [backboneOffset[ axisPos ]] as computed at the head of
    [alignScales]. *)
Definition alignBackboneOffset (e : t) (options : Z)
    (layoutData : QwtPlotLayoutData.t) (axisPos : Position) : Z :=
  let bo := 0 in
  let bo := if negb (getAt (d_alignCanvas e) axisPos)
            then bo + getAt (d_canvasMargin e) axisPos
            else bo in
  if negb (testFlag options IgnoreFrames)
  then bo + getAt (contentsMargins (canvasData layoutData)) axisPos
  else bo.

(** The state of [alignScales]: [canvasRect] and the array [scaleRect]. *)
Definition AlignState : Type := (QRectF.t * PosArray (list QRectF.t))%type.

(** [scaleRect[ axisPos ][ i ]] *)
Definition scaleRectAt (scaleRect : PosArray (list QRectF.t))
    (axisPos : Position) (i : nat) : outcome QRectF.t :=
  fromOption (getAt scaleRect axisPos !! i).

Definition storeScaleRect (scaleRect : PosArray (list QRectF.t))
    (axisPos : Position) (i : nat) (r : QRectF.t) : PosArray (list QRectF.t) :=
  setAt scaleRect axisPos (<[i := r]> (getAt scaleRect axisPos)).

(** The body of the first pair of loops, for an x axis: the left end,
    then the right end. *)
Definition alignXAxis (e : t) (bo : Position -> Z) (startDist endDist : Z)
    (scaleRect : PosArray (list QRectF.t)) (canvasRect axisRect : QRectF.t)
    : outcome (QRectF.t * QRectF.t) :=
  leftScaleRect ← scaleRectAt scaleRect yLeft QWT_DUMMY_ID;
  let leftOffset := bo yLeft - startDist in
  let '(canvasRect, axisRect) :=
    if QRectF.isValid leftScaleRect then
      let dx := (inject_Z leftOffset + QRectF.width leftScaleRect)%Q in
      if getAt (d_alignCanvas e) yLeft && Qlt_bool dx 0 then
        let cLeft := QRectF.left canvasRect in
        (QRectF.setLeft (qMaxF cLeft (QRectF.left axisRect - dx)%Q) canvasRect,
         axisRect)
      else
        let minLeft := QRectF.left leftScaleRect in
        let left := (QRectF.left axisRect + inject_Z leftOffset)%Q in
        (canvasRect, QRectF.setLeft (qMaxF left minLeft) axisRect)
    else
      if getAt (d_alignCanvas e) yLeft && (leftOffset <? 0) then
        (QRectF.setLeft
           (qMaxF (QRectF.left canvasRect)
                  (QRectF.left axisRect - inject_Z leftOffset)%Q) canvasRect,
         axisRect)
      else if leftOffset >? 0 then
        (canvasRect,
         QRectF.setLeft (QRectF.left axisRect + inject_Z leftOffset)%Q axisRect)
      else (canvasRect, axisRect) in
  rightScaleRect ← scaleRectAt scaleRect yRight QWT_DUMMY_ID;
  let rightOffset := bo yRight - endDist + 1 in
  if QRectF.isValid rightScaleRect then
    let dx := (inject_Z rightOffset + QRectF.width rightScaleRect)%Q in
    let canvasRect :=
      if getAt (d_alignCanvas e) yRight && Qlt_bool dx 0 then
        let cRight := QRectF.right canvasRect in
        QRectF.setRight (qMinF cRight (QRectF.right axisRect + dx)%Q) canvasRect
      else canvasRect in
    let maxRight := QRectF.right rightScaleRect in
    let right := (QRectF.right axisRect - inject_Z rightOffset)%Q in
    Done (canvasRect, QRectF.setRight (qMinF right maxRight) axisRect)
  else
    if getAt (d_alignCanvas e) yRight && (rightOffset <? 0) then
      Done (QRectF.setRight
              (qMinF (QRectF.right canvasRect)
                     (QRectF.right axisRect + inject_Z rightOffset)%Q) canvasRect,
            axisRect)
    else if rightOffset >? 0 then
      Done (canvasRect,
            QRectF.setRight (QRectF.right axisRect - inject_Z rightOffset)%Q axisRect)
    else Done (canvasRect, axisRect).

(** The same for a y axis: the bottom end, then the top end. *)
Definition alignYAxis (e : t) (bo : Position -> Z)
    (layoutData : QwtPlotLayoutData.t) (startDist endDist : Z)
    (scaleRect : PosArray (list QRectF.t)) (canvasRect axisRect : QRectF.t)
    : outcome (QRectF.t * QRectF.t) :=
  bottomScaleRect ← scaleRectAt scaleRect xBottom QWT_DUMMY_ID;
  let bottomOffset := bo xBottom - endDist + 1 in
  let '(canvasRect, axisRect) :=
    if QRectF.isValid bottomScaleRect then
      let dy := (inject_Z bottomOffset + QRectF.height bottomScaleRect)%Q in
      if getAt (d_alignCanvas e) xBottom && Qlt_bool dy 0 then
        let cBottom := QRectF.bottom canvasRect in
        (QRectF.setBottom (qMinF cBottom (QRectF.bottom axisRect + dy)%Q) canvasRect,
         axisRect)
      else
        let maxBottom := (QRectF.top bottomScaleRect
                          + getAt (tickOffset layoutData) xBottom)%Q in
        let bottom := (QRectF.bottom axisRect - inject_Z bottomOffset)%Q in
        (canvasRect, QRectF.setBottom (qMinF bottom maxBottom) axisRect)
    else
      if getAt (d_alignCanvas e) xBottom && (bottomOffset <? 0) then
        (QRectF.setBottom
           (qMinF (QRectF.bottom canvasRect)
                  (QRectF.bottom axisRect + inject_Z bottomOffset)%Q) canvasRect,
         axisRect)
      else if bottomOffset >? 0 then
        (canvasRect,
         QRectF.setBottom (QRectF.bottom axisRect - inject_Z bottomOffset)%Q axisRect)
      else (canvasRect, axisRect) in
  topScaleRect ← scaleRectAt scaleRect xTop QWT_DUMMY_ID;
  let topOffset := bo xTop - startDist in
  if QRectF.isValid topScaleRect then
    let dy := (inject_Z topOffset + QRectF.height topScaleRect)%Q in
    if getAt (d_alignCanvas e) xTop && Qlt_bool dy 0 then
      let cTop := QRectF.top canvasRect in
      Done (QRectF.setTop (qMaxF cTop (QRectF.top axisRect - dy)%Q) canvasRect,
            axisRect)
    else
      let minTop := (QRectF.bottom topScaleRect
                     - getAt (tickOffset layoutData) xTop)%Q in
      let top := (QRectF.top axisRect + inject_Z topOffset)%Q in
      Done (canvasRect, QRectF.setTop (qMaxF top minTop) axisRect)
  else
    if getAt (d_alignCanvas e) xTop && (topOffset <? 0) then
      Done (QRectF.setTop
              (qMaxF (QRectF.top canvasRect)
                     (QRectF.top axisRect - inject_Z topOffset)%Q) canvasRect,
            axisRect)
    else if topOffset >? 0 then
      Done (canvasRect,
            QRectF.setTop (QRectF.top axisRect + inject_Z topOffset)%Q axisRect)
    else Done (canvasRect, axisRect).

(** The body of the first pair of loops. *)
Definition alignStep (e : t) (options : Z) (layoutData : QwtPlotLayoutData.t)
    (axisPos : Position) (i : nat) (sd : ScaleData) (st : AlignState)
    : outcome AlignState :=
  let '(canvasRect, scaleRect) := st in
  let bo := alignBackboneOffset e options layoutData in
  axisRect ← scaleRectAt scaleRect axisPos i;
  if negb (QRectF.isValid axisRect) then Done st
  else
    let startDist := start sd in
    let endDist := end_ sd in
    '(canvasRect, axisRect) ←
      (if qwtIsXAxis axisPos
       then alignXAxis e bo startDist endDist scaleRect canvasRect axisRect
       else alignYAxis e bo layoutData startDist endDist scaleRect
              canvasRect axisRect);
    Done (canvasRect, storeScaleRect scaleRect axisPos i axisRect).

(** The body of the second pair of loops. *)
Definition realignStep (e : t) (options : Z) (layoutData : QwtPlotLayoutData.t)
    (axisPos : Position) (i : nat) (axisData : ScaleData) (st : AlignState)
    : outcome AlignState :=
  let '(canvasRect, scaleRect) := st in
  let cm := contentsMargins (canvasData layoutData) in
  let frames := negb (testFlag options IgnoreFrames) in
  sRect ← scaleRectAt scaleRect axisPos i;
  if negb (QRectF.isValid sRect) then Done st
  else
    let sRect :=
      if qwtIsXAxis axisPos then
        let sRect :=
          if getAt (d_alignCanvas e) yLeft then
            let y := (QRectF.left canvasRect - inject_Z (start axisData))%Q in
            let y := if frames then (y + inject_Z (getAt cm yLeft))%Q else y in
            QRectF.setLeft y sRect
          else sRect in
        let sRect :=
          if getAt (d_alignCanvas e) yRight then
            let y := (QRectF.right canvasRect - 1 + inject_Z (end_ axisData))%Q in
            let y := if frames then (y - inject_Z (getAt cm yRight))%Q else y in
            QRectF.setRight y sRect
          else sRect in
        if getAt (d_alignCanvas e) axisPos then
          match axisPos with
          | xTop => QRectF.setBottom (QRectF.top canvasRect) sRect
          | _ => QRectF.setTop (QRectF.bottom canvasRect) sRect
          end
        else sRect
      else
        let sRect :=
          if getAt (d_alignCanvas e) xTop then
            let x := (QRectF.top canvasRect - inject_Z (start axisData))%Q in
            let x := if frames then (x + inject_Z (getAt cm xTop))%Q else x in
            QRectF.setTop x sRect
          else sRect in
        let sRect :=
          if getAt (d_alignCanvas e) xBottom then
            let x := (QRectF.bottom canvasRect - 1 + inject_Z (end_ axisData))%Q in
            let x := if frames then (x - inject_Z (getAt cm xBottom))%Q else x in
            QRectF.setBottom x sRect
          else sRect in
        if getAt (d_alignCanvas e) axisPos then
          match axisPos with
          | yLeft => QRectF.setRight (QRectF.left canvasRect) sRect
          | _ => QRectF.setLeft (QRectF.right canvasRect) sRect
          end
        else sRect in
    Done (canvasRect, storeScaleRect scaleRect axisPos i sRect).

(** [for ( axisPos ... ) for ( i = 0; i < layoutData.numAxes( axisPos ); i++ )] *)
Definition overAllAxes (layoutData : QwtPlotLayoutData.t)
    (body : Position -> nat -> ScaleData -> AlignState -> outcome AlignState)
    (st : AlignState) : outcome AlignState :=
  st ← forEachFrom (body yLeft) 0 (getAt (scaleData layoutData) yLeft) st;
  st ← forEachFrom (body yRight) 0 (getAt (scaleData layoutData) yRight) st;
  st ← forEachFrom (body xBottom) 0 (getAt (scaleData layoutData) xBottom) st;
  forEachFrom (body xTop) 0 (getAt (scaleData layoutData) xTop) st.

Definition alignScales (e : t) (options : Z) (layoutData : QwtPlotLayoutData.t)
    (st : AlignState) : outcome AlignState :=
  st ← overAllAxes layoutData (alignStep e options layoutData) st;
  overAllAxes layoutData (realignStep e options layoutData) st.

End QwtPlotLayoutEngine.

(** ** The public class: [QwtPlotLayout] *)

Module QwtPlotLayout.

Import QwtPlotLayoutData.
Import QwtPlotLayoutEngine.

(** An axis as the callers name it: [QwtAxisId], two [int]s. *)
Record QwtAxisId := mkAxisId { pos : Z; id : Z }.

Record PrivateData := mkData
  { titleRect : QRectF.t;
    footerRect : QRectF.t;
    legendRect : QRectF.t;
    scaleRects : PosArray (list QRectF.t);
    canvasRect : QRectF.t;
    layoutData : QwtPlotLayoutData.t;
    layoutEngine : QwtPlotLayoutEngine.t }.

Definition withEngine (e : QwtPlotLayoutEngine.t) (d : PrivateData) : PrivateData :=
  mkData (titleRect d) (footerRect d) (legendRect d) (scaleRects d)
         (canvasRect d) (layoutData d) e.

Definition withScaleRects (v : PosArray (list QRectF.t)) (d : PrivateData)
    : PrivateData :=
  mkData (titleRect d) (footerRect d) (legendRect d) v
         (canvasRect d) (layoutData d) (layoutEngine d).

(** *** Configuration *)

(** The arrays of the engine accessed at an [int]; outside the array the
    access is undefined. *)
Definition engineSetCanvasMargin (axisPos : Z) (margin : Z)
    (e : QwtPlotLayoutEngine.t) : outcome QwtPlotLayoutEngine.t :=
  p ← fromOption (posOfInt axisPos);
  Done (QwtPlotLayoutEngine.setCanvasMargin p margin e).

Definition engineSetAlignCanvas (axisPos : Z) (on : bool)
    (e : QwtPlotLayoutEngine.t) : outcome QwtPlotLayoutEngine.t :=
  p ← fromOption (posOfInt axisPos);
  Done (QwtPlotLayoutEngine.setAlignCanvas p on e).

Definition engineCanvasMargin (e : QwtPlotLayoutEngine.t) (axisPos : Z) : outcome Z :=
  p ← fromOption (posOfInt axisPos); Done (getAt (d_canvasMargin e) p).

Definition engineAlignCanvas (e : QwtPlotLayoutEngine.t) (axisPos : Z) : outcome bool :=
  p ← fromOption (posOfInt axisPos); Done (getAt (d_alignCanvas e) p).

(** [setCanvasMargin( margin, axisPos )]; the default of [axisPos] is -1,
    all positions. *)
Definition setCanvasMargin (margin : Z) (axisPos : Z) (d : PrivateData)
    : outcome PrivateData :=
  let margin := if margin <? -1 then -1 else margin in
  if axisPos =? -1 then
    Done (withEngine
            (fold_left (fun e p => QwtPlotLayoutEngine.setCanvasMargin p margin e)
                       positions (layoutEngine d)) d)
  else if (axisPos >=? 0) && (axisPos <? NumAxisPositions) then
    e ← engineSetCanvasMargin axisPos margin (layoutEngine d);
    Done (withEngine e d)
  else Done d.

Definition canvasMargin (d : PrivateData) (axisId : Z) : outcome Z :=
  if (axisId <? 0) || (axisId >=? NumAxisPositions) then Done 0
  else engineCanvasMargin (layoutEngine d) axisId.

Definition setAlignCanvasToScales (on : bool) (d : PrivateData) : PrivateData :=
  withEngine
    (fold_left (fun e p => QwtPlotLayoutEngine.setAlignCanvas p on e)
               positions (layoutEngine d)) d.

Definition setAlignCanvasToScale (axisPos : Z) (on : bool) (d : PrivateData)
    : outcome PrivateData :=
  if (axisPos >=? 0) && (axisPos <? NumAxisPositions) then
    e ← engineSetAlignCanvas axisPos on (layoutEngine d);
    Done (withEngine e d)
  else Done d.

Definition alignCanvasToScale (d : PrivateData) (axisPos : Z) : outcome bool :=
  if (axisPos <? 0) || (axisPos >=? NumAxisPositions) then Done false
  else engineAlignCanvas (layoutEngine d) axisPos.

Definition setSpacing (spacing : Z) (d : PrivateData) : PrivateData :=
  withEngine (QwtPlotLayoutEngine.setSpacing (Z.max 0 spacing) (layoutEngine d)) d.

Definition spacing (d : PrivateData) : Z := d_spacing (layoutEngine d).

(** [setLegendPosition( pos, ratio )]; [pos] is the value of the
    enumeration as the caller passes it, the [default] branch of the
    [switch] takes every value that is not one of the four. *)
Definition setLegendPosition (pos : Z) (ratio : float) (d : PrivateData)
    : PrivateData :=
  let ratio := if (1 <? ratio)%float then 1%float else ratio in
  match legendPosOfInt pos with
  | Some ((TopLegend | BottomLegend) as p) =>
      let ratio := if (ratio <=? 0)%float then 0.33%float else ratio in
      withEngine (setLegendPos p (setLegendRatio ratio (layoutEngine d))) d
  | Some ((LeftLegend | RightLegend) as p) =>
      let ratio := if (ratio <=? 0)%float then 0.5%float else ratio in
      withEngine (setLegendPos p (setLegendRatio ratio (layoutEngine d))) d
  | None => d
  end.

(** [setLegendPosition( pos )], which passes the ratio [0.0] *)
Definition setLegendPosition1 (pos : Z) (d : PrivateData) : PrivateData :=
  setLegendPosition pos 0%float d.

Definition legendPosition (d : PrivateData) : LegendPosition :=
  d_legendPos (layoutEngine d).

Definition setLegendRatio (ratio : float) (d : PrivateData) : PrivateData :=
  setLegendPosition (legendPosIndex (legendPosition d)) ratio d.

Definition legendRatio (d : PrivateData) : float :=
  d_legendRatio (layoutEngine d).

(** *** The rectangles *)

Definition setTitleRect (rect : QRectF.t) (d : PrivateData) : PrivateData :=
  mkData rect (footerRect d) (legendRect d) (scaleRects d)
         (canvasRect d) (layoutData d) (layoutEngine d).

(** [scaleRects[ axisId.id ] = rect] on the vector of one position. *)
Definition assignAt (v : list QRectF.t) (i : Z) (rect : QRectF.t)
    : outcome (list QRectF.t) :=
  if (0 <=? i) && (i <? Z.of_nat (length v))
  then Done (<[Z.to_nat i := rect]> v)
  else Fault.

(** [scaleRects[ axisId.id ]] read *)
Definition readAt (v : list QRectF.t) (i : Z) : outcome QRectF.t :=
  if 0 <=? i then fromOption (v !! Z.to_nat i) else Fault.

Definition setScaleRect (axisId : QwtAxisId) (rect : QRectF.t) (d : PrivateData)
    : outcome PrivateData :=
  if (pos axisId >=? 0) && (pos axisId <? NumAxisPositions) then
    p ← fromOption (posOfInt (pos axisId));
    let v := getAt (scaleRects d) p in
    if (id axisId >=? 0) && (id axisId <? Z.of_nat (length v)) then
      v' ← assignAt v (id axisId) rect;
      Done (withScaleRects (setAt (scaleRects d) p v') d)
    else Done d
  else Done d.

Definition scaleRect (d : PrivateData) (axisId : QwtAxisId) : outcome QRectF.t :=
  if (pos axisId >=? 0) && (pos axisId <? NumAxisPositions) then
    p ← fromOption (posOfInt (pos axisId));
    let v := getAt (scaleRects d) p in
    if (id axisId >=? 0) && (id axisId <? Z.of_nat (length v))
    then readAt v (id axisId)
    else Done QRectF.null
  else Done QRectF.null.

Definition invalidate (d : PrivateData) : PrivateData :=
  mkData QRectF.null QRectF.null QRectF.null
    (mkPosArray
       (<[0%nat := QRectF.null]> (resizeV 1 QRectF.null (getAt (scaleRects d) yLeft)))
       (<[0%nat := QRectF.null]> (resizeV 1 QRectF.null (getAt (scaleRects d) yRight)))
       (<[0%nat := QRectF.null]> (resizeV 1 QRectF.null (getAt (scaleRects d) xBottom)))
       (<[0%nat := QRectF.null]> (resizeV 1 QRectF.null (getAt (scaleRects d) xTop))))
    QRectF.null (layoutData d) (layoutEngine d).

(** The constructor. [raw] is the freshly allocated [PrivateData], whose
    members are not initialised except for the spacing of the engine. *)
Definition construct (raw : PrivateData) : outcome PrivateData :=
  let d := withEngine (QwtPlotLayoutEngine.setSpacing 5 (layoutEngine raw)) raw in
  let d := setLegendPosition1 (legendPosIndex BottomLegend) d in
  d ← setCanvasMargin 4 (-1) d;
  let d := setAlignCanvasToScales false d in
  Done (invalidate d).

(** *** [activate] and [update] *)

(** The rectangle of one axis: [canvasRect] moved to the side of the
    canvas, [pos] away from it and [dim] thick. *)
Definition placeScale (canvasRect : QRectF.t) (axisPos : Position)
    (pos dim : Z) : QRectF.t :=
  let scaleRect := canvasRect in
  let scaleRect :=
    match axisPos with
    | yLeft =>
        QRectF.setWidth (inject_Z dim)
          (QRectF.setX (QRectF.left canvasRect - inject_Z pos - inject_Z dim)%Q
                       scaleRect)
    | yRight =>
        QRectF.setWidth (inject_Z dim)
          (QRectF.setX (QRectF.right canvasRect + inject_Z pos)%Q scaleRect)
    | xBottom =>
        QRectF.setHeight (inject_Z dim)
          (QRectF.setY (QRectF.bottom canvasRect + inject_Z pos)%Q scaleRect)
    | xTop =>
        QRectF.setHeight (inject_Z dim)
          (QRectF.setY (QRectF.top canvasRect - inject_Z pos - inject_Z dim)%Q
                       scaleRect)
    end in
  QRectF.normalized scaleRect.

(** [for ( int i = 0; i < d_data->scaleRects[ axisPos ].size(); i++ )]:
    the rectangles of the axes of one position, from index [i] on, with
    the running offset [pos]. *)
Fixpoint layoutScales (canvasRect : QRectF.t) (dims : Dimensions)
    (axisPos : Position) (i : nat) (rects : list QRectF.t) (pos : Z)
    : outcome (list QRectF.t) :=
  match rects with
  | [] => Done []
  | r :: rects' =>
      dim ← dimAxis dims axisPos i;
      if negb (dim =? 0) then
        rest ← layoutScales canvasRect dims axisPos (S i) rects' (pos + dim);
        Done (placeScale canvasRect axisPos pos dim :: rest)
      else
        rest ← layoutScales canvasRect dims axisPos (S i) rects' pos;
        Done (r :: rest)
  end.

(** [plot->legend() && !plot->legend()->isEmpty()] *)
Definition hasLegend (plot : QwtPlot) : bool :=
  match plot_legend plot with
  | Some legend => negb (lg_isEmpty legend)
  | None => false
  end.

(** The part of [activate] that places the legend: the rectangle of
    the legend and the rest of the plot rectangle. *)
Definition placeLegend (e : QwtPlotLayoutEngine.t) (options : Z)
    (layoutData : QwtPlotLayoutData.t) (rect : QRectF.t)
    : QRectF.t * QRectF.t :=
  let legendRect := layoutLegend e options (legendData layoutData) rect in
  let rect :=
    QRect.toRectF
      (QRect.subtractedBoundingRect (QRect.ofRectF rect)
                                    (QRect.ofRectF legendRect)) in
  let sp := inject_Z (d_spacing e) in
  let rect :=
    match d_legendPos e with
    | LeftLegend => QRectF.setLeft (QRectF.left rect + sp)%Q rect
    | RightLegend => QRectF.setRight (QRectF.right rect - sp)%Q rect
    | TopLegend => QRectF.setTop (QRectF.top rect + sp)%Q rect
    | BottomLegend => QRectF.setBottom (QRectF.bottom rect - sp)%Q rect
    end in
  (legendRect, rect).

(** The part of [activate] that places the title: the new title
    rectangle and the rest of the rectangle. *)
Definition placeTitle (e : QwtPlotLayoutEngine.t)
    (layoutData : QwtPlotLayoutData.t) (dimensions : Dimensions)
    (rect : QRectF.t) : QRectF.t * QRectF.t :=
  let labelRect :=
    QRectF.mk (QRectF.left rect) (QRectF.top rect) (QRectF.width rect)
              (inject_Z (dimTitle dimensions)) in
  let rect :=
    QRectF.setTop (QRectF.bottom labelRect + inject_Z (d_spacing e))%Q rect in
  let labelRect :=
    if negb (hasSymmetricYAxes layoutData)
    then centered dimensions rect labelRect else labelRect in
  (labelRect, rect).

Definition placeFooter (e : QwtPlotLayoutEngine.t)
    (layoutData : QwtPlotLayoutData.t) (dimensions : Dimensions)
    (rect : QRectF.t) : QRectF.t * QRectF.t :=
  let labelRect :=
    QRectF.mk (QRectF.left rect)
              (QRectF.bottom rect - inject_Z (dimFooter dimensions))%Q
              (QRectF.width rect) (inject_Z (dimFooter dimensions)) in
  let rect :=
    QRectF.setBottom (QRectF.top labelRect - inject_Z (d_spacing e))%Q rect in
  let labelRect :=
    if negb (hasSymmetricYAxes layoutData)
    then centered dimensions rect labelRect else labelRect in
  (labelRect, rect).

Definition activate (fuel : nat) (plot : QwtPlot) (plotRect : QRectF.t)
    (options : Z) (d : PrivateData) : outcome PrivateData :=
  let rect := plotRect in
  let layoutData := QwtPlotLayoutData.init plot rect (layoutData d) in
  let e := layoutEngine d in
  let '(legendRect, rect) :=
    if negb (testFlag options IgnoreLegend) && hasLegend plot
    then placeLegend e options layoutData rect
    else (legendRect d, rect) in
  dimensions ← layoutDimensions fuel e options layoutData rect;
  let '(titleRect, rect) :=
    if dimTitle dimensions >? 0
    then placeTitle e layoutData dimensions rect
    else (titleRect d, rect) in
  let '(footerRect, rect) :=
    if dimFooter dimensions >? 0
    then placeFooter e layoutData dimensions rect
    else (footerRect d, rect) in
  let canvasRect := innerRect dimensions rect in
  sl ← layoutScales canvasRect dimensions yLeft 0 (getAt (scaleRects d) yLeft) 0;
  sr ← layoutScales canvasRect dimensions yRight 0 (getAt (scaleRects d) yRight) 0;
  sb ← layoutScales canvasRect dimensions xBottom 0 (getAt (scaleRects d) xBottom) 0;
  st ← layoutScales canvasRect dimensions xTop 0 (getAt (scaleRects d) xTop) 0;
  '(canvasRect, scaleRects) ←
    alignScales e options layoutData (canvasRect, mkPosArray sl sr sb st);
  let legendRect :=
    if negb (QRectF.isEmpty legendRect)
    then alignLegend e (legendData layoutData) canvasRect legendRect
    else legendRect in
  Done (mkData titleRect footerRect legendRect scaleRects canvasRect
               layoutData e).

Definition resizeScaleRects (plot : QwtPlot) (d : PrivateData) : PrivateData :=
  withScaleRects
    (mkPosArray
       (resizeV (axesCount plot yLeft) QRectF.null (getAt (scaleRects d) yLeft))
       (resizeV (axesCount plot yRight) QRectF.null (getAt (scaleRects d) yRight))
       (resizeV (axesCount plot xBottom) QRectF.null (getAt (scaleRects d) xBottom))
       (resizeV (axesCount plot xTop) QRectF.null (getAt (scaleRects d) xTop)))
    d.

Definition update (fuel : nat) (plot : QwtPlot) (plotRect : QRectF.t)
    (options : Z) (d : PrivateData) : outcome PrivateData :=
  activate fuel plot plotRect options (resizeScaleRects plot (invalidate d)).

(** *** [minimumSizeHint] *)

(** The local class [ScaleData] of [minimumSizeHint]; its constructor
    sets every member to zero. *)
Record HintScaleData := mkHintScaleData
  { hs_w : Z;
    hs_h : Z;
    hs_minLeft : Z;
    hs_minRight : Z;
    hs_tickOffset : Z }.

Definition HintScaleData_default : HintScaleData := mkHintScaleData 0 0 0 0 0.

Definition withW (w : Z) (sd : HintScaleData) : HintScaleData :=
  mkHintScaleData w (hs_h sd) (hs_minLeft sd) (hs_minRight sd) (hs_tickOffset sd).
Definition withH (h : Z) (sd : HintScaleData) : HintScaleData :=
  mkHintScaleData (hs_w sd) h (hs_minLeft sd) (hs_minRight sd) (hs_tickOffset sd).

(** The first loop, for one position: the measures of the first axis
    when it is visible. What the plot answers for the first axis of a
    position without axes is not part of this file; the model ends with
    [Fault] there. *)
Definition hintScaleData (plot : QwtPlot) (hints : QwtPlotHints)
    (axisPos : Position) : outcome HintScaleData :=
  a ← fromOption (getAt (plot_axes plot) axisPos !! QWT_DUMMY_ID);
  if axisVisible a then
    let scl := axisWidget a in
    let hint := swh_minimumSizeHint (getAt (hint_axisWidget hints) axisPos) in
    let tickOffset := sw_margin scl in
    let tickOffset :=
      if sw_hasTicks scl then tickOffset + qCeil (sw_maxTickLength scl)
      else tickOffset in
    Done (mkHintScaleData (sz_width hint) (sz_height hint)
            (swh_minLeft (getAt (hint_axisWidget hints) axisPos))
            (swh_minRight (getAt (hint_axisWidget hints) axisPos))
            tickOffset)
  else Done HintScaleData_default.

(** [canvasBorder[ axisPos ]]; [fw] is the left contents margin of the
    canvas. *)
Definition canvasBorder (plot : QwtPlot) (e : QwtPlotLayoutEngine.t)
    (axisPos : Position) : Z :=
  let fw := getAt (plot_canvasMargins plot) yLeft in
  fw + getAt (d_canvasMargin e) axisPos + 1.

(** The body of the second loop. [sd] is a reference to
    [scaleData[ axisPos ]]; the elements read beside it are those of the
    axes of the other orientation, which the body does not change, so
    that [sd] is written back at the end. *)
Definition shiftStep (canvasBorder : Position -> Z)
    (scaleData : PosArray HintScaleData) (axisPos : Position)
    : PosArray HintScaleData :=
  let sd := getAt scaleData axisPos in
  let sd :=
    if negb (hs_w sd =? 0) && qwtIsXAxis axisPos then
      let sd :=
        if (hs_minLeft sd >? canvasBorder yLeft)
           && negb (hs_w (getAt scaleData yLeft) =? 0)
        then
          let shiftLeft := hs_minLeft sd - canvasBorder yLeft in
          let shiftLeft :=
            if shiftLeft >? hs_w (getAt scaleData yLeft)
            then hs_w (getAt scaleData yLeft) else shiftLeft in
          withW (hs_w sd - shiftLeft) sd
        else sd in
      if (hs_minRight sd >? canvasBorder yRight)
         && negb (hs_w (getAt scaleData yRight) =? 0)
      then
        let shiftRight := hs_minRight sd - canvasBorder yRight in
        let shiftRight :=
          if shiftRight >? hs_w (getAt scaleData yRight)
          then hs_w (getAt scaleData yRight) else shiftRight in
        withW (hs_w sd - shiftRight) sd
      else sd
    else sd in
  let sd :=
    if negb (hs_h sd =? 0) && qwtIsYAxis axisPos then
      let sd :=
        if (hs_minLeft sd >? canvasBorder xBottom)
           && negb (hs_h (getAt scaleData xBottom) =? 0)
        then
          let shiftBottom := hs_minLeft sd - canvasBorder xBottom in
          let shiftBottom :=
            if shiftBottom >? hs_tickOffset (getAt scaleData xBottom)
            then hs_tickOffset (getAt scaleData xBottom) else shiftBottom in
          withH (hs_h sd - shiftBottom) sd
        else sd in
      if (hs_minLeft sd >? canvasBorder xTop)
         && negb (hs_h (getAt scaleData xTop) =? 0)
      then
        let shiftTop := hs_minRight sd - canvasBorder xTop in
        let shiftTop :=
          if shiftTop >? hs_tickOffset (getAt scaleData xTop)
          then hs_tickOffset (getAt scaleData xTop) else shiftTop in
        withH (hs_h sd - shiftTop) sd
      else sd
    else sd in
  setAt scaleData axisPos sd.

(** The body of the loop over the two labels, on the pair of [w] and
    [h]; [heightForWidth] is the one of the label. *)
Definition hintLabelStep (plot : QwtPlot) (scaleData : PosArray HintScaleData)
    (spacing : Z) (label : option QwtTextLabel) (heightForWidth : Z -> Z)
    (wh : Z * Z) : Z * Z :=
  let '(w, h) := wh in
  match label with
  | Some label =>
      if negb (text_isEmpty (label_text label)) then
        let centerOnCanvas :=
          negb (visibleAxesCount plot yLeft =? visibleAxesCount plot yRight) in
        let axesW := hs_w (getAt scaleData yLeft) + hs_w (getAt scaleData yRight) in
        let labelW := w in
        let labelW := if centerOnCanvas then labelW - axesW else labelW in
        let labelH := heightForWidth labelW in
        let '(w, labelH) :=
          if labelH >? labelW then
            let labelW := labelH in
            let w := labelW in
            let w := if centerOnCanvas then w + axesW else w in
            (w, heightForWidth labelW)
          else (w, labelH) in
        (w, h + (labelH + spacing))
      else (w, h)
  | None => (w, h)
  end.

(** The contribution of the legend. *)
Definition hintLegendStep (e : QwtPlotLayoutEngine.t)
    (legend : option QwtAbstractLegend) (wh : Z * Z) : Z * Z :=
  let '(w, h) := wh in
  match legend with
  | Some legend =>
      if negb (lg_isEmpty legend) then
        match d_legendPos e with
        | LeftLegend | RightLegend =>
            let legendW := sz_width (lg_sizeHint legend) in
            let legendH := lg_heightForWidth legend legendW in
            let w := if lg_frameWidth legend >? 0 then w + d_spacing e else w in
            let legendW :=
              if legendH >? h then legendW + lg_scrollExtentH legend
              else legendW in
            let legendW :=
              if (d_legendRatio e <? 1)%float
              then Z.min legendW (toInt (ofInt w / (1 - d_legendRatio e))%float)
              else legendW in
            (w + (legendW + d_spacing e), h)
        | _ =>
            let legendW := Z.min (sz_width (lg_sizeHint legend)) w in
            let legendH := lg_heightForWidth legend legendW in
            let h := if lg_frameWidth legend >? 0 then h + d_spacing e else h in
            let legendH :=
              if (d_legendRatio e <? 1)%float
              then Z.min legendH (toInt (ofInt h / (1 - d_legendRatio e))%float)
              else legendH in
            (w, h + (legendH + d_spacing e))
        end
      else (w, h)
  | None => (w, h)
  end.

(** The size of the plot before the labels and the legend: the two
    vertical axes and the canvas side by side, the two horizontal axes
    and the canvas one above the other. *)
Definition hintCore (plot : QwtPlot) (hints : QwtPlotHints)
    (scaleData : PosArray HintScaleData) : Z * Z :=
  let left := getAt (plot_canvasMargins plot) yLeft in
  let top := getAt (plot_canvasMargins plot) xTop in
  let right := getAt (plot_canvasMargins plot) yRight in
  let bottom := getAt (plot_canvasMargins plot) xBottom in
  let minCanvasSize := hint_canvasMinimumSize hints in
  let w := hs_w (getAt scaleData yLeft) + hs_w (getAt scaleData yRight) in
  let cw := Z.max (hs_w (getAt scaleData xBottom)) (hs_w (getAt scaleData xTop))
            + left + 1 + right + 1 in
  let w := w + Z.max cw (sz_width minCanvasSize) in
  let h := hs_h (getAt scaleData xBottom) + hs_h (getAt scaleData xTop) in
  let ch := Z.max (hs_h (getAt scaleData yLeft)) (hs_h (getAt scaleData yRight))
            + top + 1 + bottom + 1 in
  let h := h + Z.max ch (sz_height minCanvasSize) in
  (w, h).

Definition minimumSizeHint (plot : QwtPlot) (hints : QwtPlotHints)
    (d : PrivateData) : outcome QSize :=
  let e := layoutEngine d in
  sl ← hintScaleData plot hints yLeft;
  sr ← hintScaleData plot hints yRight;
  sb ← hintScaleData plot hints xBottom;
  st ← hintScaleData plot hints xTop;
  let scaleData :=
    fold_left (shiftStep (canvasBorder plot e)) positions
              (mkPosArray sl sr sb st) in
  let wh := hintCore plot hints scaleData in
  let wh := hintLabelStep plot scaleData (spacing d) (plot_titleLabel plot)
              (hint_titleHeightForWidth hints) wh in
  let wh := hintLabelStep plot scaleData (spacing d) (plot_footerLabel plot)
              (hint_footerHeightForWidth hints) wh in
  let wh := hintLegendStep e (plot_legend plot) wh in
  Done (mkQSize (fst wh) (snd wh)).

End QwtPlotLayout.

(** ** Notions used to state the properties *)

Module Props.

Import QwtPlotLayoutData.
Import QwtPlotLayoutEngine.
Import QwtPlotLayout.

(** *** Configuration *)


Definition defaultRatio (p : LegendPosition) : float :=
  match p with
  | TopLegend | BottomLegend => 0.33%float
  | LeftLegend | RightLegend => 0.5%float
  end.

(** The ratio a call of [setLegendPosition] with a position of the
    enumeration stores. *)
Definition storedRatio (p : LegendPosition) (ratio : float) : float :=
  if (1 <? ratio)%float then 1%float
  else if (ratio <=? 0)%float then defaultRatio p else ratio.




(** *** Axis identifiers *)

(** The valid identifiers: a position of the enumeration and an index
    into the vector of rectangles of this position. *)
Definition validAxisId (d : PrivateData) (axisId : QwtAxisId) : Prop :=
  exists p, posOfInt (pos axisId) = Some p /\
    0 <= id axisId < Z.of_nat (length (getAt (scaleRects d) p)).

(** *** The legend *)


(** *** The solver *)

Definition dimVec (dims : Dimensions) (p : Position) : list Z :=
  getAt (dimAxisVector dims) p.

(** The vectors of the dimensions have the sizes of the snapshot. *)
Definition sized (layoutData : QwtPlotLayoutData.t) (dims : Dimensions) : Prop :=
  forall p, length (dimVec dims p) = numAxes layoutData p.

(** The order on dimensions: title, footer and every axis. *)
Definition dims_le (d d' : Dimensions) : Prop :=
  dimTitle d <= dimTitle d' /\ dimFooter d <= dimFooter d'
  /\ forall p, Forall2 Z.le (dimVec d p) (dimVec d' p).

(** The sum of all the dimensions. *)
Definition total (d : Dimensions) : Z :=
  dimTitle d + dimFooter d
  + (dimAxes d yLeft + dimAxes d yRight + dimAxes d xBottom + dimAxes d xTop).

(** Every visible axis of the snapshot has its scale widget. *)
Definition wellFormed (layoutData : QwtPlotLayoutData.t) : Prop :=
  forall p i sd, getAt (scaleData layoutData) p !! i = Some sd ->
    isVisible sd = true -> scaleWidget sd <> None.

(** The measuring functions of the snapshot are bounded by [B]: the
    height for width of the title and footer texts, and for every visible
    axis its dimension without title and its title height for width. *)
Definition measuresBounded (B : Z) (layoutData : QwtPlotLayoutData.t) : Prop :=
  (forall w, text_heightForWidth (text (titleData layoutData)) w <= inject_Z B)%Q
  /\ (forall w, text_heightForWidth (text (footerData layoutData)) w <= inject_Z B)%Q
  /\ forall p i sd, getAt (scaleData layoutData) p !! i = Some sd ->
       isVisible sd = true ->
       dimWithoutTitle sd <= B
       /\ forall sw, scaleWidget sd = Some sw ->
            forall l, sw_titleHeightForWidth sw l <= B.

(** The number of axis slots of the snapshot. *)
Definition numSlots (layoutData : QwtPlotLayoutData.t) : Z :=
  Z.of_nat (numAxes layoutData yLeft + numAxes layoutData yRight
            + numAxes layoutData xBottom + numAxes layoutData xTop).

(** A bound on every dimension, and with it on the number of passes. *)
Definition dimBound (B : Z) (layoutData : QwtPlotLayoutData.t) : Z :=
  2 * Z.max 0 B
  + 2 * Z.max 0 (lbd_frameWidth (titleData layoutData))
  + 2 * Z.max 0 (lbd_frameWidth (footerData layoutData)).

Definition passBound (B : Z) (layoutData : QwtPlotLayoutData.t) : nat :=
  S (Z.to_nat ((numSlots layoutData + 2) * dimBound B layoutData)).

(** The dimensions after [setDimAxis]. *)
Definition raised (dims : Dimensions) (p : Position) (i : nat) (d : Z) : Dimensions :=
  mkDimensions (dimTitle dims) (dimFooter dims)
    (setAt (dimAxisVector dims) p (<[i := d]> (dimVec dims p))).

(** One step of the solver, on the pair of [dimensions] and [done]: no
    dimension decreases; when [done] is still set nothing has changed;
    when [done] has been cleared in the step the sum has increased. *)
Definition advance (s s' : Dimensions * bool) : Prop :=
  dims_le (fst s) (fst s')
  /\ (snd s' = true -> s' = s)
  /\ (snd s' = false -> snd s = true -> total (fst s) < total (fst s')).

(** Every dimension is at most [U]. *)
Definition bounded (U : Z) (d : Dimensions) : Prop :=
  dimTitle d <= U /\ dimFooter d <= U
  /\ forall p, Forall (fun x => x <= U) (dimVec d p).

(** *** The snapshot *)

(** The snapshot counts the visible axes of a position. *)
Definition countVisible (axes : list Axis) : Z :=
  Z.of_nat (length (List.filter axisVisible axes)).


(** *** The length of an axis *)

(** The length of a horizontal axis as the specification words it. *)
Definition axisLength_claimed (e : QwtPlotLayoutEngine.t) (options : Z)
    (layoutData : QwtPlotLayoutData.t) (rect : QRectF.t) (dims : Dimensions)
    (sd : ScaleData) : Q :=
  (QRectF.width rect - inject_Z (dimYAxes dims)
   - inject_Z (start sd) - inject_Z (end_ sd)
   + inject_Z (Z.min (dimAxes dims yLeft)
                     (start sd - backboneOffset e options layoutData yLeft))
   + inject_Z (Z.min (dimAxes dims yRight)
                     (end_ sd - backboneOffset e options layoutData yRight)))%Q.

(** ** [alignScales] *)

(** [alignScales] keeps the sizes of the vectors and the rectangles that
    are not valid. *)
Definition keepsInvalid (st st' : AlignState) : Prop :=
  (forall p, length (getAt (snd st') p) = length (getAt (snd st) p))
  /\ forall p i r, getAt (snd st) p !! i = Some r ->
       QRectF.isValid r = false -> getAt (snd st') p !! i = Some r.
(** *** The layout pass *)

(** A rectangle less margins at its four sides. *)
Definition shrunkByMargins (rect : QRectF.t) (margins : PosArray Z) : QRectF.t :=
  QRectF.mk
    (QRectF.xp rect + inject_Z (getAt margins yLeft))%Q
    (QRectF.yp rect + inject_Z (getAt margins xTop))%Q
    (QRectF.w rect - inject_Z (getAt margins yLeft)
                   - inject_Z (getAt margins yRight))%Q
    (QRectF.h rect - inject_Z (getAt margins xTop)
                   - inject_Z (getAt margins xBottom))%Q.

(** The plot has no title, or an empty one; the same for the footer. *)
Definition noTitle (plot : QwtPlot) : Prop :=
  text_isEmpty (text (LabelData_init (plot_titleLabel plot))) = true.
Definition noFooter (plot : QwtPlot) : Prop :=
  text_isEmpty (text (LabelData_init (plot_footerLabel plot))) = true.

(** No axis of the plot is visible. *)
Definition noVisibleAxis (plot : QwtPlot) : Prop :=
  forall p i a, getAt (plot_axes plot) p !! i = Some a -> axisVisible a = false.

(** *** Data for the examples *)

(** Uninitialised private data, and the layout the constructor makes of
    it. *)
Definition ex_raw : PrivateData :=
  mkData QRectF.null QRectF.null QRectF.null (constArray []) QRectF.null
    (QwtPlotLayoutData.mk (mkLegendData 0 0 0 (mkQSize 0 0))
       (mkLabelData emptyText 0) (mkLabelData emptyText 0) (constArray [])
       (mkCanvasData (constArray 0)) (constArray 0%Q) (constArray 0))
    (QwtPlotLayoutEngine.mk LeftLegend 0%float (constArray 0) (constArray false) 0).

Definition ex_layout : PrivateData :=
  match construct ex_raw with
  | Done d => d
  | _ => ex_raw
  end.

(** A plot without title, footer and legend whose four axes are hidden;
    the canvas has a frame two pixels wide. *)
Definition ex_bare_plot : QwtPlot :=
  let hidden := mkAxis false (mkScaleWidget 2 5 5 (fun _ => 30) true
                                (fun _ => 0) true 8) in
  mkPlot None None None (constArray [hidden]) (constArray 2).


(** A plot with a right axis ten pixels thick and a bottom axis whose
    title needs two lines below a width of 780; the left and top axes are
    hidden. *)
Definition ex_rect : QRectF.t := QRectF.mk 0 0 800 600.
Definition ex_widget : QwtScaleWidget :=
  mkScaleWidget 2 5 5 (fun _ => 30) false
    (fun l => if l <? 780 then 40 else 20) true 8.
Definition ex_right_widget : QwtScaleWidget :=
  mkScaleWidget 0 0 0 (fun _ => 10) true (fun _ => 0) false 0.
Definition ex_hidden : Axis := mkAxis false ex_widget.
Definition ex_plot : QwtPlot :=
  mkPlot None None None
    (mkPosArray [ex_hidden] [mkAxis true ex_right_widget]
                [mkAxis true ex_widget] [ex_hidden])
    (constArray 1).
Definition ex_snapshot : QwtPlotLayoutData.t :=
  init ex_plot ex_rect (layoutData ex_layout).
Definition ex_engine : QwtPlotLayoutEngine.t := layoutEngine ex_layout.
Definition ex_scale : ScaleData := ScaleData_init ScaleData_default (Some ex_widget).

(** The dimensions of the first pass when it reaches the bottom axis. *)
Definition ex_dims : Dimensions := mkDimensions 0 0 (mkPosArray [0] [10] [0] [0]).

(** A plot with a title, a legend, a left and a bottom axis. *)
Definition ex_full_plot : QwtPlot :=
  mkPlot (Some (mkLegend 1 10 12 (mkQSize 150 40) (fun _ => 40) false))
    (Some (mkLabel (mkText false (fun w => if Qle_bool w 300 then 40 else 20)%Q) 1))
    None
    (mkPosArray [mkAxis true ex_widget] [ex_hidden]
                [mkAxis true ex_widget] [ex_hidden])
    (constArray 1).


Definition ex_small_rect : QRectF.t := QRectF.mk 0 0 100 80.

(** *** Further notions *)

(** The tick offset of a scale widget as the snapshot takes it: the
    margin, and the maximal tick length when the scale draw has ticks. *)
Definition widgetTickOffset (aw : QwtScaleWidget) : Q :=
  if sw_hasTicks aw then (inject_Z (sw_margin aw) + sw_maxTickLength aw)%Q
  else inject_Z (sw_margin aw).

(** The states of [alignScales] whose vectors have the same sizes. *)
Definition sameSizes (s s' : AlignState) : Prop :=
  forall q, length (getAt (snd s') q) = length (getAt (snd s) q).

(** The rectangle [r'] lies within [r]: no edge has moved outwards. *)
Definition within (r' r : QRectF.t) : Prop :=
  (QRectF.left r <= QRectF.left r')%Q /\ (QRectF.right r' <= QRectF.right r)%Q
  /\ (QRectF.top r <= QRectF.top r')%Q /\ (QRectF.bottom r' <= QRectF.bottom r)%Q.

(** Two rectangles of an axis have the same extent across the axis: the
    same vertical position and height for a horizontal axis, the same
    horizontal position and width for a vertical one. *)
Definition sameAcross (axisPos : Position) (r r' : QRectF.t) : Prop :=
  if qwtIsXAxis axisPos
  then QRectF.yp r' = QRectF.yp r /\ QRectF.h r' = QRectF.h r
  else QRectF.xp r' = QRectF.xp r /\ QRectF.w r' = QRectF.w r.

(** No position has the canvas aligned to its scale, as after the
    constructor. *)
Definition noAlignCanvas (e : QwtPlotLayoutEngine.t) : Prop :=
  forall p, getAt (d_alignCanvas e) p = false.

(** The rectangles [sr] of the axes have, at the positions the canvas
    is not aligned to, the extents across the axis of those of [sr0]. *)
Definition keepsAcross (e : QwtPlotLayoutEngine.t)
    (sr0 sr : PosArray (list QRectF.t)) : Prop :=
  forall p, getAt (d_alignCanvas e) p = false ->
    forall i r0, getAt sr0 p !! i = Some r0 ->
      exists r, getAt sr p !! i = Some r /\ sameAcross p r0 r.

(** A canvas and the rectangles of the axes of [ex_plot] before the
    alignment: the right axis ten pixels wide, the bottom axis thirty
    pixels high. *)
Definition ex_canvas : QRectF.t := QRectF.mk 0 0 790 570.
Definition ex_axis_rects : PosArray (list QRectF.t) :=
  mkPosArray [QRectF.null] [QRectF.mk 790 0 10 570]
             [QRectF.mk 0 570 790 30] [QRectF.null].

(** The dimension of a label, and the option that makes the layout
    ignore the label. *)
Definition dimLabel (labelType : Label) (dims : Dimensions) : Z :=
  match labelType with Title => dimTitle dims | Footer => dimFooter dims end.
Definition ignoreLabel (labelType : Label) : Z :=
  match labelType with Title => IgnoreTitle | Footer => IgnoreFooter end.

(** A label does not take part in the layout: the option to ignore it
    is set, or its text is empty. *)
Definition labelOff (options : Z) (layoutData : QwtPlotLayoutData.t)
    (labelType : Label) : Prop :=
  testFlag options (ignoreLabel labelType) = true
  \/ text_isEmpty (text (labelData layoutData labelType)) = true.

(** *** The minimum size hint *)

(** Every position has a first axis, and it is hidden. *)
Definition firstAxesHidden (plot : QwtPlot) : Prop :=
  forall p, exists a,
    getAt (plot_axes plot) p !! QWT_DUMMY_ID = Some a /\ axisVisible a = false.

(** What the widgets report to [minimumSizeHint] is not negative: the
    minimum size hints of the visible first axes, the minimum size of
    the canvas, the heights of the labels, and the size hint, scroll
    extent and heights of the legend. *)
Definition hintsNonneg (plot : QwtPlot) (hints : QwtPlotHints) : Prop :=
  (forall p sd, hintScaleData plot hints p = Done sd ->
     0 <= hs_w sd /\ 0 <= hs_h sd)
  /\ 0 <= sz_width (hint_canvasMinimumSize hints)
  /\ 0 <= sz_height (hint_canvasMinimumSize hints)
  /\ (forall w, 0 <= hint_titleHeightForWidth hints w)
  /\ (forall w, 0 <= hint_footerHeightForWidth hints w)
  /\ (forall legend, plot_legend plot = Some legend ->
        0 <= sz_width (lg_sizeHint legend) /\ 0 <= lg_scrollExtentH legend
        /\ forall w, 0 <= lg_heightForWidth legend w).

(** The share of the legend is not cut to the quotient by the ratio:
    the legend is missing or empty, or the ratio is not below 1. *)
Definition legendUncut (e : QwtPlotLayoutEngine.t)
    (legend : option QwtAbstractLegend) : Prop :=
  match legend with
  | Some l => lg_isEmpty l = true
  | None => True
  end
  \/ (d_legendRatio e <? 1)%float = false.

(** The legend lies across the plot, at its top or bottom. *)
Definition legendAcross (e : QwtPlotLayoutEngine.t) : Prop :=
  d_legendPos e = TopLegend \/ d_legendPos e = BottomLegend.

(** A plot with a visible left axis and a visible bottom axis, a title
    and a legend at its default place, and what its widgets report. *)
Definition ex_hints : QwtPlotHints :=
  mkPlotHints (constArray (mkScaleWidgetHint (mkQSize 40 30) 12 6))
              (mkQSize 100 80) (fun w => if w <? 200 then 40 else 20) (fun _ => 0).
End Props.

(** * Properties *)

Module Facts.

Import QwtPlotLayoutData.
Import QwtPlotLayoutEngine.
Import QwtPlotLayout.
Import Props.

(** ** Comparisons of rationals *)

Lemma Qlt_bool_iff (a b : Q) : Qlt_bool a b = true <-> (a < b)%Q.
Proof.
  unfold Qlt_bool. rewrite negb_true_iff.
  destruct (Qle_bool b a) eqn:E.
  - apply Qle_bool_iff in E. split; [discriminate | intros H; exfalso; lra].
  - split; [intros _ | reflexivity].
    destruct (Qlt_le_dec a b) as [H | H]; [exact H |].
    apply Qle_bool_iff in H. congruence.
Qed.

Lemma Qlt_bool_false (a b : Q) : Qlt_bool a b = false <-> (b <= a)%Q.
Proof.
  unfold Qlt_bool. rewrite negb_false_iff. apply Qle_bool_iff.
Qed.

Lemma Qle_bool_false (a b : Q) : Qle_bool a b = false <-> (b < a)%Q.
Proof.
  destruct (Qle_bool a b) eqn:E.
  - apply Qle_bool_iff in E. split; [discriminate | intros H; exfalso; lra].
  - split; [intros _ | reflexivity].
    destruct (Qlt_le_dec b a) as [H | H]; [exact H |].
    apply Qle_bool_iff in H. congruence.
Qed.

(** ** Positions *)

Lemma posOfInt_Some (z : Z) (p : Position) :
  posOfInt z = Some p <-> z = posIndex p.
Proof.
  split; [| intros ->; destruct p; reflexivity].
  unfold posOfInt.
  destruct (Z.eqb_spec z 0); [intros [= <-]; assumption |].
  destruct (Z.eqb_spec z 1); [intros [= <-]; assumption |].
  destruct (Z.eqb_spec z 2); [intros [= <-]; assumption |].
  destruct (Z.eqb_spec z 3); [intros [= <-]; assumption |].
  discriminate.
Qed.

Lemma posOfInt_in_range (z : Z) :
  0 <= z < NumAxisPositions -> exists p, posOfInt z = Some p.
Proof.
  unfold NumAxisPositions. intros H.
  assert (z = 0 \/ z = 1 \/ z = 2 \/ z = 3) as [-> | [-> | [-> | ->]]] by lia;
    simpl; eauto.
Qed.

Lemma legendPosOfInt_index (p : LegendPosition) :
  legendPosOfInt (legendPosIndex p) = Some p.
Proof. destruct p; reflexivity. Qed.

(** ** Outcomes *)

Lemma bind_Done {A B : Type} (m : outcome A) (f : A -> outcome B) (b : B) :
  (m ≫= f) = Done b -> exists a, m = Done a /\ f a = Done b.
Proof. destruct m; simpl; intros H; try discriminate. eauto. Qed.

Ltac inv_bind H :=
  let a := fresh "a" in
  let Ha := fresh "Ha" in
  apply bind_Done in H; destruct H as (a & Ha & H).

(** ** Arrays indexed by the position *)

Lemma getAt_setAt_same {A : Type} (a : PosArray A) (p : Position) (v : A) :
  getAt (setAt a p v) p = v.
Proof. destruct p; reflexivity. Qed.

Lemma getAt_setAt_other {A : Type} (a : PosArray A) (p q : Position) (v : A) :
  p <> q -> getAt (setAt a p v) q = getAt a q.
Proof. destruct p, q; intros H; try reflexivity; contradiction. Qed.

Lemma Position_eq_dec (p q : Position) : {p = q} + {p <> q}.
Proof. decide equality. Defined.

(** ** Loops *)

(** A loop whose body returns, keeps an invariant and advances in a
    preorder returns, keeps the invariant and advances. *)
Lemma forEachFrom_total {A St : Type} (body : nat -> A -> St -> outcome St)
    (Inv : St -> Prop) (R : St -> St -> Prop) :
  (forall s, R s s) ->
  (forall s1 s2 s3, R s1 s2 -> R s2 s3 -> R s1 s3) ->
  forall (l : list A) (i : nat),
  (forall k a s, l !! k = Some a -> Inv s ->
     exists s', body (i + k)%nat a s = Done s' /\ Inv s' /\ R s s') ->
  forall s, Inv s ->
  exists s', forEachFrom body i l s = Done s' /\ Inv s' /\ R s s'.
Proof.
  intros Hrefl Htrans l. induction l as [| a l IH]; intros i Hbody s Hs.
  - exists s. simpl. auto.
  - destruct (Hbody 0%nat a s eq_refl Hs) as (s1 & E1 & Hs1 & R1).
    rewrite Nat.add_0_r in E1.
    destruct (IH (S i)) with (s := s1) as (s2 & E2 & Hs2 & R2).
    + intros k b s' Hk Hs'. destruct (Hbody (S k) b s' Hk Hs') as (s'' & E & ?).
      exists s''. rewrite <- E. split; [f_equal; lia | assumption].
    + exact Hs1.
    + exists s2. cbn [forEachFrom]. rewrite E1. simpl. rewrite E2. eauto.
Qed.

(** A loop keeps what its body keeps. *)
Lemma forEachFrom_keeps {A St : Type} (body : nat -> A -> St -> outcome St)
    (Inv : St -> Prop) :
  forall (l : list A) (i : nat),
  (forall k a s s', l !! k = Some a -> Inv s ->
     body (i + k)%nat a s = Done s' -> Inv s') ->
  forall s s', Inv s -> forEachFrom body i l s = Done s' -> Inv s'.
Proof.
  intros l. induction l as [| a l IH]; intros i Hbody s s' Hs H.
  - simpl in H. injection H as <-. exact Hs.
  - cbn [forEachFrom] in H. inv_bind H.
    apply (IH (S i)) with (s := a0); [| | exact H].
    + intros k b s1 s2 Hk Hs1 E. apply (Hbody (S k) b s1 s2 Hk Hs1).
      rewrite <- E. f_equal. lia.
    + apply (Hbody 0%nat a s a0 eq_refl Hs). rewrite Nat.add_0_r. exact Ha.
Qed.

(** ** Sums *)

Lemma fold_add_shift (l : list Z) (a : Z) :
  fold_left Z.add l a = a + fold_left Z.add l 0.
Proof.
  revert a. induction l as [| x l IH]; intros a; simpl; [lia |].
  rewrite (IH (a + x)), (IH (0 + x)). lia.
Qed.

Lemma fold_add_cons (x : Z) (l : list Z) :
  fold_left Z.add (x :: l) 0 = x + fold_left Z.add l 0.
Proof. simpl. apply fold_add_shift. Qed.

Lemma fold_add_insert (l : list Z) (i : nat) (cur d : Z) :
  l !! i = Some cur ->
  fold_left Z.add (<[i := d]> l) 0 = fold_left Z.add l 0 - cur + d.
Proof.
  revert i. induction l as [| x l IH]; intros i H; [discriminate |].
  destruct i as [| i]; simpl in H |- *.
  - injection H as ->. rewrite (fold_add_shift l (0 + d)), (fold_add_shift l (0 + cur)).
    lia.
  - rewrite (fold_add_shift _ (0 + x)), (fold_add_shift l (0 + x)), (IH i H). lia.
Qed.

Lemma fold_add_le (l l' : list Z) :
  Forall2 Z.le l l' -> fold_left Z.add l 0 <= fold_left Z.add l' 0.
Proof.
  induction 1 as [| x y l l' Hxy _ IH]; [reflexivity |].
  rewrite !fold_add_cons. lia.
Qed.

Lemma fold_add_bounded (l : list Z) (U : Z) :
  Forall (fun x => x <= U) l -> fold_left Z.add l 0 <= Z.of_nat (length l) * U.
Proof.
  induction 1 as [| x l Hx _ IH]; [simpl; lia |].
  rewrite fold_add_cons. cbn [length]. lia.
Qed.

Lemma fold_add_replicate (n : nat) : fold_left Z.add (replicate n 0) 0 = 0.
Proof.
  induction n as [| n IH]; [reflexivity |].
  cbn [replicate]. rewrite fold_add_cons, IH. reflexivity.
Qed.

Lemma Forall2_le_refl (l : list Z) : Forall2 Z.le l l.
Proof. induction l; constructor; [lia | assumption]. Qed.

Lemma Forall2_le_trans (l1 l2 l3 : list Z) :
  Forall2 Z.le l1 l2 -> Forall2 Z.le l2 l3 -> Forall2 Z.le l1 l3.
Proof.
  intros H. revert l3. induction H as [| x y l1 l2 Hxy _ IH]; intros l3 H3.
  - inversion H3. constructor.
  - inversion H3 as [| y' z l2' l3' Hyz H3' ]; subst. constructor; [lia | auto].
Qed.

Lemma Forall2_le_insert (l : list Z) (i : nat) (cur d : Z) :
  l !! i = Some cur -> cur <= d -> Forall2 Z.le l (<[i := d]> l).
Proof.
  revert i. induction l as [| x l IH]; intros i H Hd; [discriminate |].
  destruct i as [| i]; simpl in H |- *.
  - injection H as ->. constructor; [exact Hd | apply Forall2_le_refl].
  - constructor; [lia | apply (IH i H Hd)].
Qed.

(** ** The order on dimensions *)

Lemma dims_le_refl (d : Dimensions) : dims_le d d.
Proof.
  unfold dims_le. repeat split; try lia. intros p. apply Forall2_le_refl.
Qed.

Lemma dims_le_trans (d1 d2 d3 : Dimensions) :
  dims_le d1 d2 -> dims_le d2 d3 -> dims_le d1 d3.
Proof.
  intros (H1 & H2 & H3) (K1 & K2 & K3). unfold dims_le.
  split; [lia | split; [lia |]]. intros p.
  eapply Forall2_le_trans; [apply H3 | apply K3].
Qed.

Lemma total_le (d d' : Dimensions) : dims_le d d' -> total d <= total d'.
Proof.
  intros (H1 & H2 & H3). unfold total, dimAxes.
  pose proof (fold_add_le _ _ (H3 yLeft)).
  pose proof (fold_add_le _ _ (H3 yRight)).
  pose proof (fold_add_le _ _ (H3 xBottom)).
  pose proof (fold_add_le _ _ (H3 xTop)).
  unfold dimVec in *. lia.
Qed.
(** ** The configuration *)

(** *** The order of the doubles *)




Lemma nan_is_nan : is_nan nan = true.
Proof. reflexivity. Qed.



(** The ratio [setLegendPosition] stores for a position of the
    enumeration. *)
Lemma setLegendPosition_ratio (p : LegendPosition) (ratio : float) (d : PrivateData) :
  legendRatio (setLegendPosition (legendPosIndex p) ratio d) = storedRatio p ratio
  /\ legendPosition (setLegendPosition (legendPosIndex p) ratio d) = p
  /\ spacing (setLegendPosition (legendPosIndex p) ratio d) = spacing d.
Proof.
  unfold setLegendPosition, storedRatio. rewrite legendPosOfInt_index.
  destruct p; cbn; destruct (1 <? ratio)%float eqn:E1; cbn;
    try destruct (ratio <=? 0)%float; auto.
Qed.





Lemma activate_keeps (fuel : nat) (plot : QwtPlot) (plotRect : QRectF.t)
    (options : Z) (d d' : PrivateData) :
  activate fuel plot plotRect options d = Done d' ->
  layoutEngine d' = layoutEngine d
  /\ layoutData d' = QwtPlotLayoutData.init plot plotRect (layoutData d).
Proof.
  unfold activate. intros H.
  destruct (if negb (testFlag options IgnoreLegend) && hasLegend plot
            then _ else _) as [lr rect].
  inv_bind H.
  destruct (if dimTitle a >? 0 then _ else _) as [tr rect1].
  destruct (if dimFooter a >? 0 then _ else _) as [fr rect2].
  do 5 inv_bind H.
  destruct a4 as [cr srs]. injection H as <-. split; reflexivity.
Qed.




(** ** The snapshot *)

Lemma initAxes_counts (axes : list Axis) :
  forall slots n t0, length slots = length axes ->
    fst (snd (initAxes axes slots n t0)) = n + countVisible axes.
Proof.
  unfold countVisible.
  induction axes as [| a axes IH]; intros slots n t0 Hlen.
  - destruct slots; simpl; lia.
  - destruct slots as [| s slots]; [discriminate Hlen |].
    injection Hlen as Hlen. cbn [initAxes].
    destruct (axisVisible a) eqn:Ev.
    + specialize (IH slots (n + 1)
                     (if n =? 0 then
                        if sw_hasTicks (axisWidget a)
                        then (inject_Z (sw_margin (axisWidget a))
                              + sw_maxTickLength (axisWidget a))%Q
                        else inject_Z (sw_margin (axisWidget a))
                      else t0) Hlen).
      destruct (initAxes axes slots (n + 1) _) as [rest [n' t']].
      cbn [fst snd] in IH |- *. rewrite IH.
      cbn [List.filter]. rewrite Ev. cbn [length]. lia.
    + specialize (IH slots n t0 Hlen).
      destruct (initAxes axes slots n t0) as [rest [n' t']].
      cbn [fst snd] in IH |- *. rewrite IH.
      cbn [List.filter]. rewrite Ev. lia.
Qed.

Lemma length_resizeV {A : Type} (n : nat) (dflt : A) (l : list A) :
  length (resizeV n dflt l) = n.
Proof.
  unfold resizeV. rewrite length_app, length_take, length_replicate. lia.
Qed.

Lemma init_numVisible (plot : QwtPlot) (rect : QRectF.t) (old : QwtPlotLayoutData.t)
    (p : Position) :
  getAt (numVisibleScales (init plot rect old)) p
  = countVisible (getAt (plot_axes plot) p).
Proof.
  destruct p; cbn; unfold initPosition;
    rewrite initAxes_counts by apply length_resizeV; lia.
Qed.


(** Slot [i] of a position after [init] is [ScaleData::init] of the old
    slot, with the widget of the axis if the axis is visible and a null
    pointer if not. *)
Lemma initAxes_lookup (axes : list Axis) :
  forall slots n t0 i sd,
    fst (initAxes axes slots n t0) !! i = Some sd ->
    exists a s, axes !! i = Some a /\ slots !! i = Some s
      /\ sd = ScaleData_init s
                (if axisVisible a then Some (axisWidget a) else None).
Proof.
  induction axes as [| a axes IH]; intros slots n t0 i sd H.
  - destruct slots; discriminate H.
  - destruct slots as [| s slots]; [discriminate H |].
    cbn [initAxes] in H.
    destruct (axisVisible a) eqn:Ev.
    + destruct (initAxes axes slots (n + 1) _) as [rest acc] eqn:E.
      cbn [fst] in H. destruct i as [| i].
      * injection H as <-. exists a, s. rewrite Ev. auto.
      * eapply (IH slots (n + 1)). rewrite E. exact H.
    + destruct (initAxes axes slots n t0) as [rest acc] eqn:E.
      cbn [fst] in H. destruct i as [| i].
      * injection H as <-. exists a, s. rewrite Ev. auto.
      * eapply (IH slots n t0). rewrite E. exact H.
Qed.

Lemma initAxes_length (axes : list Axis) :
  forall slots n t0, length slots = length axes ->
    length (fst (initAxes axes slots n t0)) = length axes.
Proof.
  induction axes as [| a axes IH]; intros slots n t0 Hlen.
  - destruct slots; reflexivity.
  - destruct slots as [| s slots]; [discriminate Hlen |].
    injection Hlen as Hlen. cbn [initAxes].
    destruct (axisVisible a).
    + specialize (IH slots (n + 1)
        (if n =? 0 then
           if sw_hasTicks (axisWidget a)
           then (inject_Z (sw_margin (axisWidget a))
                 + sw_maxTickLength (axisWidget a))%Q
           else inject_Z (sw_margin (axisWidget a))
         else t0) Hlen).
      destruct (initAxes axes slots (n + 1) _) as [rest acc].
      cbn [fst length] in *. lia.
    + specialize (IH slots n t0 Hlen).
      destruct (initAxes axes slots n t0) as [rest acc].
      cbn [fst length] in *. lia.
Qed.

Lemma init_scaleData (plot : QwtPlot) (rect : QRectF.t)
    (old : QwtPlotLayoutData.t) (p : Position) :
  getAt (scaleData (init plot rect old)) p = fst (initPosition plot old p).
Proof. destruct p; reflexivity. Qed.

Lemma init_lookup (plot : QwtPlot) (rect : QRectF.t) (old : QwtPlotLayoutData.t)
    (p : Position) (i : nat) (sd : ScaleData) :
  getAt (scaleData (init plot rect old)) p !! i = Some sd ->
  exists a s, getAt (plot_axes plot) p !! i = Some a
    /\ sd = ScaleData_init s
              (if axisVisible a then Some (axisWidget a) else None).
Proof.
  rewrite init_scaleData. unfold initPosition. intros H.
  apply initAxes_lookup in H as (a & s & Ha & _ & ->). eauto.
Qed.

Lemma init_numAxes (plot : QwtPlot) (rect : QRectF.t) (old : QwtPlotLayoutData.t)
    (p : Position) :
  numAxes (init plot rect old) p = axesCount plot p.
Proof.
  unfold numAxes, axesCount. rewrite init_scaleData. unfold initPosition.
  apply initAxes_length, length_resizeV.
Qed.

Lemma init_wellFormed (plot : QwtPlot) (rect : QRectF.t)
    (old : QwtPlotLayoutData.t) :
  wellFormed (init plot rect old).
Proof.
  intros p i sd Hi Hv. apply init_lookup in Hi as (a & s & _ & ->).
  destruct (axisVisible a); [discriminate | discriminate Hv].
Qed.

(** ** One step of the solver *)

Lemma dimVec_raised (dims : Dimensions) (p q : Position) (i : nat) (d : Z) :
  dimVec (raised dims p i d) q =
    if Position_eq_dec p q then <[i := d]> (dimVec dims p) else dimVec dims q.
Proof.
  unfold raised, dimVec. cbn [dimAxisVector].
  destruct (Position_eq_dec p q) as [<- | Hne].
  - apply getAt_setAt_same.
  - apply getAt_setAt_other, Hne.
Qed.

Lemma raised_le (dims : Dimensions) (p : Position) (i : nat) (cur d : Z) :
  dimVec dims p !! i = Some cur -> cur <= d -> dims_le dims (raised dims p i d).
Proof.
  intros Hi Hd. unfold dims_le. cbn [raised dimTitle dimFooter].
  split; [lia | split; [lia |]]. intros q. rewrite dimVec_raised.
  destruct (Position_eq_dec p q) as [<- | _].
  - eapply Forall2_le_insert; eassumption.
  - apply Forall2_le_refl.
Qed.

Lemma dimAxes_raised (dims : Dimensions) (p q : Position) (i : nat) (cur d : Z) :
  dimVec dims p !! i = Some cur ->
  dimAxes (raised dims p i d) q =
    if Position_eq_dec p q then dimAxes dims p - cur + d else dimAxes dims q.
Proof.
  intros Hi. unfold dimAxes. fold (dimVec (raised dims p i d) q).
  rewrite dimVec_raised. destruct (Position_eq_dec p q) as [<- | _].
  - apply fold_add_insert, Hi.
  - reflexivity.
Qed.

Lemma total_raised (dims : Dimensions) (p : Position) (i : nat) (cur d : Z) :
  dimVec dims p !! i = Some cur ->
  total (raised dims p i d) = total dims - cur + d.
Proof.
  intros Hi. unfold total.
  rewrite !(dimAxes_raised dims p _ i cur d Hi). cbn [raised dimTitle dimFooter].
  destruct p; cbn; lia.
Qed.

Lemma sized_raised (layoutData : QwtPlotLayoutData.t) (dims : Dimensions)
    (p : Position) (i : nat) (d : Z) :
  sized layoutData dims -> sized layoutData (raised dims p i d).
Proof.
  intros H q. rewrite dimVec_raised.
  destruct (Position_eq_dec p q) as [<- | _]; [rewrite length_insert |]; apply H.
Qed.

(** What the body of the axis loop does: nothing, or it raises the
    dimension of a visible axis to the value measured and clears [done]. *)
Lemma axisStep_cases (e : QwtPlotLayoutEngine.t) (options : Z)
    (layoutData : QwtPlotLayoutData.t) (rect : QRectF.t) (p : Position)
    (i : nat) (sd : ScaleData) (dims : Dimensions) (done : bool) :
  (isVisible sd = true -> scaleWidget sd <> None) ->
  (i < length (dimVec dims p))%nat ->
  exists st', axisStep e options layoutData rect p i sd (dims, done) = Done st'
    /\ (st' = (dims, done)
        \/ exists d cur, isVisible sd = true
             /\ axisDim e options layoutData rect dims p sd = Done d
             /\ dimVec dims p !! i = Some cur /\ cur < d
             /\ st' = (raised dims p i d, false)).
Proof.
  intros Hsw Hi. unfold axisStep. cbn [fst].
  destruct (isVisible sd) eqn:Ev; [| eauto].
  destruct (scaleWidget sd) as [sw |] eqn:Esw; [| exfalso; apply Hsw; auto].
  assert (exists d, axisDim e options layoutData rect dims p sd = Done d) as [d Ed].
  { unfold axisDim. rewrite Esw. simpl. destruct (negb _); eauto. }
  rewrite Ed. simpl.
  destruct (lookup_lt_is_Some_2 _ _ Hi) as [cur Ecur].
  unfold dimAxis. fold (dimVec dims p). rewrite Ecur. simpl.
  destruct (d >? cur) eqn:Egt.
  - unfold setDimAxis. fold (dimVec dims p).
    apply Nat.ltb_lt in Hi. rewrite Hi. simpl.
    eexists. split; [reflexivity |]. right. exists d, cur.
    repeat split; try assumption. lia.
  - eauto.
Qed.

Lemma advance_refl (s : Dimensions * bool) : advance s s.
Proof.
  unfold advance. split; [apply dims_le_refl |]. split; [auto |].
  intros H1 H2. congruence.
Qed.

Lemma advance_trans (s1 s2 s3 : Dimensions * bool) :
  advance s1 s2 -> advance s2 s3 -> advance s1 s3.
Proof.
  intros (L1 & T1 & F1) (L2 & T2 & F2). unfold advance.
  split; [eapply dims_le_trans; eassumption |]. split.
  - intros H3. rewrite (T2 H3) in H3 |- *. apply T1, H3.
  - intros H3 H1. destruct (snd s2) eqn:E2.
    + specialize (T1 eq_refl). subst s2. apply F2; [assumption | reflexivity].
    + pose proof (F1 eq_refl H1). pose proof (total_le _ _ L2). lia.
Qed.

Lemma advance_raised (dims : Dimensions) (done : bool) (p : Position)
    (i : nat) (cur d : Z) :
  dimVec dims p !! i = Some cur -> cur < d ->
  advance (dims, done) (raised dims p i d, false).
Proof.
  intros Hi Hd. unfold advance. cbn [fst snd].
  split; [eapply raised_le; [eassumption | lia] |].
  split; [discriminate |]. intros _ _.
  rewrite (total_raised dims p i cur d Hi). lia.
Qed.

Lemma labelStep_advance (e : QwtPlotLayoutEngine.t) (options : Z)
    (layoutData : QwtPlotLayoutData.t) (rect : QRectF.t) (labelType : Label)
    (st : Dimensions * bool) :
  advance st (labelStep e options layoutData rect labelType st)
  /\ (forall p, dimVec (fst (labelStep e options layoutData rect labelType st)) p
                = dimVec (fst st) p).
Proof.
  destruct st as [dims done]. unfold labelStep. cbn [fst].
  destruct labelType.
  - destruct (negb (testFlag options IgnoreTitle));
      [| split; [apply advance_refl | reflexivity]].
    destruct (_ >? dimTitle dims) eqn:E;
      [| split; [apply advance_refl | reflexivity]].
    split; [| reflexivity]. unfold advance, dims_le, total, dimAxes. cbn.
    repeat split; try lia; try discriminate.
    intros q. apply Forall2_le_refl.
  - destruct (negb (testFlag options IgnoreFooter));
      [| split; [apply advance_refl | reflexivity]].
    destruct (_ >? dimFooter dims) eqn:E;
      [| split; [apply advance_refl | reflexivity]].
    split; [| reflexivity]. unfold advance, dims_le, total, dimAxes. cbn.
    repeat split; try lia; try discriminate.
    intros q. apply Forall2_le_refl.
Qed.

Lemma axesLoop_total (e : QwtPlotLayoutEngine.t) (options : Z)
    (layoutData : QwtPlotLayoutData.t) (rect : QRectF.t) (p : Position)
    (st : Dimensions * bool) :
  wellFormed layoutData -> sized layoutData (fst st) ->
  exists st', axesLoop e options layoutData rect p st = Done st'
    /\ sized layoutData (fst st') /\ advance st st'.
Proof.
  intros Hwf Hsz. unfold axesLoop.
  apply (forEachFrom_total _ (fun s => sized layoutData (fst s)) advance
           advance_refl advance_trans); [| exact Hsz].
  intros k sd [dims done] Hk Hs. cbn [fst] in Hs. rewrite Nat.add_0_l.
  destruct (axisStep_cases e options layoutData rect p k sd dims done)
    as (st' & E & Hcases).
  - intros Hv. eapply Hwf; eassumption.
  - rewrite (Hs p). unfold numAxes. eapply lookup_lt_Some, Hk.
  - exists st'. split; [exact E |].
    destruct Hcases as [-> | (d & cur & _ & _ & Hcur & Hlt & ->)].
    + split; [exact Hs | apply advance_refl].
    + split; [apply sized_raised, Hs | eapply advance_raised; eassumption].
Qed.

(** One pass of the loop returns; no dimension decreases in it; when it
    ends with [done] set nothing has changed, and otherwise the sum of
    the dimensions has increased. *)
Lemma layoutPass_total (e : QwtPlotLayoutEngine.t) (options : Z)
    (layoutData : QwtPlotLayoutData.t) (rect : QRectF.t) (dims : Dimensions) :
  wellFormed layoutData -> sized layoutData dims ->
  exists st', layoutPass e options layoutData rect dims = Done st'
    /\ sized layoutData (fst st') /\ advance (dims, true) st'.
Proof.
  intros Hwf Hsz. unfold layoutPass.
  pose proof (labelStep_advance e options layoutData rect Title (dims, true))
    as [A1 V1].
  set (s1 := labelStep e options layoutData rect Title (dims, true)) in *.
  pose proof (labelStep_advance e options layoutData rect Footer s1) as [A2 V2].
  set (s2 := labelStep e options layoutData rect Footer s1) in *.
  assert (Hs2 : sized layoutData (fst s2)).
  { intros q. rewrite V2, V1. apply Hsz. }
  destruct (axesLoop_total e options layoutData rect yLeft s2 Hwf Hs2)
    as (s3 & E3 & Hs3 & A3).
  destruct (axesLoop_total e options layoutData rect yRight s3 Hwf Hs3)
    as (s4 & E4 & Hs4 & A4).
  destruct (axesLoop_total e options layoutData rect xBottom s4 Hwf Hs4)
    as (s5 & E5 & Hs5 & A5).
  destruct (axesLoop_total e options layoutData rect xTop s5 Hwf Hs5)
    as (s6 & E6 & Hs6 & A6).
  exists s6. rewrite E3. simpl. rewrite E4. simpl. rewrite E5. simpl.
  split; [exact E6 |]. split; [exact Hs6 |].
  repeat (eapply advance_trans; [eassumption |]). apply advance_refl.
Qed.

Lemma axisStep_inv (e : QwtPlotLayoutEngine.t) (options : Z)
    (layoutData : QwtPlotLayoutData.t) (rect : QRectF.t) (p : Position)
    (i : nat) (sd : ScaleData) (dims : Dimensions) (done : bool)
    (st' : Dimensions * bool) :
  axisStep e options layoutData rect p i sd (dims, done) = Done st' ->
  st' = (dims, done)
  \/ exists d cur, isVisible sd = true
       /\ axisDim e options layoutData rect dims p sd = Done d
       /\ dimVec dims p !! i = Some cur /\ cur < d
       /\ st' = (raised dims p i d, false).
Proof.
  unfold axisStep. cbn [fst]. intros H.
  destruct (isVisible sd) eqn:Ev; [| injection H as <-; auto].
  inv_bind H. inv_bind H. unfold dimAxis in Ha0. fold (dimVec dims p) in Ha0.
  destruct (dimVec dims p !! i) as [cur |] eqn:Ecur; [| discriminate].
  injection Ha0 as <-.
  destruct (a >? cur) eqn:Egt; [| injection H as <-; auto].
  inv_bind H. injection H as <-. unfold setDimAxis in Ha0.
  fold (dimVec dims p) in Ha0.
  destruct (i <? length (dimVec dims p))%nat; [| discriminate].
  injection Ha0 as <-. right. exists a, cur. repeat split; auto. lia.
Qed.

(** A property of the dimensions that the three updates of the loop keep
    is kept by a pass. *)
Lemma layoutPass_keeps (P : Dimensions -> Prop) (e : QwtPlotLayoutEngine.t)
    (options : Z) (layoutData : QwtPlotLayoutData.t) (rect : QRectF.t) :
  (forall dims, P dims ->
     P (setDimTitle (heightForWidth Title layoutData options (QRectF.width rect)
                       (dimYAxes dims)) dims)) ->
  (forall dims, P dims ->
     P (setDimFooter (heightForWidth Footer layoutData options (QRectF.width rect)
                        (dimYAxes dims)) dims)) ->
  (forall dims p i sd d, P dims ->
     getAt (scaleData layoutData) p !! i = Some sd -> isVisible sd = true ->
     axisDim e options layoutData rect dims p sd = Done d ->
     P (raised dims p i d)) ->
  forall dims st', P dims ->
    layoutPass e options layoutData rect dims = Done st' -> P (fst st').
Proof.
  intros HT HF HA dims st' HP H. unfold layoutPass in H.
  assert (Hlabel : forall lt st, P (fst st) ->
            P (fst (labelStep e options layoutData rect lt st))).
  { intros lt [ds dn] Hds. unfold labelStep. cbn [fst] in *.
    destruct lt.
    - destruct (negb _); [| exact Hds]. destruct (_ >? _); [| exact Hds].
      apply HT, Hds.
    - destruct (negb _); [| exact Hds]. destruct (_ >? _); [| exact Hds].
      apply HF, Hds. }
  assert (Hloop : forall p st st1, P (fst st) ->
            axesLoop e options layoutData rect p st = Done st1 -> P (fst st1)).
  { intros p st st1 Hst E. unfold axesLoop in E.
    apply (forEachFrom_keeps _ (fun s => P (fst s)) _ 0%nat) in E; [exact E | | exact Hst].
    intros k sd [ds dn] s' Hk Hds Ebody. rewrite Nat.add_0_l in Ebody.
    apply axisStep_inv in Ebody as [-> | (d & cur & Hv & Ed & _ & _ & ->)];
      [exact Hds |].
    cbn [fst] in *. eapply HA; eassumption. }
  do 3 inv_bind H.
  eapply Hloop; [| exact H]. eapply Hloop; [| exact Ha1].
  eapply Hloop; [| exact Ha0]. eapply Hloop; [| exact Ha].
  apply Hlabel, Hlabel. exact HP.
Qed.

Lemma dimBound_nonneg (B : Z) (layoutData : QwtPlotLayoutData.t) :
  0 <= dimBound B layoutData.
Proof. unfold dimBound. lia. Qed.

Lemma heightForWidth_bounded (B : Z) (layoutData : QwtPlotLayoutData.t)
    (labelType : Label) (options : Z) (width : Q) (axesWidth : Z) :
  measuresBounded B layoutData ->
  heightForWidth labelType layoutData options width axesWidth
  <= dimBound B layoutData.
Proof.
  intros (HT & HF & _). unfold heightForWidth, dimBound.
  destruct (text_isEmpty _); [lia |].
  set (w := if negb (hasSymmetricYAxes layoutData) then _ else _).
  assert (qCeil (text_heightForWidth (text (labelData layoutData labelType)) w) <= B).
  { unfold qCeil. rewrite <- (Qceiling_Z B). apply Qceiling_resp_le.
    destruct labelType; [apply HT | apply HF]. }
  destruct labelType; cbn [labelData] in *;
    destruct (negb (testFlag options IgnoreFrames)); lia.
Qed.

Lemma axisDim_bounded (B : Z) (e : QwtPlotLayoutEngine.t) (options : Z)
    (layoutData : QwtPlotLayoutData.t) (rect : QRectF.t) (dims : Dimensions)
    (p : Position) (i : nat) (sd : ScaleData) (d : Z) :
  measuresBounded B layoutData ->
  getAt (scaleData layoutData) p !! i = Some sd -> isVisible sd = true ->
  axisDim e options layoutData rect dims p sd = Done d ->
  d <= dimBound B layoutData.
Proof.
  intros (_ & _ & HA) Hi Hv H. destruct (HA p i sd Hi Hv) as [H1 H2].
  unfold axisDim in H. inv_bind H. destruct (scaleWidget sd) as [sw |] eqn:Esw;
    [| discriminate]. injection Ha as <-.
  specialize (H2 sw eq_refl). unfold dimBound.
  destruct (negb _); injection H as <-; [specialize (H2 (qFloor
    (axisLength e options layoutData rect dims p sd))) |]; lia.
Qed.

Lemma layoutPass_bounded (B : Z) (e : QwtPlotLayoutEngine.t) (options : Z)
    (layoutData : QwtPlotLayoutData.t) (rect : QRectF.t) (dims : Dimensions)
    (st' : Dimensions * bool) :
  measuresBounded B layoutData ->
  bounded (dimBound B layoutData) dims ->
  layoutPass e options layoutData rect dims = Done st' ->
  bounded (dimBound B layoutData) (fst st').
Proof.
  intros HB. apply layoutPass_keeps.
  - intros ds (H1 & H2 & H3). unfold bounded. cbn.
    split; [apply heightForWidth_bounded, HB | auto].
  - intros ds (H1 & H2 & H3). unfold bounded. cbn.
    split; [exact H1 |]. split; [apply heightForWidth_bounded, HB | auto].
  - intros ds p i sd d (H1 & H2 & H3) Hi Hv Hd. unfold bounded.
    cbn [raised dimTitle dimFooter]. split; [exact H1 |]. split; [exact H2 |].
    intros q. rewrite dimVec_raised. destruct (Position_eq_dec p q) as [<- | _];
      [| apply H3].
    apply Forall_insert; [apply H3 |]. eapply axisDim_bounded; eassumption.
Qed.


Lemma total_bounded (U : Z) (layoutData : QwtPlotLayoutData.t) (dims : Dimensions) :
  0 <= U -> sized layoutData dims -> bounded U dims ->
  total dims <= (numSlots layoutData + 2) * U.
Proof.
  intros HU Hsz (H1 & H2 & H3). unfold total, dimAxes, numSlots.
  pose proof (fold_add_bounded _ U (H3 yLeft)) as Hl.
  pose proof (fold_add_bounded _ U (H3 yRight)) as Hr.
  pose proof (fold_add_bounded _ U (H3 xBottom)) as Hb.
  pose proof (fold_add_bounded _ U (H3 xTop)) as Ht.
  rewrite (Hsz yLeft) in Hl. rewrite (Hsz yRight) in Hr.
  rewrite (Hsz xBottom) in Hb. rewrite (Hsz xTop) in Ht.
  unfold dimVec in *. nia.
Qed.

(** ** The loop *)

(** With fuel for more passes than the sum of the dimensions can still
    grow, the loop returns a fixed point of the pass. *)
Lemma layoutLoop_terminates (B : Z) (e : QwtPlotLayoutEngine.t) (options : Z)
    (layoutData : QwtPlotLayoutData.t) (rect : QRectF.t) :
  wellFormed layoutData -> measuresBounded B layoutData ->
  forall (fuel : nat) (dims : Dimensions),
    sized layoutData dims -> bounded (dimBound B layoutData) dims ->
    (numSlots layoutData + 2) * dimBound B layoutData - total dims < Z.of_nat fuel ->
    exists dims', layoutLoop fuel e options layoutData rect dims = Done dims'
      /\ sized layoutData dims' /\ bounded (dimBound B layoutData) dims'
      /\ dims_le dims dims'
      /\ layoutPass e options layoutData rect dims' = Done (dims', true).
Proof.
  intros Hwf HB. induction fuel as [| fuel IH]; intros dims Hsz Hbd Hfuel.
  - pose proof (total_bounded _ _ _ (dimBound_nonneg B layoutData) Hsz Hbd). lia.
  - destruct (layoutPass_total e options layoutData rect dims Hwf Hsz)
      as ([dims1 done] & E & Hsz1 & (Hle & Htrue & Hfalse)).
    pose proof (layoutPass_bounded B e options layoutData rect dims _ HB Hbd E)
      as Hbd1.
    cbn [fst snd] in *. cbn [layoutLoop]. rewrite E. simpl.
    destruct done.
    + injection (Htrue eq_refl) as ->. exists dims.
      split; [reflexivity |]. split; [exact Hsz |]. split; [exact Hbd |].
      split; [apply dims_le_refl | exact E].
    + specialize (Hfalse eq_refl eq_refl).
      destruct (IH dims1 Hsz1 Hbd1) as (dims' & E' & ? & ? & Hle' & ?); [lia |].
      exists dims'. split; [exact E' |]. split; [assumption |].
      split; [assumption |].
      split; [eapply dims_le_trans; eassumption | assumption].
Qed.

(** More fuel does not change the result. *)
Lemma layoutLoop_more_fuel (e : QwtPlotLayoutEngine.t) (options : Z)
    (layoutData : QwtPlotLayoutData.t) (rect : QRectF.t) :
  forall (fuel fuel' : nat) (dims dims' : Dimensions),
    (fuel <= fuel')%nat ->
    layoutLoop fuel e options layoutData rect dims = Done dims' ->
    layoutLoop fuel' e options layoutData rect dims = Done dims'.
Proof.
  induction fuel as [| fuel IH]; intros fuel' dims dims' Hle H; [discriminate |].
  destruct fuel' as [| fuel']; [lia |].
  cbn [layoutLoop] in H |- *. inv_bind H. rewrite Ha. simpl.
  destruct a as [d1 done]. destruct done; [exact H |].
  apply (IH fuel'); [lia | exact H].
Qed.

Lemma newDimensions_sized (layoutData : QwtPlotLayoutData.t) :
  sized layoutData (newDimensions layoutData).
Proof. intros p. destruct p; cbn; apply length_replicate. Qed.

Lemma newDimensions_total (layoutData : QwtPlotLayoutData.t) :
  total (newDimensions layoutData) = 0.
Proof.
  unfold total, dimAxes, newDimensions. cbn. rewrite !fold_add_replicate.
  reflexivity.
Qed.

Lemma newDimensions_bounded (U : Z) (layoutData : QwtPlotLayoutData.t) :
  0 <= U -> bounded U (newDimensions layoutData).
Proof.
  intros HU. unfold bounded. cbn. split; [exact HU |]. split; [exact HU |].
  intros p. destruct p; cbn; apply Forall_replicate; exact HU.
Qed.


Lemma layoutLoop_monotone (e : QwtPlotLayoutEngine.t) (options : Z)
    (layoutData : QwtPlotLayoutData.t) (rect : QRectF.t) :
  wellFormed layoutData ->
  forall (fuel : nat) (dims dims' : Dimensions),
    sized layoutData dims ->
    layoutLoop fuel e options layoutData rect dims = Done dims' ->
    dims_le dims dims' /\ sized layoutData dims'
    /\ layoutPass e options layoutData rect dims' = Done (dims', true).
Proof.
  intros Hwf. induction fuel as [| fuel IH]; intros dims dims' Hsz H;
    [discriminate |].
  destruct (layoutPass_total e options layoutData rect dims Hwf Hsz)
    as ([dims1 done] & E & Hsz1 & (Hle & Htrue & _)).
  cbn [layoutLoop] in H. rewrite E in H. simpl in H. cbn [fst snd] in *.
  destruct done.
  - injection H as <-. injection (Htrue eq_refl) as ->.
    split; [apply dims_le_refl |]. split; [exact Hsz | exact E].
  - destruct (IH dims1 dims' Hsz1 H) as (Hle' & ? & ?).
    split; [eapply dims_le_trans; eassumption |]. split; assumption.
Qed.


Lemma bind_Done_l {A B : Type} (a : A) (f : A -> outcome B) :
  (Done a ≫= f) = f a.
Proof. reflexivity. Qed.

Lemma keepsInvalid_refl (st : AlignState) : keepsInvalid st st.
Proof. split; auto. Qed.

Lemma keepsInvalid_trans (s1 s2 s3 : AlignState) :
  keepsInvalid s1 s2 -> keepsInvalid s2 s3 -> keepsInvalid s1 s3.
Proof.
  intros [L1 K1] [L2 K2]. split.
  - intros p. rewrite L2. apply L1.
  - intros p i r Hi Hr. apply K2; [apply K1 |]; assumption.
Qed.

Lemma keepsInvalid_store (canvasRect canvasRect' : QRectF.t)
    (scaleRect : PosArray (list QRectF.t)) (p : Position) (i : nat)
    (r r' : QRectF.t) :
  getAt scaleRect p !! i = Some r -> QRectF.isValid r = true ->
  keepsInvalid (canvasRect, scaleRect)
               (canvasRect', storeScaleRect scaleRect p i r').
Proof.
  intros Hi Hr. unfold storeScaleRect. split; cbn [snd].
  - intros q. destruct (Position_eq_dec p q) as [<- | Hne].
    + rewrite getAt_setAt_same. apply length_insert.
    + rewrite getAt_setAt_other by exact Hne. reflexivity.
  - intros q j s Hj Hs. destruct (Position_eq_dec p q) as [<- | Hne].
    + rewrite getAt_setAt_same. destruct (Nat.eq_dec i j) as [<- | Hij].
      * congruence.
      * rewrite list_lookup_insert_ne by exact Hij. exact Hj.
    + rewrite getAt_setAt_other by exact Hne. exact Hj.
Qed.

(** A step of either pair of loops leaves the state alone or stores a
    rectangle where a valid one was. *)
Lemma alignStep_inv (e : QwtPlotLayoutEngine.t) (options : Z)
    (layoutData : QwtPlotLayoutData.t) (p : Position) (i : nat)
    (sd : ScaleData) (st st' : AlignState) :
  alignStep e options layoutData p i sd st = Done st' ->
  st' = st
  \/ exists r r' c', getAt (snd st) p !! i = Some r /\ QRectF.isValid r = true
       /\ st' = (c', storeScaleRect (snd st) p i r').
Proof.
  destruct st as [c sr]. unfold alignStep. intros H. inv_bind H.
  unfold scaleRectAt in Ha. destruct (getAt sr p !! i) as [r |] eqn:Er;
    [| discriminate]. injection Ha as <-.
  destruct (QRectF.isValid r) eqn:Ev; cbn [negb] in H;
    [| injection H as <-; auto].
  inv_bind H. destruct a as [c' r']. injection H as <-.
  right. exists r, r', c'. auto.
Qed.

Lemma realignStep_inv (e : QwtPlotLayoutEngine.t) (options : Z)
    (layoutData : QwtPlotLayoutData.t) (p : Position) (i : nat)
    (sd : ScaleData) (st st' : AlignState) :
  realignStep e options layoutData p i sd st = Done st' ->
  st' = st
  \/ exists r r' c', getAt (snd st) p !! i = Some r /\ QRectF.isValid r = true
       /\ st' = (c', storeScaleRect (snd st) p i r').
Proof.
  destruct st as [c sr]. unfold realignStep. intros H. inv_bind H.
  unfold scaleRectAt in Ha. destruct (getAt sr p !! i) as [r |] eqn:Er;
    [| discriminate]. injection Ha as <-.
  destruct (QRectF.isValid r) eqn:Ev; cbn [negb] in H;
    [| injection H as <-; auto].
  injection H as <-. right. eexists r, _, c. auto.
Qed.

Lemma overAllAxes_keeps (layoutData : QwtPlotLayoutData.t)
    (body : Position -> nat -> ScaleData -> AlignState -> outcome AlignState)
    (Inv : AlignState -> Prop) :
  (forall p i sd s s', getAt (scaleData layoutData) p !! i = Some sd ->
     Inv s -> body p i sd s = Done s' -> Inv s') ->
  forall st st', Inv st -> overAllAxes layoutData body st = Done st' -> Inv st'.
Proof.
  intros Hbody st st' Hst H. unfold overAllAxes in H.
  assert (Hloop : forall p s s', Inv s ->
            forEachFrom (body p) 0 (getAt (scaleData layoutData) p) s = Done s' ->
            Inv s').
  { intros p s s' Hs E.
    apply (forEachFrom_keeps _ Inv _ 0%nat) in E; [exact E | | exact Hs].
    intros k sd s1 s2 Hk Hs1 Eb. rewrite Nat.add_0_l in Eb.
    eapply Hbody; eassumption. }
  do 3 inv_bind H.
  eapply Hloop; [| exact H]. eapply Hloop; [| exact Ha1].
  eapply Hloop; [| exact Ha0]. eapply Hloop; [| exact Ha]. exact Hst.
Qed.

Lemma alignScales_keepsInvalid (e : QwtPlotLayoutEngine.t) (options : Z)
    (layoutData : QwtPlotLayoutData.t) (st st' : AlignState) :
  alignScales e options layoutData st = Done st' -> keepsInvalid st st'.
Proof.
  unfold alignScales. intros H. inv_bind H.
  assert (H1 : keepsInvalid st a).
  { apply (overAllAxes_keeps layoutData _ (keepsInvalid st)) in Ha;
      [exact Ha | | apply keepsInvalid_refl].
    intros p i sd s s' _ Hs E. eapply keepsInvalid_trans; [exact Hs |].
    apply alignStep_inv in E as [-> | (r & r' & c' & Hr & Hv & ->)];
      [apply keepsInvalid_refl |].
    destruct s as [c sr]. eapply keepsInvalid_store; eassumption. }
  apply (overAllAxes_keeps layoutData _ (keepsInvalid st)) in H;
    [exact H | | exact H1].
  intros p i sd s s' _ Hs E. eapply keepsInvalid_trans; [exact Hs |].
  apply realignStep_inv in E as [-> | (r & r' & c' & Hr & Hv & ->)];
    [apply keepsInvalid_refl |].
  destruct s as [c sr]. eapply keepsInvalid_store; eassumption.
Qed.

(** Without a valid rectangle [alignScales] changes nothing. *)
Lemma overAllAxes_total (layoutData : QwtPlotLayoutData.t)
    (body : Position -> nat -> ScaleData -> AlignState -> outcome AlignState)
    (Inv : AlignState -> Prop) :
  (forall p i sd s, getAt (scaleData layoutData) p !! i = Some sd ->
     Inv s -> exists s', body p i sd s = Done s' /\ Inv s') ->
  forall st, Inv st ->
    exists st', overAllAxes layoutData body st = Done st' /\ Inv st'.
Proof.
  intros Hbody st Hst. unfold overAllAxes.
  assert (Hloop : forall p s, Inv s ->
            exists s', forEachFrom (body p) 0 (getAt (scaleData layoutData) p) s
                       = Done s' /\ Inv s').
  { intros p s Hs.
    destruct (forEachFrom_total (body p) Inv (fun _ _ => True)
                (fun _ => I) (fun _ _ _ _ _ => I)
                (getAt (scaleData layoutData) p) 0%nat) with (s := s)
      as (s' & E & Hs' & _); [| exact Hs | eauto].
    intros k sd s1 Hk Hs1. rewrite Nat.add_0_l.
    destruct (Hbody p k sd s1 Hk Hs1) as (s2 & E & Hs2). eauto. }
  destruct (Hloop yLeft st Hst) as (s1 & E1 & H1).
  destruct (Hloop yRight s1 H1) as (s2 & E2 & H2).
  destruct (Hloop xBottom s2 H2) as (s3 & E3 & H3).
  destruct (Hloop xTop s3 H3) as (s4 & E4 & H4).
  exists s4. rewrite E1, bind_Done_l, E2, bind_Done_l, E3, bind_Done_l. auto.
Qed.

Lemma alignScales_nothing_valid (e : QwtPlotLayoutEngine.t) (options : Z)
    (layoutData : QwtPlotLayoutData.t) (st : AlignState) :
  (forall p, length (getAt (snd st) p) = numAxes layoutData p) ->
  (forall p i r, getAt (snd st) p !! i = Some r -> QRectF.isValid r = false) ->
  alignScales e options layoutData st = Done st.
Proof.
  intros Hlen Hinv. unfold alignScales.
  assert (Hstep : forall body,
            (forall p i sd, getAt (scaleData layoutData) p !! i = Some sd ->
               body p i sd st = Done st) ->
            overAllAxes layoutData body st = Done st).
  { intros body Hb.
    destruct (overAllAxes_total layoutData body (fun s => s = st)) with (st := st)
      as (s' & E & ->); [| reflexivity | exact E].
    intros p i sd s Hi ->. exists st. split; [apply Hb with (1 := Hi) | reflexivity]. }
  assert (Hread : forall p i sd, getAt (scaleData layoutData) p !! i = Some sd ->
            exists r, getAt (snd st) p !! i = Some r /\ QRectF.isValid r = false).
  { intros p i sd Hi. apply lookup_lt_Some in Hi.
    destruct (lookup_lt_is_Some_2 (getAt (snd st) p) i) as [r Hr].
    - rewrite Hlen. exact Hi.
    - exists r. split; [exact Hr | eapply Hinv, Hr]. }
  rewrite Hstep.
  - rewrite bind_Done_l. apply Hstep. intros p i sd Hi.
    destruct (Hread p i sd Hi) as (r & Hr & Hv). destruct st as [c sr].
    unfold realignStep, scaleRectAt. cbn [snd] in Hr. rewrite Hr. simpl.
    rewrite Hv. reflexivity.
  - intros p i sd Hi.
    destruct (Hread p i sd Hi) as (r & Hr & Hv). destruct st as [c sr].
    unfold alignStep, scaleRectAt. cbn [snd] in Hr. rewrite Hr. simpl.
    rewrite Hv. reflexivity.
Qed.
(** ** [invalidate], the resizing of [update] and the scale rectangles *)

Lemma resizeV_same {A : Type} (dflt : A) (l : list A) :
  resizeV (length l) dflt l = l.
Proof.
  unfold resizeV. rewrite firstn_all, Nat.sub_diag. apply app_nil_r.
Qed.

Lemma resizeV_null (n : nat) (l : list QRectF.t) :
  resizeV n QRectF.null (<[0%nat := QRectF.null]> (resizeV 1 QRectF.null l))
  = replicate n QRectF.null.
Proof.
  assert (E : <[0%nat := QRectF.null]> (resizeV 1 QRectF.null l) = [QRectF.null]).
  { destruct l as [| x l]; [reflexivity |]. unfold resizeV. cbn.
    rewrite take_0. reflexivity. }
  rewrite E. destruct n as [| n]; [reflexivity |].
  unfold resizeV. cbn. rewrite take_nil, Nat.sub_0_r. reflexivity.
Qed.

Lemma reset_fields (plot : QwtPlot) (d : PrivateData) :
  let d0 := resizeScaleRects plot (invalidate d) in
  titleRect d0 = QRectF.null /\ footerRect d0 = QRectF.null
  /\ legendRect d0 = QRectF.null /\ canvasRect d0 = QRectF.null
  /\ layoutData d0 = layoutData d /\ layoutEngine d0 = layoutEngine d
  /\ forall p, getAt (scaleRects d0) p = replicate (axesCount plot p) QRectF.null.
Proof.
  cbv zeta. repeat split. intros p.
  destruct p; cbn [resizeScaleRects withScaleRects scaleRects invalidate getAt
                   atLeft atRight atBottom atTop];
    apply resizeV_null.
Qed.

Lemma null_isEmpty : QRectF.isEmpty QRectF.null = true.
Proof. reflexivity. Qed.

(** The rectangles [layoutScales] returns: an axis whose dimension is
    zero keeps its rectangle, another one is placed at the offset that is
    the sum of the dimensions of the axes before it. *)
Lemma layoutScales_lookup (canvasRect : QRectF.t) (dims : Dimensions)
    (p : Position) (rects : list QRectF.t) :
  forall (i : nat) (pos : Z) (rects' : list QRectF.t),
    layoutScales canvasRect dims p i rects pos = Done rects' ->
    length rects' = length rects
    /\ forall j r, rects !! j = Some r ->
         exists dim, dimVec dims p !! (i + j)%nat = Some dim
           /\ rects' !! j =
                Some (if dim =? 0 then r
                      else placeScale canvasRect p
                             (pos + fold_left Z.add
                                      (take j (drop i (dimVec dims p))) 0)
                             dim).
Proof.
  induction rects as [| r0 rects IH]; intros i pos rects' H.
  - injection H as <-. split; [reflexivity |]. intros j r Hj. discriminate Hj.
  - cbn [layoutScales] in H. inv_bind H. unfold dimAxis in Ha.
    fold (dimVec dims p) in Ha.
    destruct (dimVec dims p !! i) as [dim |] eqn:Edim; [| discriminate].
    injection Ha as <-.
    assert (Hrest : exists rest,
              layoutScales canvasRect dims p (S i) rects (pos + dim) = Done rest
              /\ rects' = (if dim =? 0 then r0
                           else placeScale canvasRect p pos dim) :: rest).
    { destruct (Z.eqb_spec dim 0) as [-> | Hne]; cbn [negb] in H;
        inv_bind H; injection H as <-; exists a; split;
        try reflexivity; try assumption.
      rewrite Z.add_0_r. exact Ha. }
    destruct Hrest as (rest & Erest & ->).
    destruct (IH (S i) (pos + dim) rest Erest) as [Hlen Hlook].
    split; [cbn [length]; lia |].
    intros j r Hj. destruct j as [| j].
    + injection Hj as <-. exists dim. rewrite Nat.add_0_r.
      split; [exact Edim |]. cbn. rewrite Z.add_0_r. reflexivity.
    + destruct (Hlook j r Hj) as (dimj & Ej & Erj).
      exists dimj. replace (i + S j)%nat with (S i + j)%nat by lia.
      split; [exact Ej |].
      match goal with
      | |- (?x :: rest) !! S j = _ => change ((x :: rest) !! S j) with (rest !! j)
      end.
      rewrite Erj, (drop_S _ _ _ Edim).
      change (take (S j) (dim :: drop (S i) (dimVec dims p)))
        with (dim :: take j (drop (S i) (dimVec dims p))).
      rewrite fold_add_cons, Z.add_assoc. reflexivity.
Qed.

Lemma layoutScales_total (canvasRect : QRectF.t) (dims : Dimensions)
    (p : Position) (rects : list QRectF.t) :
  forall (i : nat) (pos : Z),
    (i + length rects <= length (dimVec dims p))%nat ->
    exists rects', layoutScales canvasRect dims p i rects pos = Done rects'.
Proof.
  induction rects as [| r0 rects IH]; intros i pos Hlen; [eexists; reflexivity |].
  cbn [length] in Hlen. cbn [layoutScales]. unfold dimAxis.
  fold (dimVec dims p).
  destruct (lookup_lt_is_Some_2 (dimVec dims p) i) as [dim ->]; [lia |].
  cbn [fromOption]. rewrite bind_Done_l.
  destruct (negb (dim =? 0)).
  - destruct (IH (S i) (pos + dim)) as [rest ->]; [lia |]. eexists; reflexivity.
  - destruct (IH (S i) pos) as [rest ->]; [lia |]. eexists; reflexivity.
Qed.

(** The result of [layoutScales] depends on the old rectangles of the
    axes of dimension zero only. *)
Lemma layoutScales_ext (canvasRect : QRectF.t) (dims : Dimensions)
    (p : Position) (rects1 rects2 out : list QRectF.t) :
  length rects1 = length rects2 ->
  (forall j, dimVec dims p !! j = Some 0 -> rects1 !! j = rects2 !! j) ->
  layoutScales canvasRect dims p 0 rects1 0 = Done out ->
  layoutScales canvasRect dims p 0 rects2 0 = Done out.
Proof.
  intros Hlen Hagree H1.
  destruct (layoutScales_lookup _ _ _ _ _ _ _ H1) as [Hl1 Hk1].
  destruct (layoutScales_total canvasRect dims p rects2 0%nat 0) as [out2 H2].
  { rewrite <- Hlen. cbn [Nat.add].
    destruct (Nat.eq_dec (length rects1) 0%nat) as [-> | Hne]; [lia |].
    destruct (lookup_lt_is_Some_2 rects1 (length rects1 - 1)) as [r Hr]; [lia |].
    destruct (Hk1 _ r Hr) as (dim & Hd & _).
    apply lookup_lt_Some in Hd. lia. }
  rewrite H2. f_equal.
  destruct (layoutScales_lookup _ _ _ _ _ _ _ H2) as [Hl2 Hk2].
  apply list_eq. intros j.
  destruct (rects1 !! j) as [r1 |] eqn:E1.
  - destruct (lookup_lt_is_Some_2 rects2 j) as [r2 E2].
    { rewrite <- Hlen. eapply lookup_lt_Some, E1. }
    destruct (Hk1 j r1 E1) as (dim & Hd & ->).
    destruct (Hk2 j r2 E2) as (dim' & Hd' & ->).
    cbn in Hd, Hd'. rewrite Hd in Hd'. injection Hd' as <-.
    destruct (Z.eqb_spec dim 0) as [-> | _]; [| reflexivity].
    rewrite <- E1, <- E2. symmetry. apply Hagree, Hd.
  - apply lookup_ge_None in E1.
    rewrite (lookup_ge_None_2 out2 j) by lia.
    rewrite (lookup_ge_None_2 out j) by lia. reflexivity.
Qed.
(** ** The pass without content *)

Lemma Qplus_zero (x : Q) : (x + inject_Z 0)%Q = x.
Proof.
  destruct x as [n d]. unfold Qplus, inject_Z. cbn [Qnum Qden].
  f_equal; [lia | apply Pos.mul_1_r].
Qed.

Lemma Qminus_zero (x : Q) : (x - inject_Z 0)%Q = x.
Proof. unfold Qminus. apply Qplus_zero. Qed.

Lemma innerRect_zero (dims : Dimensions) (rect : QRectF.t) :
  (forall p, dimAxes dims p = 0) -> innerRect dims rect = rect.
Proof.
  intros H. unfold innerRect, dimYAxes, dimXAxes. rewrite !H. cbn [Z.add].
  unfold QRectF.x, QRectF.y, QRectF.width, QRectF.height.
  rewrite !Qplus_zero, !Qminus_zero. destruct rect; reflexivity.
Qed.

Lemma newDimensions_dimAxes (layoutData : QwtPlotLayoutData.t) (p : Position) :
  dimAxes (newDimensions layoutData) p = 0.
Proof. unfold dimAxes. destruct p; cbn; apply fold_add_replicate. Qed.

Lemma axesLoop_invisible (e : QwtPlotLayoutEngine.t) (options : Z)
    (layoutData : QwtPlotLayoutData.t) (rect : QRectF.t) (p : Position)
    (st : Dimensions * bool) :
  (forall i sd, getAt (scaleData layoutData) p !! i = Some sd ->
     isVisible sd = false) ->
  axesLoop e options layoutData rect p st = Done st.
Proof.
  intros Hinv. unfold axesLoop.
  destruct (forEachFrom_total (axisStep e options layoutData rect p)
              (fun s => s = st) (fun _ _ => True) (fun _ => I)
              (fun _ _ _ _ _ => I) (getAt (scaleData layoutData) p) 0%nat)
    with (s := st) as (s' & E & -> & _); [| reflexivity | exact E].
  intros k sd s Hk ->. exists st. unfold axisStep.
  rewrite (Hinv k sd Hk). auto.
Qed.

Lemma layoutScales_zero (canvasRect : QRectF.t) (dims : Dimensions)
    (p : Position) (rects : list QRectF.t) :
  forall (i : nat) (pos : Z),
    (forall j, (j < length rects)%nat -> dimVec dims p !! (i + j)%nat = Some 0) ->
    layoutScales canvasRect dims p i rects pos = Done rects.
Proof.
  induction rects as [| r rects IH]; intros i pos H; [reflexivity |].
  cbn [layoutScales]. unfold dimAxis. fold (dimVec dims p).
  pose proof (H 0%nat) as H0. rewrite Nat.add_0_r in H0.
  rewrite H0 by (cbn; lia). cbn [fromOption]. rewrite bind_Done_l.
  cbn [Z.eqb negb]. rewrite IH; [reflexivity |].
  intros j Hj. replace (S i + j)%nat with (i + S j)%nat by lia.
  apply H. cbn. lia.
Qed.

(** Without title, footer, legend and visible axes the pass takes one
    turn of the loop and gives the whole rectangle to the canvas. *)
Lemma update_without_content (fuel : nat) (plot : QwtPlot) (plotRect : QRectF.t)
    (options : Z) (d : PrivateData) :
  noTitle plot -> noFooter plot ->
  testFlag options IgnoreLegend = true \/ hasLegend plot = false ->
  noVisibleAxis plot ->
  update (S fuel) plot plotRect options d =
    Done (mkData QRectF.null QRectF.null QRectF.null
            (mkPosArray (replicate (axesCount plot yLeft) QRectF.null)
                        (replicate (axesCount plot yRight) QRectF.null)
                        (replicate (axesCount plot xBottom) QRectF.null)
                        (replicate (axesCount plot xTop) QRectF.null))
            plotRect (init plot plotRect (layoutData d)) (layoutEngine d)).
Proof.
  intros HT HF HL HA. unfold update.
  destruct (reset_fields plot d) as (Et & Ef & El & _ & Eld & Ee & Esr).
  set (d0 := resizeScaleRects plot (invalidate d)) in *.
  unfold activate. rewrite Eld, Ee, Et, Ef, El.
  set (ld := init plot plotRect (layoutData d)).
  assert (Hleg : (negb (testFlag options IgnoreLegend) && hasLegend plot) = false).
  { destruct HL as [-> | ->]; [reflexivity | apply andb_false_r]. }
  rewrite Hleg.
  assert (Hinv : forall p i sd, getAt (scaleData ld) p !! i = Some sd ->
            isVisible sd = false).
  { intros p i sd Hi. apply init_lookup in Hi as (a & s & Ha & ->).
    rewrite (HA p i a Ha). reflexivity. }
  assert (Hpass : layoutPass (layoutEngine d) options ld plotRect (newDimensions ld)
                  = Done (newDimensions ld, true)).
  { unfold layoutPass.
    assert (Hlab : forall lt, labelStep (layoutEngine d) options ld plotRect lt
                     (newDimensions ld, true) = (newDimensions ld, true)).
    { assert (HT' : text_isEmpty (text (titleData ld)) = true) by exact HT.
      assert (HF' : text_isEmpty (text (footerData ld)) = true) by exact HF.
      intros lt. unfold labelStep, heightForWidth. cbn [fst labelData].
      destruct lt; [rewrite HT' | rewrite HF'];
        cbn [newDimensions dimTitle dimFooter Z.gtb Z.compare];
        match goal with
        | |- (if negb ?b then _ else _) = _ => destruct (negb b)
        end; reflexivity. }
    rewrite !Hlab.
    do 3 (rewrite axesLoop_invisible by (intros; eapply Hinv; eassumption);
          rewrite bind_Done_l).
    apply axesLoop_invisible. intros; eapply Hinv; eassumption. }
  assert (Hdims : layoutDimensions (S fuel) (layoutEngine d) options ld plotRect
                  = Done (newDimensions ld)).
  { unfold layoutDimensions. cbn [layoutLoop]. rewrite Hpass. reflexivity. }
  rewrite Hdims, bind_Done_l.
  change (dimTitle (newDimensions ld)) with 0.
  change (dimFooter (newDimensions ld)) with 0.
  cbn [Z.gtb Z.compare].
  rewrite innerRect_zero by apply newDimensions_dimAxes.
  assert (Hsc : forall p, layoutScales plotRect (newDimensions ld) p 0
                            (getAt (scaleRects d0) p) 0
                          = Done (replicate (axesCount plot p) QRectF.null)).
  { intros p. rewrite Esr. apply layoutScales_zero. intros j Hj.
    rewrite length_replicate in Hj.
    assert (dimVec (newDimensions ld) p = replicate (axesCount plot p) 0) as ->.
    { unfold ld. destruct p; cbn [dimVec newDimensions dimAxisVector getAt
        atLeft atRight atBottom atTop]; rewrite init_numAxes; reflexivity. }
    apply lookup_replicate_2. exact Hj. }
  rewrite !Hsc, !bind_Done_l.
  rewrite alignScales_nothing_valid.
  - rewrite bind_Done_l. rewrite null_isEmpty. reflexivity.
  - intros p. unfold ld. rewrite init_numAxes.
    destruct p; cbn; apply length_replicate.
  - intros p i r Hi.
    assert (r = QRectF.null) as ->; [| reflexivity].
    destruct p; cbn in Hi; apply lookup_replicate in Hi as [-> _]; reflexivity.
Qed.
(** ** The snapshot is idempotent *)

Lemma ScaleData_init_idem (s : ScaleData) (w : option QwtScaleWidget) :
  ScaleData_init (ScaleData_init s w) w = ScaleData_init s w.
Proof. destruct w; reflexivity. Qed.

Lemma initAxes_idem (axes : list Axis) :
  forall slots n t0,
    initAxes axes (fst (initAxes axes slots n t0)) n t0 = initAxes axes slots n t0.
Proof.
  induction axes as [| a axes IH]; intros slots n t0.
  - destruct slots; reflexivity.
  - destruct slots as [| s slots]; [reflexivity |].
    cbn [initAxes]. destruct (axisVisible a) eqn:Ev.
    + set (t1 := if n =? 0 then _ else t0).
      specialize (IH slots (n + 1) t1).
      destruct (initAxes axes slots (n + 1) t1) as [rest acc] eqn:E.
      cbn [fst] in *. rewrite IH, ScaleData_init_idem. reflexivity.
    + specialize (IH slots n t0).
      destruct (initAxes axes slots n t0) as [rest acc] eqn:E.
      cbn [fst] in *. rewrite IH, ScaleData_init_idem. reflexivity.
Qed.

Lemma initPosition_idem (plot : QwtPlot) (rect : QRectF.t)
    (old : QwtPlotLayoutData.t) (p : Position) :
  initPosition plot (init plot rect old) p = initPosition plot old p.
Proof.
  unfold initPosition at 1. rewrite init_scaleData.
  assert (Hlen : length (fst (initPosition plot old p))
                 = length (getAt (plot_axes plot) p)).
  { unfold initPosition. apply initAxes_length, length_resizeV. }
  rewrite <- Hlen at 1. rewrite resizeV_same.
  unfold initPosition. apply initAxes_idem.
Qed.

Lemma init_idem (plot : QwtPlot) (rect : QRectF.t) (old : QwtPlotLayoutData.t) :
  init plot rect (init plot rect old) = init plot rect old.
Proof.
  unfold init at 1. rewrite !initPosition_idem.
  unfold init. cbn [legendData]. f_equal.
  destruct (plot_legend plot); reflexivity.
Qed.

(** ** [activate] *)

(** [activate] reads the old state through the rectangles, the engine
    and the snapshot it makes. *)
Lemma activate_ext (fuel : nat) (plot : QwtPlot) (plotRect : QRectF.t)
    (options : Z) (d1 d2 : PrivateData) :
  titleRect d1 = titleRect d2 -> footerRect d1 = footerRect d2 ->
  legendRect d1 = legendRect d2 -> scaleRects d1 = scaleRects d2 ->
  layoutEngine d1 = layoutEngine d2 ->
  init plot plotRect (layoutData d1) = init plot plotRect (layoutData d2) ->
  activate fuel plot plotRect options d1 = activate fuel plot plotRect options d2.
Proof.
  intros Ht Hf Hl Hs He Hi. unfold activate.
  rewrite Ht, Hf, Hl, Hs, He, Hi. reflexivity.
Qed.

(** The steps of a pass that returns. *)
Lemma activate_inv (fuel : nat) (plot : QwtPlot) (plotRect : QRectF.t)
    (options : Z) (d d' : PrivateData) :
  activate fuel plot plotRect options d = Done d' ->
  let ld := init plot plotRect (layoutData d) in
  let e := layoutEngine d in
  exists lr rect1 dims tr rect2 fr rect3 rects,
    (lr, rect1) =
      (if negb (testFlag options IgnoreLegend) && hasLegend plot
       then placeLegend e options ld plotRect else (legendRect d, plotRect))
    /\ layoutDimensions fuel e options ld rect1 = Done dims
    /\ (tr, rect2) =
         (if dimTitle dims >? 0 then placeTitle e ld dims rect1
          else (titleRect d, rect1))
    /\ (fr, rect3) =
         (if dimFooter dims >? 0 then placeFooter e ld dims rect2
          else (footerRect d, rect2))
    /\ (forall p, layoutScales (innerRect dims rect3) dims p 0
                    (getAt (scaleRects d) p) 0 = Done (getAt rects p))
    /\ alignScales e options ld (innerRect dims rect3, rects)
       = Done (canvasRect d', scaleRects d')
    /\ d' = mkData tr fr
              (if negb (QRectF.isEmpty lr)
               then alignLegend e (legendData ld) (canvasRect d') lr else lr)
              (scaleRects d') (canvasRect d') ld e.
Proof.
  intros H. cbv zeta. unfold activate in H.
  set (ld := init plot plotRect (layoutData d)) in *.
  set (e := layoutEngine d) in *.
  destruct (if negb (testFlag options IgnoreLegend) && hasLegend plot
            then _ else _) as [lr rect1] eqn:E1.
  inv_bind H. rename a into dims.
  destruct (if dimTitle dims >? 0 then _ else _) as [tr rect2] eqn:E2.
  destruct (if dimFooter dims >? 0 then _ else _) as [fr rect3] eqn:E3.
  inv_bind H. inv_bind H. inv_bind H. inv_bind H. inv_bind H.
  destruct a3 as [c1 A1]. injection H as <-.
  exists lr, rect1, dims, tr, rect2, fr, rect3, (mkPosArray a a0 a1 a2).
  cbn [canvasRect scaleRects].
  split; [first [reflexivity | symmetry; exact E1] |]. split; [exact Ha |].
  split; [first [reflexivity | symmetry; exact E2] |].
  split; [first [reflexivity | symmetry; exact E3] |].
  split; [intros p; destruct p; assumption |].
  split; [assumption | reflexivity].
Qed.
(** ** Invisible axes *)





(** ** The pass returns *)

Ltac split_ifs :=
  repeat match goal with
         | |- context [if ?b then _ else _] => destruct b
         end.

Lemma alignXAxis_total (e : QwtPlotLayoutEngine.t) (bo : Position -> Z)
    (startDist endDist : Z) (scaleRect : PosArray (list QRectF.t))
    (canvasRect axisRect : QRectF.t) :
  (forall q, (1 <= length (getAt scaleRect q))%nat) ->
  exists r, alignXAxis e bo startDist endDist scaleRect canvasRect axisRect = Done r.
Proof.
  intros Hne. unfold alignXAxis, scaleRectAt, QWT_DUMMY_ID.
  destruct (lookup_lt_is_Some_2 (getAt scaleRect yLeft) 0) as [l ->];
    [apply Hne |].
  destruct (lookup_lt_is_Some_2 (getAt scaleRect yRight) 0) as [r ->];
    [apply Hne |].
  cbn [fromOption]. rewrite bind_Done_l.
  split_ifs; rewrite bind_Done_l; split_ifs; eauto.
Qed.

Lemma alignYAxis_total (e : QwtPlotLayoutEngine.t) (bo : Position -> Z)
    (layoutData : QwtPlotLayoutData.t) (startDist endDist : Z)
    (scaleRect : PosArray (list QRectF.t)) (canvasRect axisRect : QRectF.t) :
  (forall q, (1 <= length (getAt scaleRect q))%nat) ->
  exists r, alignYAxis e bo layoutData startDist endDist scaleRect canvasRect
              axisRect = Done r.
Proof.
  intros Hne. unfold alignYAxis, scaleRectAt, QWT_DUMMY_ID.
  destruct (lookup_lt_is_Some_2 (getAt scaleRect xBottom) 0) as [l ->];
    [apply Hne |].
  destruct (lookup_lt_is_Some_2 (getAt scaleRect xTop) 0) as [r ->];
    [apply Hne |].
  cbn [fromOption]. rewrite bind_Done_l.
  split_ifs; rewrite bind_Done_l; split_ifs; eauto.
Qed.

Lemma length_storeScaleRect (scaleRect : PosArray (list QRectF.t))
    (p q : Position) (i : nat) (r : QRectF.t) :
  length (getAt (storeScaleRect scaleRect p i r) q) = length (getAt scaleRect q).
Proof.
  unfold storeScaleRect. destruct (Position_eq_dec p q) as [<- | Hne].
  - rewrite getAt_setAt_same. apply length_insert.
  - rewrite getAt_setAt_other by exact Hne. reflexivity.
Qed.

(** When every position has an axis slot and the vectors of rectangles
    have the sizes of the snapshot, [alignScales] returns. *)
Lemma alignScales_total (e : QwtPlotLayoutEngine.t) (options : Z)
    (layoutData : QwtPlotLayoutData.t) (st : AlignState) :
  (forall q, (1 <= numAxes layoutData q)%nat) ->
  (forall q, length (getAt (snd st) q) = numAxes layoutData q) ->
  exists st', alignScales e options layoutData st = Done st'.
Proof.
  intros Hne Hlen. unfold alignScales.
  set (Inv := fun s : AlignState =>
                forall q, length (getAt (snd s) q) = numAxes layoutData q).
  destruct (overAllAxes_total layoutData (alignStep e options layoutData) Inv)
    with (st := st) as (s1 & E1 & H1); [| exact Hlen |].
  { intros p i sd [c sr] Hi Hs. unfold Inv in Hs. cbn [snd] in Hs.
    unfold alignStep, scaleRectAt.
    destruct (lookup_lt_is_Some_2 (getAt sr p) i) as [r ->].
    { rewrite Hs. eapply lookup_lt_Some, Hi. }
    cbn [fromOption]. rewrite bind_Done_l.
    destruct (negb (QRectF.isValid r)); [eauto |].
    assert (Hsr : forall q, (1 <= length (getAt sr q))%nat)
      by (intros q; rewrite Hs; apply Hne).
    destruct (qwtIsXAxis p).
    - destruct (alignXAxis_total e (alignBackboneOffset e options layoutData)
                  (start sd) (end_ sd) sr c r Hsr) as [[c' r'] ->].
      rewrite bind_Done_l. eexists. split; [reflexivity |].
      intros q. cbn [snd]. rewrite length_storeScaleRect. apply Hs.
    - destruct (alignYAxis_total e (alignBackboneOffset e options layoutData)
                  layoutData (start sd) (end_ sd) sr c r Hsr) as [[c' r'] ->].
      rewrite bind_Done_l. eexists. split; [reflexivity |].
      intros q. cbn [snd]. rewrite length_storeScaleRect. apply Hs. }
  rewrite E1, bind_Done_l.
  destruct (overAllAxes_total layoutData (realignStep e options layoutData) Inv)
    with (st := s1) as (s2 & E2 & H2); [| exact H1 | eauto].
  intros p i sd [c sr] Hi Hs. unfold Inv in Hs. cbn [snd] in Hs.
  unfold realignStep, scaleRectAt.
  destruct (lookup_lt_is_Some_2 (getAt sr p) i) as [r ->].
  { rewrite Hs. eapply lookup_lt_Some, Hi. }
  cbn [fromOption]. rewrite bind_Done_l.
  destruct (negb (QRectF.isValid r)); [eauto |].
  eexists. split; [reflexivity |].
  intros q. cbn [snd]. rewrite length_storeScaleRect. apply Hs.
Qed.

(** With bounded measuring functions, an axis slot at every position and
    fuel for [passBound] passes, the layout pass returns. *)
Lemma update_returns (B : Z) (fuel : nat) (plot : QwtPlot) (plotRect : QRectF.t)
    (options : Z) (d : PrivateData) :
  measuresBounded B (init plot plotRect (layoutData d)) ->
  (forall p, (1 <= axesCount plot p)%nat) ->
  (passBound B (init plot plotRect (layoutData d)) <= fuel)%nat ->
  exists d', update fuel plot plotRect options d = Done d'.
Proof.
  intros HB Hne Hfuel. unfold update.
  destruct (reset_fields plot d) as (_ & _ & _ & _ & Eld & Ee & Esr).
  set (d0 := resizeScaleRects plot (invalidate d)) in *.
  unfold activate. rewrite Eld, Ee.
  set (ld := init plot plotRect (layoutData d)) in *.
  set (e := layoutEngine d).
  destruct (if negb (testFlag options IgnoreLegend) && hasLegend plot
            then _ else _) as [lr rect1].
  destruct (layoutLoop_terminates B e options ld rect1 (init_wellFormed _ _ _) HB
              (passBound B ld) (newDimensions ld))
    as (dims & Edims & Hsz & _).
  { apply newDimensions_sized. }
  { apply newDimensions_bounded, dimBound_nonneg. }
  { rewrite newDimensions_total. unfold passBound.
    pose proof (dimBound_nonneg B ld). unfold numSlots. nia. }
  unfold layoutDimensions.
  rewrite (layoutLoop_more_fuel _ _ _ _ _ _ _ _ Hfuel Edims), bind_Done_l.
  destruct (if dimTitle dims >? 0 then _ else _) as [tr rect2].
  destruct (if dimFooter dims >? 0 then _ else _) as [fr rect3].
  assert (Hsc : forall p, exists out,
            layoutScales (innerRect dims rect3) dims p 0
              (getAt (scaleRects d0) p) 0 = Done out
            /\ length out = numAxes ld p).
  { intros p.
    assert (Hl : length (getAt (scaleRects d0) p) = numAxes ld p).
    { rewrite Esr, length_replicate. unfold ld. symmetry. apply init_numAxes. }
    destruct (layoutScales_total (innerRect dims rect3) dims p
                (getAt (scaleRects d0) p) 0%nat 0) as [out Eout].
    { rewrite Hl, (Hsz p). cbn. lia. }
    exists out. split; [exact Eout |].
    destruct (layoutScales_lookup _ _ _ _ _ _ _ Eout) as [-> _]. exact Hl. }
  destruct (Hsc yLeft) as (sl & -> & Hl). destruct (Hsc yRight) as (sr & -> & Hr).
  destruct (Hsc xBottom) as (sb & -> & Hb). destruct (Hsc xTop) as (st & -> & Ht).
  rewrite !bind_Done_l.
  destruct (alignScales_total e options ld
              (innerRect dims rect3, mkPosArray sl sr sb st)) as [[c1 A1] ->].
  - intros q. unfold ld. rewrite init_numAxes. apply Hne.
  - intros q. destruct q; assumption.
  - rewrite bind_Done_l. eauto.
Qed.

(** ** The tick offset of the snapshot *)

Lemma initAxes_tickOffset (axes : list Axis) :
  forall slots n t0, length slots = length axes -> 0 <= n ->
    snd (snd (initAxes axes slots n t0)) =
      if n =? 0 then
        match List.find axisVisible axes with
        | Some a => widgetTickOffset (axisWidget a)
        | None => t0
        end
      else t0.
Proof.
  induction axes as [|a axes IH]; intros slots n t0 Hlen Hn.
  - cbn. destruct (n =? 0); reflexivity.
  - destruct slots as [|s slots]; [discriminate|].
    cbn [initAxes List.find]. injection Hlen as Hlen.
    destruct (axisVisible a) eqn:Ev.
    + specialize (IH slots (n + 1)
        (if n =? 0
         then (let t1 := inject_Z (sw_margin (axisWidget a)) in
               if sw_hasTicks (axisWidget a)
               then (t1 + sw_maxTickLength (axisWidget a))%Q else t1)
         else t0) Hlen ltac:(lia)).
      destruct (initAxes axes slots (n + 1) _) as [rest acc] eqn:E.
      cbn in IH |- *. rewrite IH.
      assert (E1 : (n + 1 =? 0) = false) by (apply Z.eqb_neq; lia).
      rewrite E1. destruct (n =? 0); reflexivity.
    + specialize (IH slots n t0 Hlen Hn).
      destruct (initAxes axes slots n t0) as [rest acc] eqn:E.
      cbn in IH |- *. exact IH.
Qed.

(** ** The sizes of the vectors in [activate] *)

(** Every element of the vector is reached when the loop returns. *)
Lemma forEachFrom_each {A St : Type} (body : nat -> A -> St -> outcome St)
    (R : St -> St -> Prop) :
  (forall s, R s s) ->
  (forall s1 s2 s3, R s1 s2 -> R s2 s3 -> R s1 s3) ->
  forall (l : list A) (i : nat),
  (forall k a s s', l !! k = Some a -> body (i + k)%nat a s = Done s' -> R s s') ->
  forall s s', forEachFrom body i l s = Done s' ->
    R s s'
    /\ forall k a, l !! k = Some a ->
         exists s1 s2, R s s1 /\ body (i + k)%nat a s1 = Done s2 /\ R s2 s'.
Proof.
  intros Hrefl Htrans l. induction l as [|a l IH]; intros i Hbody s s' H.
  - cbn in H. injection H as <-. split; [apply Hrefl|].
    intros k a Hk. discriminate.
  - cbn in H. inv_bind H.
    assert (R0 : R s a0).
    { apply (Hbody 0%nat a); [reflexivity|]. rewrite Nat.add_0_r. exact Ha. }
    destruct (IH (S i)) with (s := a0) (s' := s') as [R1 Hall].
    + intros k b s1 s2 Hk Hb. apply (Hbody (S k) b); [exact Hk|].
      rewrite Nat.add_succ_r. exact Hb.
    + exact H.
    + split; [eapply Htrans; eassumption|].
      intros [|k] b Hk.
      * cbn in Hk. injection Hk as <-. exists s, a0.
        split; [apply Hrefl|]. rewrite Nat.add_0_r. split; [exact Ha | exact R1].
      * destruct (Hall k b Hk) as (s1 & s2 & R2 & Hb & R3).
        exists s1, s2. split; [eapply Htrans; eassumption|].
        rewrite Nat.add_succ_r. split; [exact Hb | exact R3].
Qed.

Lemma alignStep_sameSizes (e : QwtPlotLayoutEngine.t) (options : Z)
    (layoutData : QwtPlotLayoutData.t) (p : Position) (i : nat)
    (sd : ScaleData) (st st' : AlignState) :
  alignStep e options layoutData p i sd st = Done st' -> sameSizes st st'.
Proof.
  intros H q. apply alignStep_inv in H.
  destruct H as [->|(r & r' & c' & _ & _ & ->)]; [reflexivity|].
  apply length_storeScaleRect.
Qed.

Lemma alignStep_in_range (e : QwtPlotLayoutEngine.t) (options : Z)
    (layoutData : QwtPlotLayoutData.t) (p : Position) (i : nat)
    (sd : ScaleData) (st st' : AlignState) :
  alignStep e options layoutData p i sd st = Done st' ->
  (i < length (getAt (snd st) p))%nat.
Proof.
  intros H. destruct st as [c sr]. unfold alignStep in H.
  inv_bind H. unfold scaleRectAt in Ha.
  destruct (getAt sr p !! i) eqn:E; [|discriminate].
  apply lookup_lt_Some in E. exact E.
Qed.

Lemma alignLoop_sizes (e : QwtPlotLayoutEngine.t) (options : Z)
    (layoutData : QwtPlotLayoutData.t) (p : Position) (st st' : AlignState) :
  forEachFrom (alignStep e options layoutData p) 0
    (getAt (scaleData layoutData) p) st = Done st' ->
  sameSizes st st' /\ (numAxes layoutData p <= length (getAt (snd st) p))%nat.
Proof.
  intros H.
  apply (forEachFrom_each _ sameSizes) in H.
  - destruct H as [R Hall]. split; [exact R|].
    unfold numAxes.
    destruct (getAt (scaleData layoutData) p) as [|sd0 l] eqn:El; [cbn; lia|].
    set (n := length (sd0 :: l)).
    destruct (lookup_lt_is_Some_2 (sd0 :: l) (n - 1)%nat) as [sd Hsd].
    { unfold n. cbn. lia. }
    destruct (Hall _ _ Hsd) as (s1 & s2 & R1 & Hb & _).
    apply alignStep_in_range in Hb. rewrite (R1 p) in Hb.
    subst n. cbn [length] in Hb |- *. lia.
  - intros s q. reflexivity.
  - intros s1 s2 s3 H1 H2 q. rewrite (H2 q). apply H1.
  - intros k a s s' _ Hb. eapply alignStep_sameSizes. exact Hb.
Qed.

(** [alignScales] returns only when the vectors of rectangles are at
    least as long as those of the snapshot. *)
Lemma alignScales_sizes (e : QwtPlotLayoutEngine.t) (options : Z)
    (layoutData : QwtPlotLayoutData.t) (st st' : AlignState) :
  alignScales e options layoutData st = Done st' ->
  forall p, (numAxes layoutData p <= length (getAt (snd st) p))%nat.
Proof.
  intros H. unfold alignScales in H. inv_bind H. clear H.
  unfold overAllAxes in Ha.
  inv_bind Ha. inv_bind Ha. inv_bind Ha.
  apply alignLoop_sizes in Ha0, Ha1, Ha2, Ha.
  destruct Ha0 as [R0 L0], Ha1 as [R1 L1], Ha2 as [R2 L2], Ha as [R3 L3].
  intros p. destruct p.
  - exact L0.
  - rewrite <- (R0 yRight). exact L1.
  - rewrite <- (R0 xBottom), <- (R1 xBottom). exact L2.
  - rewrite <- (R0 xTop), <- (R1 xTop), <- (R2 xTop). exact L3.
Qed.

(** The dimensions [layoutDimensions] returns have the sizes of the
    snapshot. *)
Lemma layoutDimensions_sized (fuel : nat) (e : QwtPlotLayoutEngine.t)
    (options : Z) (layoutData : QwtPlotLayoutData.t) (rect : QRectF.t)
    (dims : Dimensions) :
  wellFormed layoutData ->
  layoutDimensions fuel e options layoutData rect = Done dims ->
  sized layoutData dims.
Proof.
  intros Hwf H. unfold layoutDimensions in H.
  apply layoutLoop_monotone in H; [|assumption | apply newDimensions_sized].
  apply H.
Qed.

(** ** What [alignScales] moves *)

Lemma within_refl (r : QRectF.t) : within r r.
Proof. unfold within. repeat split; apply Qle_refl. Qed.

Lemma within_trans (r1 r2 r3 : QRectF.t) :
  within r2 r1 -> within r3 r2 -> within r3 r1.
Proof.
  unfold within. intros (A1 & A2 & A3 & A4) (B1 & B2 & B3 & B4).
  repeat split; eapply Qle_trans; eassumption.
Qed.

Lemma qMaxF_ge_l (a b : Q) : (a <= qMaxF a b)%Q.
Proof.
  unfold qMaxF. destruct (Qlt_bool a b) eqn:E.
  - apply Qlt_bool_iff in E. apply Qlt_le_weak. exact E.
  - apply Qle_refl.
Qed.

Lemma qMinF_le_l (a b : Q) : (qMinF a b <= a)%Q.
Proof.
  unfold qMinF. destruct (Qlt_bool a b) eqn:E.
  - apply Qle_refl.
  - apply Qlt_bool_false in E. exact E.
Qed.

Lemma within_setLeft (c : QRectF.t) (v : Q) :
  (QRectF.left c <= v)%Q -> within (QRectF.setLeft v c) c.
Proof.
  intros H. unfold within, QRectF.setLeft, QRectF.left, QRectF.right,
    QRectF.top, QRectF.bottom in *. cbn. repeat split; lra.
Qed.

Lemma within_setRight (c : QRectF.t) (v : Q) :
  (v <= QRectF.right c)%Q -> within (QRectF.setRight v c) c.
Proof.
  intros H. unfold within, QRectF.setRight, QRectF.left, QRectF.right,
    QRectF.top, QRectF.bottom in *. cbn. repeat split; lra.
Qed.

Lemma within_setTop (c : QRectF.t) (v : Q) :
  (QRectF.top c <= v)%Q -> within (QRectF.setTop v c) c.
Proof.
  intros H. unfold within, QRectF.setTop, QRectF.left, QRectF.right,
    QRectF.top, QRectF.bottom in *. cbn. repeat split; lra.
Qed.

Lemma within_setBottom (c : QRectF.t) (v : Q) :
  (v <= QRectF.bottom c)%Q -> within (QRectF.setBottom v c) c.
Proof.
  intros H. unfold within, QRectF.setBottom, QRectF.left, QRectF.right,
    QRectF.top, QRectF.bottom in *. cbn. repeat split; lra.
Qed.

Create HintDb align.

#[local] Hint Resolve within_refl within_setLeft within_setRight
  within_setTop within_setBottom qMaxF_ge_l qMinF_le_l : align.

(** An x axis is moved at its left and right ends only; the canvas is
    moved only when it is aligned to the left or to the right scale, and
    inwards. *)
Lemma alignXAxis_moves (e : QwtPlotLayoutEngine.t) (bo : Position -> Z)
    (startDist endDist : Z) (scaleRect : PosArray (list QRectF.t))
    (c r c' r' : QRectF.t) :
  alignXAxis e bo startDist endDist scaleRect c r = Done (c', r') ->
  within c' c
  /\ (getAt (d_alignCanvas e) yLeft = false ->
      getAt (d_alignCanvas e) yRight = false -> c' = c)
  /\ QRectF.yp r' = QRectF.yp r /\ QRectF.h r' = QRectF.h r.
Proof.
  unfold alignXAxis. intros H.
  inv_bind H.
  match type of H with
  | (let '(_, _) := ?X in _) = _ =>
      assert (H1 : within (fst X) c
                   /\ (getAt (d_alignCanvas e) yLeft = false -> fst X = c)
                   /\ QRectF.yp (snd X) = QRectF.yp r
                   /\ QRectF.h (snd X) = QRectF.h r);
      [| destruct X as [c1 r1]; cbn [fst snd] in H1 ]
  end.
  { cbv zeta. destruct (getAt (d_alignCanvas e) yLeft); cbn [andb];
      repeat match goal with
             | |- context [if ?b then _ else _] => destruct b
             end; cbn [fst snd].
    all: split; [auto with align
                | split; [intros; first [reflexivity|discriminate]
                         | split; reflexivity]]. }
  destruct H1 as (W1 & E1 & Y1 & H1).
  inv_bind H.
  assert (H2 : within c' c1
               /\ (getAt (d_alignCanvas e) yRight = false -> c' = c1)
               /\ QRectF.yp r' = QRectF.yp r1 /\ QRectF.h r' = QRectF.h r1).
  { cbv zeta in H. destruct (getAt (d_alignCanvas e) yRight); cbn [andb] in H;
      repeat match type of H with
             | context [if ?b then _ else _] => destruct b
             end; injection H as <- <-.
    all: split; [auto with align
                | split; [intros; first [reflexivity|discriminate]
                         | split; reflexivity]]. }
  destruct H2 as (W2 & E2 & Y2 & H2).
  split; [eapply within_trans; eassumption|].
  split; [intros F1 F2; rewrite (E2 F2); apply (E1 F1)|].
  split; congruence.
Qed.

(** The same for a y axis: its top and bottom ends only. *)
Lemma alignYAxis_moves (e : QwtPlotLayoutEngine.t) (bo : Position -> Z)
    (layoutData : QwtPlotLayoutData.t) (startDist endDist : Z)
    (scaleRect : PosArray (list QRectF.t)) (c r c' r' : QRectF.t) :
  alignYAxis e bo layoutData startDist endDist scaleRect c r = Done (c', r') ->
  within c' c
  /\ (getAt (d_alignCanvas e) xBottom = false ->
      getAt (d_alignCanvas e) xTop = false -> c' = c)
  /\ QRectF.xp r' = QRectF.xp r /\ QRectF.w r' = QRectF.w r.
Proof.
  unfold alignYAxis. intros H.
  inv_bind H.
  match type of H with
  | (let '(_, _) := ?X in _) = _ =>
      assert (H1 : within (fst X) c
                   /\ (getAt (d_alignCanvas e) xBottom = false -> fst X = c)
                   /\ QRectF.xp (snd X) = QRectF.xp r
                   /\ QRectF.w (snd X) = QRectF.w r);
      [| destruct X as [c1 r1]; cbn [fst snd] in H1 ]
  end.
  { cbv zeta. destruct (getAt (d_alignCanvas e) xBottom); cbn [andb];
      repeat match goal with
             | |- context [if ?b then _ else _] => destruct b
             end; cbn [fst snd].
    all: split; [auto with align
                | split; [intros; first [reflexivity|discriminate]
                         | split; reflexivity]]. }
  destruct H1 as (W1 & E1 & Y1 & H1).
  inv_bind H.
  assert (H2 : within c' c1
               /\ (getAt (d_alignCanvas e) xTop = false -> c' = c1)
               /\ QRectF.xp r' = QRectF.xp r1 /\ QRectF.w r' = QRectF.w r1).
  { cbv zeta in H. destruct (getAt (d_alignCanvas e) xTop); cbn [andb] in H;
      repeat match type of H with
             | context [if ?b then _ else _] => destruct b
             end; injection H as <- <-.
    all: split; [auto with align
                | split; [intros; first [reflexivity|discriminate]
                         | split; reflexivity]]. }
  destruct H2 as (W2 & E2 & Y2 & H2).
  split; [eapply within_trans; eassumption|].
  split; [intros F1 F2; rewrite (E2 F2); apply (E1 F1)|].
  split; congruence.
Qed.

Lemma sameAcross_refl (p : Position) (r : QRectF.t) : sameAcross p r r.
Proof. unfold sameAcross. destruct (qwtIsXAxis p); split; reflexivity. Qed.

Lemma sameAcross_trans (p : Position) (r1 r2 r3 : QRectF.t) :
  sameAcross p r1 r2 -> sameAcross p r2 r3 -> sameAcross p r1 r3.
Proof.
  unfold sameAcross. destruct (qwtIsXAxis p); intros [A B] [C D]; split; congruence.
Qed.

Lemma keepsAcross_refl (e : QwtPlotLayoutEngine.t) (sr : PosArray (list QRectF.t)) :
  keepsAcross e sr sr.
Proof. intros p _ i r H. exists r. split; [exact H | apply sameAcross_refl]. Qed.

Lemma lookup_storeScaleRect (sr : PosArray (list QRectF.t)) (q p : Position)
    (j i : nat) (r' : QRectF.t) :
  getAt (storeScaleRect sr q j r') p !! i =
    if Position_eq_dec q p then <[j := r']> (getAt sr q) !! i
    else getAt sr p !! i.
Proof.
  unfold storeScaleRect. destruct (Position_eq_dec q p) as [->|Hne].
  - rewrite getAt_setAt_same. reflexivity.
  - rewrite getAt_setAt_other by assumption. reflexivity.
Qed.

Lemma keepsAcross_store (e : QwtPlotLayoutEngine.t)
    (sr0 sr : PosArray (list QRectF.t)) (q : Position) (j : nat)
    (r r' : QRectF.t) :
  keepsAcross e sr0 sr -> getAt sr q !! j = Some r ->
  (getAt (d_alignCanvas e) q = false -> sameAcross q r r') ->
  keepsAcross e sr0 (storeScaleRect sr q j r').
Proof.
  intros Hk Hr Hs p Hp i r0 H0.
  destruct (Hk p Hp i r0 H0) as (r1 & H1 & S1).
  rewrite lookup_storeScaleRect.
  destruct (Position_eq_dec q p) as [->|Hne]; [|exists r1; split; assumption].
  destruct (Nat.eq_dec j i) as [->|Hji].
  - rewrite list_lookup_insert_eq by (eapply lookup_lt_Some; exact Hr).
    exists r'. split; [reflexivity|].
    assert (r1 = r) by congruence. subst r1.
    eapply sameAcross_trans; [exact S1 | apply Hs; exact Hp].
  - rewrite list_lookup_insert_ne by assumption.
    exists r1. split; assumption.
Qed.

Lemma alignStep_moves (e : QwtPlotLayoutEngine.t) (options : Z)
    (layoutData : QwtPlotLayoutData.t) (p : Position) (i : nat)
    (sd : ScaleData) (c c' : QRectF.t) (sr sr' : PosArray (list QRectF.t)) :
  alignStep e options layoutData p i sd (c, sr) = Done (c', sr') ->
  within c' c /\ (noAlignCanvas e -> c' = c)
  /\ (sr' = sr
      \/ exists r r', getAt sr p !! i = Some r
           /\ sr' = storeScaleRect sr p i r' /\ sameAcross p r r').
Proof.
  unfold alignStep. intros H. inv_bind H.
  unfold scaleRectAt in Ha.
  destruct (getAt sr p !! i) as [r|] eqn:Er; [|discriminate].
  cbn in Ha. injection Ha as <-.
  destruct (negb (QRectF.isValid r)).
  { injection H as <- <-. split; [apply within_refl|].
    split; [reflexivity | left; reflexivity]. }
  inv_bind H. destruct a as [c1 r1]. injection H as <- <-.
  unfold sameAcross. destruct (qwtIsXAxis p).
  - apply alignXAxis_moves in Ha. destruct Ha as (W & E & Y & Hh).
    split; [exact W|]. split; [intros N; apply E; apply N|].
    right. exists r, r1. repeat split; assumption.
  - apply alignYAxis_moves in Ha. destruct Ha as (W & E & Y & Hh).
    split; [exact W|]. split; [intros N; apply E; apply N|].
    right. exists r, r1. repeat split; assumption.
Qed.

Lemma realignStep_moves (e : QwtPlotLayoutEngine.t) (options : Z)
    (layoutData : QwtPlotLayoutData.t) (p : Position) (i : nat)
    (sd : ScaleData) (c c' : QRectF.t) (sr sr' : PosArray (list QRectF.t)) :
  realignStep e options layoutData p i sd (c, sr) = Done (c', sr') ->
  c' = c
  /\ (sr' = sr
      \/ exists r r', getAt sr p !! i = Some r
           /\ sr' = storeScaleRect sr p i r'
           /\ (getAt (d_alignCanvas e) p = false -> sameAcross p r r')).
Proof.
  unfold realignStep. intros H. inv_bind H.
  unfold scaleRectAt in Ha.
  destruct (getAt sr p !! i) as [r|] eqn:Er; [|discriminate].
  cbn in Ha. injection Ha as <-.
  destruct (negb (QRectF.isValid r)).
  { injection H as <- <-. split; [reflexivity | left; reflexivity]. }
  injection H as <- <-. split; [reflexivity|].
  right. eexists r, _. split; [reflexivity|]. split; [reflexivity|].
  intros Hp. rewrite Hp. unfold sameAcross.
  destruct p; cbn [qwtIsXAxis];
    repeat match goal with
           | |- context [if ?b then _ else _] => destruct b
           end; split; reflexivity.
Qed.

(** Both loops of [alignScales] keep the canvas within the one they
    start from, keep it as it is when it is aligned to no scale, and keep
    the extents across the axes. *)
Lemma alignScales_moves (e : QwtPlotLayoutEngine.t) (options : Z)
    (layoutData : QwtPlotLayoutData.t) (c c' : QRectF.t)
    (sr sr' : PosArray (list QRectF.t)) :
  alignScales e options layoutData (c, sr) = Done (c', sr') ->
  within c' c /\ (noAlignCanvas e -> c' = c) /\ keepsAcross e sr sr'.
Proof.
  intros H. unfold alignScales in H. inv_bind H.
  set (Inv := fun s : AlignState =>
         within (fst s) c /\ (noAlignCanvas e -> fst s = c)
         /\ keepsAcross e sr (snd s)).
  assert (I0 : Inv (c, sr)).
  { split; [apply within_refl|]. split; [reflexivity | apply keepsAcross_refl]. }
  assert (I1 : Inv a).
  { revert Ha. apply overAllAxes_keeps; [|exact I0].
    intros p i sd [c1 s1] [c2 s2] _ (W & E & K) Hb.
    apply alignStep_moves in Hb. destruct Hb as (W' & E' & Hs).
    split; [eapply within_trans; eassumption|].
    split; [intros N; cbn in *; rewrite (E' N); apply (E N)|].
    cbn [snd]. destruct Hs as [->|(r & r' & Hr & -> & Hs)]; [exact K|].
    eapply keepsAcross_store; [exact K | exact Hr | intros _; exact Hs]. }
  assert (I2 : Inv (c', sr')).
  { revert H. apply overAllAxes_keeps; [|exact I1].
    intros p i sd [c1 s1] [c2 s2] _ (W & E & K) Hb.
    apply realignStep_moves in Hb. destruct Hb as (-> & Hs).
    split; [exact W|]. split; [exact E|].
    cbn [snd]. destruct Hs as [->|(r & r' & Hr & -> & Hs)]; [exact K|].
    eapply keepsAcross_store; [exact K | exact Hr | exact Hs]. }
  exact I2.
Qed.

(** ** The structure of a layout pass *)

(** [update], step by step: the legend, the dimensions, the title, the
    footer, the axes, the alignment. *)
Lemma update_structure (fuel : nat) (plot : QwtPlot) (plotRect : QRectF.t)
    (options : Z) (d d' : PrivateData) :
  update fuel plot plotRect options d = Done d' ->
  let ld := layoutData d' in
  let e := layoutEngine d in
  exists lr rect1 dims rect2 rect3 rects,
    (lr, rect1) =
      (if negb (testFlag options IgnoreLegend) && hasLegend plot
       then placeLegend e options ld plotRect else (QRectF.null, plotRect))
    /\ layoutDimensions fuel e options ld rect1 = Done dims
    /\ (titleRect d', rect2) =
         (if dimTitle dims >? 0 then placeTitle e ld dims rect1
          else (QRectF.null, rect1))
    /\ (footerRect d', rect3) =
         (if dimFooter dims >? 0 then placeFooter e ld dims rect2
          else (QRectF.null, rect2))
    /\ (forall p, layoutScales (innerRect dims rect3) dims p 0
                    (replicate (axesCount plot p) QRectF.null) 0
                  = Done (getAt rects p))
    /\ alignScales e options ld (innerRect dims rect3, rects)
       = Done (canvasRect d', scaleRects d')
    /\ legendRect d' =
         (if negb (QRectF.isEmpty lr)
          then alignLegend e (legendData ld) (canvasRect d') lr else lr)
    /\ ld = init plot plotRect (layoutData d).
Proof.
  intros H ld e. unfold update in H.
  destruct (reset_fields plot d) as (T0 & F0 & L0 & _ & D0 & E0 & S0).
  cbv zeta in T0, F0, L0, D0, E0, S0.
  pose proof (activate_keeps _ _ _ _ _ _ H) as [He Hld].
  rewrite D0 in Hld.
  apply activate_inv in H. cbv zeta in H.
  rewrite T0, F0, L0, D0, E0 in H.
  destruct H as (lr & rect1 & dims & tr & rect2 & fr & rect3 & rects
                 & H1 & H2 & H3 & H4 & H5 & H6 & H7).
  exists lr, rect1, dims, rect2, rect3, rects.
  subst ld e. rewrite Hld.
  assert (Ht : titleRect d' = tr) by (rewrite H7; reflexivity).
  assert (Hf : footerRect d' = fr) by (rewrite H7; reflexivity).
  assert (Hl : legendRect d' =
               (if negb (QRectF.isEmpty lr)
                then alignLegend (layoutEngine d)
                       (legendData (init plot plotRect (layoutData d)))
                       (canvasRect d') lr else lr)).
  { rewrite H7 at 1. reflexivity. }
  rewrite Ht, Hf.
  split; [exact H1|]. split; [exact H2|]. split; [exact H3|].
  split; [exact H4|].
  split; [intros p; rewrite <- (S0 p); apply H5|].
  split; [exact H6|]. split; [exact Hl | reflexivity].
Qed.

Lemma inject_Z_not_neg (z : Z) : 0 < z -> Qlt_bool (inject_Z z) 0 = false.
Proof.
  intros H. apply Qlt_bool_false. unfold Qle. cbn. lia.
Qed.

(** The rectangle of an axis of positive thickness: its extent across
    the axis. *)
Lemma placeScale_across (c : QRectF.t) (p : Position) (pos dim : Z) :
  0 < dim ->
  let r := placeScale c p pos dim in
  match p with
  | yLeft =>
      QRectF.xp r = (QRectF.left c - inject_Z pos - inject_Z dim)%Q
      /\ QRectF.w r = inject_Z dim
  | yRight =>
      QRectF.xp r = (QRectF.right c + inject_Z pos)%Q
      /\ QRectF.w r = inject_Z dim
  | xBottom =>
      QRectF.yp r = (QRectF.bottom c + inject_Z pos)%Q
      /\ QRectF.h r = inject_Z dim
  | xTop =>
      QRectF.yp r = (QRectF.top c - inject_Z pos - inject_Z dim)%Q
      /\ QRectF.h r = inject_Z dim
  end.
Proof.
  intros H r. subst r. pose proof (inject_Z_not_neg dim H) as E.
  destruct p; unfold placeScale, QRectF.normalized; cbn;
    rewrite E;
    repeat match goal with
           | |- context [if ?b then _ else _] => destruct b
           end; cbn; split; reflexivity.
Qed.

(** ** Labels that do not take part *)

Lemma labelStep_off (e : QwtPlotLayoutEngine.t) (options : Z)
    (layoutData : QwtPlotLayoutData.t) (rect : QRectF.t) (l l' : Label)
    (st : Dimensions * bool) :
  labelOff options layoutData l -> dimLabel l (fst st) = 0 ->
  dimLabel l (fst (labelStep e options layoutData rect l' st)) = 0.
Proof.
  intros Hoff Hz. destruct st as [dims done]. cbn [fst] in Hz.
  unfold labelStep. cbn [fst].
  destruct l, l'; cbn [dimLabel] in *.
  - destruct Hoff as [Hf|He].
    + cbn [ignoreLabel] in Hf. rewrite Hf. exact Hz.
    + destruct (negb (testFlag options IgnoreTitle)); [|exact Hz].
      unfold heightForWidth. cbn [labelData] in He |- *. rewrite He, Hz.
      exact Hz.
  - destruct (negb (testFlag options IgnoreFooter)); [|exact Hz].
    destruct (_ >? _); exact Hz.
  - destruct (negb (testFlag options IgnoreTitle)); [|exact Hz].
    destruct (_ >? _); exact Hz.
  - destruct Hoff as [Hf|He].
    + cbn [ignoreLabel] in Hf. rewrite Hf. exact Hz.
    + destruct (negb (testFlag options IgnoreFooter)); [|exact Hz].
      unfold heightForWidth. cbn [labelData] in He |- *. rewrite He, Hz.
      exact Hz.
Qed.

Lemma axesLoop_label (e : QwtPlotLayoutEngine.t) (options : Z)
    (layoutData : QwtPlotLayoutData.t) (rect : QRectF.t) (p : Position)
    (l : Label) (st st' : Dimensions * bool) :
  axesLoop e options layoutData rect p st = Done st' ->
  dimLabel l (fst st') = dimLabel l (fst st).
Proof.
  intros H. unfold axesLoop in H.
  set (v := dimLabel l (fst st)).
  assert (Hv : dimLabel l (fst st) = v) by reflexivity. clearbody v.
  revert H. revert Hv.
  apply (forEachFrom_keeps _ (fun s => dimLabel l (fst s) = v)).
  intros k sd [dims done] s' _ Hs Hb.
  apply axisStep_inv in Hb.
  destruct Hb as [->|(dd & cur & _ & _ & _ & _ & ->)]; [exact Hs|].
  destruct l; exact Hs.
Qed.

Lemma layoutPass_off (e : QwtPlotLayoutEngine.t) (options : Z)
    (layoutData : QwtPlotLayoutData.t) (rect : QRectF.t) (l : Label)
    (dims : Dimensions) (st' : Dimensions * bool) :
  labelOff options layoutData l -> dimLabel l dims = 0 ->
  layoutPass e options layoutData rect dims = Done st' ->
  dimLabel l (fst st') = 0.
Proof.
  intros Hoff Hz H. unfold layoutPass in H.
  inv_bind H. inv_bind H. inv_bind H.
  rewrite (axesLoop_label _ _ _ _ _ l _ _ H).
  rewrite (axesLoop_label _ _ _ _ _ l _ _ Ha1).
  rewrite (axesLoop_label _ _ _ _ _ l _ _ Ha0).
  rewrite (axesLoop_label _ _ _ _ _ l _ _ Ha).
  apply labelStep_off; [exact Hoff|].
  apply labelStep_off; [exact Hoff|]. exact Hz.
Qed.

Lemma layoutLoop_off (e : QwtPlotLayoutEngine.t) (options : Z)
    (layoutData : QwtPlotLayoutData.t) (rect : QRectF.t) (l : Label) :
  labelOff options layoutData l ->
  forall (fuel : nat) (dims dims' : Dimensions),
    dimLabel l dims = 0 ->
    layoutLoop fuel e options layoutData rect dims = Done dims' ->
    dimLabel l dims' = 0.
Proof.
  intros Hoff. induction fuel as [|fuel IH]; intros dims dims' Hz H.
  - discriminate.
  - cbn [layoutLoop] in H. inv_bind H. destruct a as [d1 done].
    pose proof (layoutPass_off _ _ _ _ l _ _ Hoff Hz Ha) as Hz1.
    cbn [fst] in Hz1. destruct done.
    + injection H as <-. exact Hz1.
    + eapply IH; eassumption.
Qed.

(** ** The fixed point of the solver *)

Lemma axisStep_advance (e : QwtPlotLayoutEngine.t) (options : Z)
    (layoutData : QwtPlotLayoutData.t) (rect : QRectF.t) (p : Position)
    (i : nat) (sd : ScaleData) (st st' : Dimensions * bool) :
  axisStep e options layoutData rect p i sd st = Done st' -> advance st st'.
Proof.
  destruct st as [dims done]. intros H. apply axisStep_inv in H.
  destruct H as [->|(d & cur & _ & _ & Hc & Hlt & ->)].
  - apply advance_refl.
  - eapply advance_raised; eassumption.
Qed.

Lemma advance_done (s s' : Dimensions * bool) :
  advance s s' -> snd s' = true -> s' = s.
Proof. intros (_ & H & _). exact H. Qed.

(** A pass that starts with [done] set and ends with [done] set has
    found, for every visible axis, a dimension that is not above the
    one the axis has. *)
Lemma axesLoop_fixed (e : QwtPlotLayoutEngine.t) (options : Z)
    (layoutData : QwtPlotLayoutData.t) (rect : QRectF.t) (p : Position)
    (dims : Dimensions) :
  axesLoop e options layoutData rect p (dims, true) = Done (dims, true) ->
  forall i sd, getAt (scaleData layoutData) p !! i = Some sd ->
    isVisible sd = true ->
    exists d cur, axisDim e options layoutData rect dims p sd = Done d
      /\ dimVec dims p !! i = Some cur /\ d <= cur.
Proof.
  intros H i sd Hsd Hv. unfold axesLoop in H.
  apply (forEachFrom_each _ advance) in H.
  - destruct H as [_ Hall].
    destruct (Hall i sd Hsd) as (s1 & s2 & R1 & Hb & R2).
    pose proof (advance_done _ _ R2 eq_refl) as E2.
    assert (E1 : s2 = s1).
    { apply advance_done; [eapply axisStep_advance; exact Hb|].
      rewrite <- E2. reflexivity. }
    assert (s1 = (dims, true)) by congruence. subst s1 s2.
    cbn [Nat.add] in Hb. unfold axisStep in Hb. rewrite Hv in Hb. cbn [fst] in Hb.
    destruct (axisDim e options layoutData rect dims p sd) as [d| |] eqn:Ed;
      [|discriminate..].
    cbn in Hb. unfold dimAxis in Hb.
    destruct (getAt (dimAxisVector dims) p !! i) as [cur|] eqn:Ec; [|discriminate].
    cbn in Hb. exists d, cur. split; [reflexivity|]. split; [exact Ec|].
    destruct (Z.gtb_spec d cur) as [Hgt|Hle]; [|exact Hle].
    unfold setDimAxis in Hb. destruct (_ <? _)%nat; discriminate.
  - apply advance_refl.
  - apply advance_trans.
  - intros k a s s' _ Hb. eapply axisStep_advance. exact Hb.
Qed.

Lemma axesLoop_advance (e : QwtPlotLayoutEngine.t) (options : Z)
    (layoutData : QwtPlotLayoutData.t) (rect : QRectF.t) (p : Position)
    (st st' : Dimensions * bool) :
  axesLoop e options layoutData rect p st = Done st' -> advance st st'.
Proof.
  intros H. unfold axesLoop in H.
  apply (forEachFrom_each _ advance) in H.
  - apply H.
  - apply advance_refl.
  - apply advance_trans.
  - intros k a s s' _ Hb. eapply axisStep_advance. exact Hb.
Qed.

Lemma layoutPass_fixed (e : QwtPlotLayoutEngine.t) (options : Z)
    (layoutData : QwtPlotLayoutData.t) (rect : QRectF.t) (dims : Dimensions) :
  layoutPass e options layoutData rect dims = Done (dims, true) ->
  labelStep e options layoutData rect Title (dims, true) = (dims, true)
  /\ labelStep e options layoutData rect Footer (dims, true) = (dims, true)
  /\ forall p, axesLoop e options layoutData rect p (dims, true) = Done (dims, true).
Proof.
  intros H. unfold layoutPass in H.
  inv_bind H. inv_bind H. inv_bind H.
  set (s1 := labelStep e options layoutData rect Title (dims, true)) in *.
  set (s2 := labelStep e options layoutData rect Footer s1) in *.
  pose proof (proj1 (labelStep_advance e options layoutData rect Title (dims, true))) as A1.
  pose proof (proj1 (labelStep_advance e options layoutData rect Footer s1)) as A2.
  fold s1 in A1. fold s2 in A2.
  pose proof (axesLoop_advance _ _ _ _ _ _ _ Ha) as A3.
  pose proof (axesLoop_advance _ _ _ _ _ _ _ Ha0) as A4.
  pose proof (axesLoop_advance _ _ _ _ _ _ _ Ha1) as A5.
  pose proof (axesLoop_advance _ _ _ _ _ _ _ H) as A6.
  pose proof (advance_done _ _ A6 eq_refl) as E6. subst a1.
  pose proof (advance_done _ _ A5 eq_refl) as E5. subst a0.
  pose proof (advance_done _ _ A4 eq_refl) as E4. subst a.
  pose proof (advance_done _ _ A3 eq_refl) as E3.
  assert (E2 : s2 = s1) by (apply advance_done; [exact A2 | rewrite <- E3; reflexivity]).
  assert (E1 : s1 = (dims, true)).
  { apply advance_done; [exact A1 | rewrite <- E2, <- E3; reflexivity]. }
  split; [exact E1|].
  split; [unfold s2 in E3; rewrite E1 in E3; symmetry; exact E3|].
  rewrite <- E3 in Ha.
  intros p. destruct p; assumption.
Qed.

Lemma layoutLoop_keeps (P : Dimensions -> Prop) (e : QwtPlotLayoutEngine.t)
    (options : Z) (layoutData : QwtPlotLayoutData.t) (rect : QRectF.t) :
  (forall dims, P dims ->
     P (setDimTitle (heightForWidth Title layoutData options (QRectF.width rect)
                       (dimYAxes dims)) dims)) ->
  (forall dims, P dims ->
     P (setDimFooter (heightForWidth Footer layoutData options (QRectF.width rect)
                        (dimYAxes dims)) dims)) ->
  (forall dims p i sd d, P dims ->
     getAt (scaleData layoutData) p !! i = Some sd -> isVisible sd = true ->
     axisDim e options layoutData rect dims p sd = Done d ->
     P (raised dims p i d)) ->
  forall (fuel : nat) (dims dims' : Dimensions), P dims ->
    layoutLoop fuel e options layoutData rect dims = Done dims' -> P dims'.
Proof.
  intros C1 C2 C3. induction fuel as [|fuel IH]; intros dims dims' HP H.
  - discriminate.
  - cbn [layoutLoop] in H. inv_bind H. destruct a as [d1 done].
    pose proof (layoutPass_keeps P e options layoutData rect C1 C2 C3 _ _ HP Ha) as H1.
    cbn [fst] in H1. destruct done.
    + injection H as <-. exact H1.
    + eapply IH; eassumption.
Qed.

(** ** [minimumSizeHint] *)

(** The second loop changes the widths of the horizontal axes and the
    heights of the vertical axes only. *)
Lemma shiftStep_keeps (cb : Position -> Z) (s : PosArray HintScaleData)
    (p q : Position) :
  (qwtIsYAxis q = true ->
     hs_w (getAt (shiftStep cb s p) q) = hs_w (getAt s q))
  /\ (qwtIsXAxis q = true ->
        hs_h (getAt (shiftStep cb s p) q) = hs_h (getAt s q))
  /\ hs_tickOffset (getAt (shiftStep cb s p) q) = hs_tickOffset (getAt s q)
  /\ hs_minLeft (getAt (shiftStep cb s p) q) = hs_minLeft (getAt s q)
  /\ hs_minRight (getAt (shiftStep cb s p) q) = hs_minRight (getAt s q).
Proof.
  unfold shiftStep.
  destruct p, q; cbn [qwtIsXAxis qwtIsYAxis andb getAt setAt atLeft atRight atBottom atTop];
    rewrite ?andb_false_r; cbn [getAt setAt atLeft atRight atBottom atTop];
    (split; [intros Hq; try discriminate Hq
            | split; [intros Hq; try discriminate Hq | split; [|split]]]);
    try reflexivity;
    repeat match goal with
           | |- context [if ?b then _ else _] => destruct b
           end; reflexivity.
Qed.

Lemma shiftLoop_keeps (cb : Position -> Z) (s : PosArray HintScaleData)
    (q : Position) :
  let s' := fold_left (shiftStep cb) positions s in
  (qwtIsYAxis q = true -> hs_w (getAt s' q) = hs_w (getAt s q))
  /\ (qwtIsXAxis q = true -> hs_h (getAt s' q) = hs_h (getAt s q)).
Proof.
  cbn [fold_left positions].
  split; intros Hq.
  - rewrite (proj1 (shiftStep_keeps cb _ xTop q) Hq).
    rewrite (proj1 (shiftStep_keeps cb _ xBottom q) Hq).
    rewrite (proj1 (shiftStep_keeps cb _ yRight q) Hq).
    apply (proj1 (shiftStep_keeps cb _ yLeft q) Hq).
  - rewrite (proj1 (proj2 (shiftStep_keeps cb _ xTop q)) Hq).
    rewrite (proj1 (proj2 (shiftStep_keeps cb _ xBottom q)) Hq).
    rewrite (proj1 (proj2 (shiftStep_keeps cb _ yRight q)) Hq).
    apply (proj1 (proj2 (shiftStep_keeps cb _ yLeft q)) Hq).
Qed.

(** Nothing is shifted when no axis has a size. *)
Lemma shiftStep_default (cb : Position -> Z) (p : Position) :
  shiftStep cb (constArray HintScaleData_default) p
  = constArray HintScaleData_default.
Proof. destruct p; reflexivity. Qed.

(** A label makes the hint neither narrower nor, when its height and
    the spacing are not negative, lower. *)
Lemma hintLabelStep_grows (plot : QwtPlot) (s : PosArray HintScaleData)
    (sp : Z) (label : option QwtTextLabel) (hfw : Z -> Z) (w h : Z) :
  0 <= sp -> (forall x, 0 <= hfw x) ->
  w <= fst (hintLabelStep plot s sp label hfw (w, h))
  /\ h <= snd (hintLabelStep plot s sp label hfw (w, h)).
Proof.
  intros Hsp Hh. unfold hintLabelStep.
  destruct label as [label|]; [|cbn; lia].
  destruct (negb (text_isEmpty (label_text label))); [|cbn; lia].
  set (axesW := hs_w (getAt s yLeft) + hs_w (getAt s yRight)).
  destruct (negb (visibleAxesCount plot yLeft =? visibleAxesCount plot yRight)).
  - destruct (Z.gtb_spec (hfw (w - axesW)) (w - axesW)) as [Hgt|Hle]; cbn.
    + pose proof (Hh (hfw (w - axesW))). lia.
    + pose proof (Hh (w - axesW)). lia.
  - destruct (Z.gtb_spec (hfw w) w) as [Hgt|Hle]; cbn.
    + pose proof (Hh (hfw w)). lia.
    + pose proof (Hh w). lia.
Qed.

(** The legend takes nothing from the width when it is at the top or
    at the bottom, and nothing from the height when it is at the left
    or at the right; it takes from neither when it is missing or empty,
    or when its ratio is not below 1, so that its share is not cut to
    the quotient. *)
Lemma hintLegendStep_grows (e : QwtPlotLayoutEngine.t)
    (legend : option QwtAbstractLegend) (w h : Z) :
  0 <= d_spacing e ->
  (forall l, legend = Some l ->
     0 <= sz_width (lg_sizeHint l) /\ 0 <= lg_scrollExtentH l
     /\ forall x, 0 <= lg_heightForWidth l x) ->
  (legendUncut e legend \/ legendAcross e -> 
   w <= fst (hintLegendStep e legend (w, h)))
  /\ (legendUncut e legend \/ ~ legendAcross e ->
      h <= snd (hintLegendStep e legend (w, h))).
Proof.
  intros Hsp Hl. unfold hintLegendStep, legendUncut, legendAcross.
  destruct legend as [l|]; [|cbn; split; intros _; lia].
  destruct (Hl l eq_refl) as (L1 & L2 & L3).
  destruct (lg_isEmpty l) eqn:Ee; [cbn; split; intros _; lia|].
  cbn [negb].
  pose proof (L3 (Z.min (sz_width (lg_sizeHint l)) w)) as L4.
  split; intros H.
  - destruct H as [[H|H]|H]; [discriminate | |].
    + rewrite H.
      destruct (d_legendPos e); destruct (lg_frameWidth l >? 0);
        try destruct (lg_heightForWidth l (sz_width (lg_sizeHint l)) >? h);
        cbn [fst snd]; lia.
    + destruct (d_legendPos e); try (destruct H; discriminate);
        cbn [fst snd]; lia.
  - destruct H as [[H|H]|H]; [discriminate | |].
    + rewrite H.
      destruct (d_legendPos e); destruct (lg_frameWidth l >? 0);
        cbn [fst snd]; lia.
    + destruct (d_legendPos e);
        try (exfalso; apply H; first [left; reflexivity | right; reflexivity]);
        cbn [fst snd]; lia.
Qed.
End Facts.

(** * Main theorems *)

Import QwtPlotLayoutData QwtPlotLayoutEngine QwtPlotLayout Props Facts.

(** C1. The solver is monotone and terminates. The loop replaces a
    dimension (of the title, of the footer, of an axis) by a strictly
    larger value only, and clears [done] when it does. A pass of the loop
    returns and decreases none of the title, footer and axis dimensions;
    when the pass ends with [done] set it has changed nothing, otherwise
    their sum has increased. Whatever the loop returns is a fixed point
    of the pass and not below the dimensions it started from. When the
    measuring functions of the snapshot are bounded, the loop returns
    within [passBound] passes, and more fuel gives the same result. *)
Theorem layoutDimensions_monotone_terminates (e : QwtPlotLayoutEngine.t)
    (options : Z) (layoutData : QwtPlotLayoutData.t) (rect : QRectF.t) :
  wellFormed layoutData ->
  (forall p i sd dims done st',
     axisStep e options layoutData rect p i sd (dims, done) = Done st' ->
     st' = (dims, done)
     \/ exists d cur, dimVec dims p !! i = Some cur /\ cur < d
          /\ st' = (raised dims p i d, false))
  /\ (forall labelType dims done,
        let st' := labelStep e options layoutData rect labelType (dims, done) in
        st' = (dims, done)
        \/ exists d, snd st' = false
             /\ match labelType with
                | Title => dimTitle dims < d /\ fst st' = setDimTitle d dims
                | Footer => dimFooter dims < d /\ fst st' = setDimFooter d dims
                end)
  /\ (forall dims, sized layoutData dims ->
     exists dims' done,
       layoutPass e options layoutData rect dims = Done (dims', done)
       /\ sized layoutData dims' /\ dims_le dims dims'
       /\ (done = true -> dims' = dims)
       /\ (done = false -> total dims < total dims'))
  /\ (forall fuel dims dims', sized layoutData dims ->
        layoutLoop fuel e options layoutData rect dims = Done dims' ->
        dims_le dims dims'
        /\ layoutPass e options layoutData rect dims' = Done (dims', true))
  /\ (forall B, measuresBounded B layoutData ->
        exists dims,
          (forall fuel, (passBound B layoutData <= fuel)%nat ->
             layoutDimensions fuel e options layoutData rect = Done dims)
          /\ layoutPass e options layoutData rect dims = Done (dims, true)
          /\ dims_le (newDimensions layoutData) dims
          /\ bounded (dimBound B layoutData) dims).
Proof.
  intros Hwf. split; [| split; [| split; [| split]]].
  - intros p i sd dims done st' H.
    apply axisStep_inv in H as [-> | (d & cur & _ & _ & Hcur & Hlt & ->)];
      [left; reflexivity | right; eauto].
  - intros labelType dims done. cbv zeta. unfold labelStep. cbn [fst].
    destruct labelType.
    + destruct (negb (testFlag options IgnoreTitle)); [| left; reflexivity].
      destruct (_ >? dimTitle dims) eqn:E; [| left; reflexivity].
      right. eexists. cbn [fst snd]. split; [reflexivity |].
      split; [| reflexivity]. lia.
    + destruct (negb (testFlag options IgnoreFooter)); [| left; reflexivity].
      destruct (_ >? dimFooter dims) eqn:E; [| left; reflexivity].
      right. eexists. cbn [fst snd]. split; [reflexivity |].
      split; [| reflexivity]. lia.
  - intros dims Hsz.
    destruct (layoutPass_total e options layoutData rect dims Hwf Hsz)
      as ([dims' done] & E & Hsz' & (Hle & Htrue & Hfalse)).
    exists dims', done. cbn [fst snd] in *.
    split; [exact E |]. split; [exact Hsz' |]. split; [exact Hle |]. split.
    + intros ->. injection (Htrue eq_refl) as ->. reflexivity.
    + intros ->. apply Hfalse; reflexivity.
  - intros fuel dims dims' Hsz H.
    destruct (layoutLoop_monotone e options layoutData rect Hwf fuel dims dims'
                Hsz H) as (? & _ & ?). split; assumption.
  - intros B HB.
    destruct (layoutLoop_terminates B e options layoutData rect Hwf HB
                (passBound B layoutData) (newDimensions layoutData))
      as (dims & E & _ & Hbd & Hle & Hfix).
    + apply newDimensions_sized.
    + apply newDimensions_bounded, dimBound_nonneg.
    + rewrite newDimensions_total. unfold passBound.
      pose proof (dimBound_nonneg B layoutData). unfold numSlots. nia.
    + exists dims. split; [| auto].
      intros fuel Hfuel. unfold layoutDimensions.
      eapply layoutLoop_more_fuel; eassumption.
Qed.

Lemma layoutDimensions_monotone_terminates_witness :
  wellFormed ex_snapshot
  /\ measuresBounded 40 ex_snapshot
  /\ exists dims,
       layoutDimensions (passBound 40 ex_snapshot) ex_engine 0 ex_snapshot ex_rect
       = Done dims
       /\ layoutPass ex_engine 0 ex_snapshot ex_rect dims = Done (dims, true).
Proof.
  assert (Hwf : wellFormed ex_snapshot).
  { intros p i sd H Hv.
    destruct p; destruct i as [| [| i]]; vm_compute in H; try discriminate H;
      injection H as <-; discriminate. }
  assert (Hb : measuresBounded 40 ex_snapshot).
  { split; [intros w; vm_compute; discriminate |].
    split; [intros w; vm_compute; discriminate |].
    intros p i sd H Hv.
    destruct p; destruct i as [| [| i]];
      cbv -[ex_widget ex_right_widget] in H; try discriminate H;
      injection H as <-; try discriminate Hv;
      (split; [vm_compute; discriminate |]);
      intros sw Hsw l; injection Hsw as <-; cbn;
      try destruct (l <? 780); lia. }
  split; [exact Hwf |]. split; [exact Hb |].
  destruct (layoutDimensions_monotone_terminates ex_engine 0 ex_snapshot ex_rect
              Hwf) as (_ & _ & _ & _ & H3).
  destruct (H3 40 Hb) as (dims & Hf & Hfix & _).
  exists dims. split; [apply Hf; lia | exact Hfix].
Defined.

(** C2, as stated, fails: with a right axis of positive thickness the
    length of a horizontal axis is one pixel less than stated. *)
Lemma axisLength_claimed_counterexample :
  axesLoop ex_engine 0 ex_snapshot ex_rect yRight
    (newDimensions ex_snapshot, true) = Done (ex_dims, false)
  /\ ~ (axisLength ex_engine 0 ex_snapshot ex_rect ex_dims xBottom ex_scale
       == axisLength_claimed ex_engine 0 ex_snapshot ex_rect ex_dims ex_scale)%Q
  /\ qFloor (axisLength ex_engine 0 ex_snapshot ex_rect ex_dims xBottom ex_scale)
     = 779
  /\ qFloor (axisLength_claimed ex_engine 0 ex_snapshot ex_rect ex_dims ex_scale)
     = 780
  /\ axisDim ex_engine 0 ex_snapshot ex_rect ex_dims xBottom ex_scale = Done 50
  /\ dimWithoutTitle ex_scale
     + sw_titleHeightForWidth ex_widget
         (qFloor (axisLength_claimed ex_engine 0 ex_snapshot ex_rect ex_dims
                    ex_scale))
     = 30.
Proof.
  split; [| split; [| split; [| split; [| split]]]].
  - vm_compute. reflexivity.
  - intros H. vm_compute in H. discriminate H.
  - vm_compute. reflexivity.
  - vm_compute. reflexivity.
  - vm_compute. reflexivity.
  - vm_compute. reflexivity.
Qed.

(** C2, amended. For a visible axis the solver passes the floor of
    [length] to the title measurement of the scale widget. For a top or
    bottom axis [length] is the width of the rectangle less the thickness
    of the left and right axes, less the two border distances, less one
    when the thickness of the right axes is positive, plus the minimum of
    the left thickness and the start distance less the left backbone
    offset, plus the minimum of the right thickness and the end distance
    less the right backbone offset. For a left or right axis it is the
    height of the rectangle less the thickness of the top and bottom
    axes, less the two border distances, less one, less one more for
    each of the bottom and top thickness that is not positive, plus for
    each that is positive the minimum of the tick offset of that side and
    the border distance at that end less the backbone offset, less the
    title height and the spacing when the title height is positive. *)
Theorem axisLength_formula (e : QwtPlotLayoutEngine.t) (options : Z)
    (layoutData : QwtPlotLayoutData.t) (rect : QRectF.t) (dims : Dimensions)
    (axisPos : Position) (sd : ScaleData) (sw : QwtScaleWidget) :
  let bo := backboneOffset e options layoutData in
  let length := axisLength e options layoutData rect dims axisPos sd in
  let ind (b : bool) (v : Q) : Q := if b then v else 0%Q in
  scaleWidget sd = Some sw ->
  axisDim e options layoutData rect dims axisPos sd =
    Done (dimWithoutTitle sd
          + if sw_titleIsEmpty sw then 0
            else sw_titleHeightForWidth sw (qFloor length))
  /\ (forall p, bo p =
        (if testFlag options IgnoreFrames then 0
         else getAt (contentsMargins (canvasData layoutData)) p)
        + (if getAt (d_alignCanvas e) p then 0 else getAt (d_canvasMargin e) p))
  /\ match axisPos with
     | xTop | xBottom =>
         (length ==
            QRectF.width rect - inject_Z (dimYAxes dims)
            - inject_Z (start sd) - inject_Z (end_ sd)
            - ind (dimAxes dims yRight >? 0) 1
            + inject_Z (Z.min (dimAxes dims yLeft) (start sd - bo yLeft))
            + inject_Z (Z.min (dimAxes dims yRight) (end_ sd - bo yRight)))%Q
     | yLeft | yRight =>
         (length ==
            QRectF.height rect - inject_Z (dimXAxes dims)
            - inject_Z (start sd) - inject_Z (end_ sd)
            - 1
            - ind (dimAxes dims xBottom <=? 0) 1
            - ind (dimAxes dims xTop <=? 0) 1
            + ind (dimAxes dims xBottom >? 0)
                  (qMinF (getAt (tickOffset layoutData) xBottom)
                         (inject_Z (start sd - bo xBottom)))
            + ind (dimAxes dims xTop >? 0)
                  (qMinF (getAt (tickOffset layoutData) xTop)
                         (inject_Z (end_ sd - bo xTop)))
            - ind (dimTitle dims >? 0)
                  (inject_Z (dimTitle dims) + inject_Z (d_spacing e)))%Q
     end.
Proof.
  intros bo length ind Hsw. subst bo length. split; [| split].
  - unfold axisDim. rewrite Hsw. simpl.
    destruct (sw_titleIsEmpty sw); simpl; f_equal; lia.
  - intros p. unfold backboneOffset.
    destruct (testFlag options IgnoreFrames), (getAt (d_alignCanvas e) p);
      cbn [negb]; lia.
  - unfold axisLength, ind.
    destruct axisPos; cbn [qwtIsXAxis];
      repeat match goal with
             | |- context [if ?b then _ else _] => destruct b
             end;
      rewrite ?inject_Z_plus; ring.
Qed.

Lemma axisLength_formula_witness :
  axisDim ex_engine 0 ex_snapshot ex_rect ex_dims xBottom ex_scale
  = Done (dimWithoutTitle ex_scale
          + if sw_titleIsEmpty ex_widget then 0
            else sw_titleHeightForWidth ex_widget
                   (qFloor (axisLength ex_engine 0 ex_snapshot ex_rect ex_dims
                              xBottom ex_scale))).
Proof.
  apply (axisLength_formula ex_engine 0 ex_snapshot ex_rect ex_dims xBottom
           ex_scale ex_widget).
  reflexivity.
Defined.

(** C3. For a label whose text is not empty, [heightForWidth] measures the
    text at the width less the thickness of the left and right axes when
    the numbers of visible left and right axes differ, and at the full
    width when they are equal; unless frames are ignored, twice the frame
    width of the label is added to the measured height. In a snapshot the
    two numbers are the counts of the visible axes of the plot, and the
    solver passes the width of the rectangle and the current thickness of
    the left and right axes. *)
Theorem heightForWidth_centering (labelType : Label)
    (layoutData : QwtPlotLayoutData.t) (options : Z) (width : Q) (axesWidth : Z) :
  let label := labelData layoutData labelType in
  let frames :=
    if testFlag options IgnoreFrames then 0 else 2 * lbd_frameWidth label in
  let nLeft := getAt (numVisibleScales layoutData) yLeft in
  let nRight := getAt (numVisibleScales layoutData) yRight in
  (text_isEmpty (text label) = false ->
     (nLeft <> nRight ->
        heightForWidth labelType layoutData options width axesWidth =
          qCeil (text_heightForWidth (text label) (width - inject_Z axesWidth)) + frames)
     /\ (nLeft = nRight ->
        heightForWidth labelType layoutData options width axesWidth =
          qCeil (text_heightForWidth (text label) width) + frames))
  /\ (forall plot rect old p,
        getAt (numVisibleScales (init plot rect old)) p
        = countVisible (getAt (plot_axes plot) p))
  /\ (forall e rect dims done,
        testFlag options IgnoreTitle = false ->
        fst (labelStep e options layoutData rect Title (dims, done)) =
          let d := heightForWidth Title layoutData options (QRectF.width rect)
                     (dimYAxes dims) in
          if d >? dimTitle dims then setDimTitle d dims else dims)
  /\ (forall e rect dims done,
        testFlag options IgnoreFooter = false ->
        fst (labelStep e options layoutData rect Footer (dims, done)) =
          let d := heightForWidth Footer layoutData options (QRectF.width rect)
                     (dimYAxes dims) in
          if d >? dimFooter dims then setDimFooter d dims else dims).
Proof.
  intros label frames nLeft nRight. subst label frames nLeft nRight.
  split; [| split; [| split]].
  - intros Htext. unfold heightForWidth, hasSymmetricYAxes. rewrite Htext.
    split; intros Hn.
    + apply Z.eqb_neq in Hn. rewrite Hn. cbn [negb].
      destruct (testFlag options IgnoreFrames); cbn [negb]; lia.
    + apply Z.eqb_eq in Hn. rewrite Hn. cbn [negb].
      destruct (testFlag options IgnoreFrames); cbn [negb]; lia.
  - intros. apply init_numVisible.
  - intros e rect dims done Hopt. unfold labelStep. rewrite Hopt. cbn [negb fst].
    destruct (_ >? _); reflexivity.
  - intros e rect dims done Hopt. unfold labelStep. rewrite Hopt. cbn [negb fst].
    destruct (_ >? _); reflexivity.
Qed.

Lemma heightForWidth_centering_witness :
  heightForWidth Title (init ex_full_plot ex_rect (layoutData ex_layout)) 0 800 30
  = qCeil (text_heightForWidth
             (text (titleData (init ex_full_plot ex_rect (layoutData ex_layout))))
             (800 - inject_Z 30))
    + 2 * lbd_frameWidth (titleData (init ex_full_plot ex_rect (layoutData ex_layout))).
Proof.
  destruct (proj1 (heightForWidth_centering Title
                     (init ex_full_plot ex_rect (layoutData ex_layout)) 0 800 30))
    as [H _].
  - reflexivity.
  - apply H. vm_compute. discriminate.
Defined.




(** C5, as stated, fails: for a plot without content whose canvas has a
    frame of two pixels the canvas rectangle is the whole rectangle of the
    plot, not that rectangle less the margins. *)
Lemma zero_content_counterexample :
  exists d, update 1 ex_bare_plot ex_small_rect 0 ex_layout = Done d
    /\ canvasRect d = ex_small_rect
    /\ ~ QRectF.equiv (canvasRect d)
           (shrunkByMargins ex_small_rect (plot_canvasMargins ex_bare_plot)).
Proof.
  eexists. split; [vm_compute; reflexivity |]. split; [reflexivity |].
  intros (H & _). vm_compute in H. discriminate H.
Qed.

(** C5, amended. When the title and the footer are empty, there is no
    legend or the legend is ignored and no axis is visible, the pass
    returns after one turn of the solver and the canvas rectangle is the
    rectangle of the plot itself: nothing is taken off, whatever the
    margins of the canvas; the title, footer, legend and axis rectangles
    are null. *)
Theorem zero_content_canvas (fuel : nat) (plot : QwtPlot) (plotRect : QRectF.t)
    (options : Z) (d : PrivateData) :
  noTitle plot -> noFooter plot ->
  testFlag options IgnoreLegend = true \/ hasLegend plot = false ->
  noVisibleAxis plot ->
  exists d', update (S fuel) plot plotRect options d = Done d'
    /\ canvasRect d' = plotRect
    /\ titleRect d' = QRectF.null /\ footerRect d' = QRectF.null
    /\ legendRect d' = QRectF.null
    /\ forall p, getAt (scaleRects d') p = replicate (axesCount plot p) QRectF.null.
Proof.
  intros HT HF HL HA. eexists.
  split; [apply update_without_content; assumption |].
  repeat split. intros p. destruct p; reflexivity.
Qed.

Lemma zero_content_canvas_witness :
  exists d', update 1 ex_bare_plot ex_small_rect 0 ex_layout = Done d'
    /\ canvasRect d' = ex_small_rect
    /\ titleRect d' = QRectF.null /\ footerRect d' = QRectF.null
    /\ legendRect d' = QRectF.null
    /\ forall p, getAt (scaleRects d') p
                 = replicate (axesCount ex_bare_plot p) QRectF.null.
Proof.
  apply (zero_content_canvas 0 ex_bare_plot ex_small_rect 0 ex_layout).
  - reflexivity.
  - reflexivity.
  - right. reflexivity.
  - intros p i a H. destruct p, i as [| i]; cbn in H;
      try discriminate H; injection H as <-; reflexivity.
Defined.



(** C7. The layout pass is idempotent: when [update] returns a state for
    a plot, a rectangle and options, [update] on that state with the same
    arguments returns the same state, with the same title, footer,
    legend, canvas and axis rectangles; so does [activate] alone. With
    bounded measuring functions, an axis slot at every position and fuel
    for [passBound] passes [update] does return. *)
Theorem layout_pass_idempotent (fuel : nat) (plot : QwtPlot)
    (plotRect : QRectF.t) (options : Z) (d : PrivateData) :
  (forall d1,
     update fuel plot plotRect options d = Done d1 ->
     update fuel plot plotRect options d1 = Done d1
     /\ activate fuel plot plotRect options d1 = Done d1)
  /\ (forall B,
        measuresBounded B (init plot plotRect (layoutData d)) ->
        (forall p, (1 <= axesCount plot p)%nat) ->
        (passBound B (init plot plotRect (layoutData d)) <= fuel)%nat ->
        exists d1,
          update fuel plot plotRect options d = Done d1
          /\ update fuel plot plotRect options d1 = Done d1
          /\ activate fuel plot plotRect options d1 = Done d1).
Proof.
  assert (Hidem : forall d1,
            update fuel plot plotRect options d = Done d1 ->
            update fuel plot plotRect options d1 = Done d1
            /\ activate fuel plot plotRect options d1 = Done d1);
    [| split; [exact Hidem |];
       intros B HB Hne Hfuel;
       destruct (update_returns B fuel plot plotRect options d HB Hne Hfuel)
         as [d1 H1];
       exists d1; split; [exact H1 | exact (Hidem d1 H1)]].
  intros d1 H. unfold update in *.
  destruct (reset_fields plot d) as (Et & Ef & El & _ & Eld & Ee & Esr).
  destruct (reset_fields plot d1) as (Et1 & Ef1 & El1 & _ & Eld1 & Ee1 & Esr1).
  set (d0 := resizeScaleRects plot (invalidate d)) in *.
  destruct (activate_keeps _ _ _ _ _ _ H) as [Heng Hld].
  split.
  - rewrite <- H. apply activate_ext.
    + rewrite Et1, Et. reflexivity.
    + rewrite Ef1, Ef. reflexivity.
    + rewrite El1, El. reflexivity.
    + unfold d0.
      cbn [resizeScaleRects withScaleRects scaleRects invalidate getAt
           atLeft atRight atBottom atTop].
      rewrite !resizeV_null. reflexivity.
    + rewrite Ee1, Heng. reflexivity.
    + rewrite Eld1, Hld. apply init_idem.
  - destruct (activate_inv _ _ _ _ _ _ H)
      as (lr & rect1 & dims & tr & rect2 & fr & rect3 & rects
          & E1 & Hdims & E2 & E3 & Hsc & Hal & Hd1).
    rewrite Eld, Ee in *.
    set (ld := init plot plotRect (layoutData d)) in *.
    set (e := layoutEngine d) in *.
    destruct d1 as [tr1 fr1 lr1 A1 c1 ld1 e1].
    cbn [canvasRect scaleRects] in *.
    pose proof (alignScales_keepsInvalid _ _ _ _ _ Hal) as [Klen Kinv].
    cbn [snd] in Klen, Kinv.
    assert (Hsc1 : forall p, layoutScales (innerRect dims rect3) dims p 0
                               (getAt A1 p) 0 = Done (getAt rects p)).
    { intros p. apply (layoutScales_ext _ _ _ (getAt (scaleRects d0) p));
        [| | apply Hsc].
      - rewrite Klen.
        destruct (layoutScales_lookup _ _ _ _ _ _ _ (Hsc p)) as [-> _].
        reflexivity.
      - intros j Hj.
        destruct (layoutScales_lookup _ _ _ _ _ _ _ (Hsc p)) as [Hl Hk].
        destruct (getAt (scaleRects d0) p !! j) as [r |] eqn:Er.
        + destruct (Hk j r Er) as (dim & Hdim & Hout).
          cbn [Nat.add] in Hdim. rewrite Hj in Hdim. injection Hdim as <-.
          cbn [Z.eqb] in Hout. symmetry. apply Kinv; [exact Hout |].
          rewrite Esr in Er. apply lookup_replicate in Er as [-> _].
          reflexivity.
        + apply lookup_ge_None in Er. symmetry. apply lookup_ge_None.
          rewrite Klen, Hl. exact Er. }
    rewrite Hd1. unfold activate.
    cbn [titleRect footerRect legendRect scaleRects layoutData layoutEngine].
    assert (Hidem : init plot plotRect ld = ld) by apply init_idem.
    rewrite Hidem.
    assert (E1' : (if negb (testFlag options IgnoreLegend) && hasLegend plot
                   then placeLegend e options ld plotRect
                   else (if negb (QRectF.isEmpty lr)
                         then alignLegend e (legendData ld) c1 lr else lr,
                         plotRect)) = (lr, rect1)).
    { destruct (negb (testFlag options IgnoreLegend) && hasLegend plot);
        [symmetry; exact E1 |].
      rewrite El in E1. injection E1 as -> ->. reflexivity. }
    rewrite E1', Hdims, bind_Done_l.
    assert (E2' : (if dimTitle dims >? 0 then placeTitle e ld dims rect1
                   else (tr, rect1)) = (tr, rect2)).
    { destruct (dimTitle dims >? 0); [symmetry; exact E2 |].
      injection E2 as _ ->. reflexivity. }
    rewrite E2'.
    assert (E3' : (if dimFooter dims >? 0 then placeFooter e ld dims rect2
                   else (fr, rect2)) = (fr, rect3)).
    { destruct (dimFooter dims >? 0); [symmetry; exact E3 |].
      injection E3 as _ ->. reflexivity. }
    rewrite E3'.
    rewrite (Hsc1 yLeft), bind_Done_l, (Hsc1 yRight), bind_Done_l,
      (Hsc1 xBottom), bind_Done_l, (Hsc1 xTop), bind_Done_l.
    assert (rects = mkPosArray (getAt rects yLeft) (getAt rects yRight)
                      (getAt rects xBottom) (getAt rects xTop)) as <-
      by (destruct rects; reflexivity).
    rewrite Hal, bind_Done_l. reflexivity.
Qed.

Lemma layout_pass_idempotent_witness :
  exists d1,
    update 10 ex_full_plot ex_rect 0 ex_layout = Done d1
    /\ update 10 ex_full_plot ex_rect 0 d1 = Done d1
    /\ activate 10 ex_full_plot ex_rect 0 d1 = Done d1.
Proof.
  eexists.
  assert (H : update 10 ex_full_plot ex_rect 0 ex_layout = Done _)
    by (vm_compute; reflexivity).
  split; [exact H |].
  apply (proj1 (layout_pass_idempotent 10 ex_full_plot ex_rect 0 ex_layout) _ H).
Defined.

(** C8. [alignLegend] stretches a top or bottom legend to the horizontal
    extent of the canvas exactly when the hinted width of the legend is
    smaller than the width of the canvas, a left or right legend to the
    vertical extent of the canvas exactly when the hinted height is smaller
    than the height of the canvas, and returns the legend rectangle as it
    is otherwise. *)
Theorem alignLegend_stretches (e : QwtPlotLayoutEngine.t)
    (legendData : LegendData) (canvasRect legendRect : QRectF.t) :
  let aligned := alignLegend e legendData canvasRect legendRect in
  let hnt := hint legendData in
  match d_legendPos e with
  | TopLegend | BottomLegend =>
      ((inject_Z (sz_width hnt) < QRectF.width canvasRect)%Q ->
         aligned = QRectF.mk (QRectF.x canvasRect) (QRectF.y legendRect)
                             (QRectF.width canvasRect) (QRectF.height legendRect))
      /\ (~ (inject_Z (sz_width hnt) < QRectF.width canvasRect)%Q ->
         aligned = legendRect)
  | LeftLegend | RightLegend =>
      ((inject_Z (sz_height hnt) < QRectF.height canvasRect)%Q ->
         aligned = QRectF.mk (QRectF.x legendRect) (QRectF.y canvasRect)
                             (QRectF.width legendRect) (QRectF.height canvasRect))
      /\ (~ (inject_Z (sz_height hnt) < QRectF.height canvasRect)%Q ->
         aligned = legendRect)
  end.
Proof.
  intros aligned hnt. subst aligned hnt. unfold alignLegend.
  destruct (d_legendPos e);
    match goal with
    | |- context [Qlt_bool ?a ?b] =>
        destruct (Qlt_bool a b) eqn:E;
        [apply Qlt_bool_iff in E | apply Qlt_bool_false in E]
    end;
    split; intros H; try reflexivity; try (exfalso; lra); try contradiction.
Qed.

Lemma alignLegend_stretches_witness :
  alignLegend (QwtPlotLayoutEngine.mk BottomLegend 0.33%float (constArray 4)
                 (constArray false) 5)
              (mkLegendData 0 0 0 (mkQSize 100 20))
              (QRectF.mk 40 10 300 200) (QRectF.mk 0 230 400 20)
  = QRectF.mk 40 230 300 20.
Proof.
  apply (alignLegend_stretches
           (QwtPlotLayoutEngine.mk BottomLegend 0.33%float (constArray 4)
              (constArray false) 5)
           (mkLegendData 0 0 0 (mkQSize 100 20))
           (QRectF.mk 40 10 300 200) (QRectF.mk 0 230 400 20)).
  reflexivity.
Defined.




(** C10. The per-axis accessors are total. For an identifier outside the
    valid range [scaleRect] returns the null rectangle and [setScaleRect]
    leaves the state as it is; for a position outside the enumeration
    [canvasMargin] returns 0 and [alignCanvasToScale] returns false. For
    a valid identifier [scaleRect] returns the stored rectangle. For no
    argument at all does one of the four index a vector or an array out
    of range, and neither do the setters [setCanvasMargin] and
    [setAlignCanvasToScale], which leave the state as it is for a
    position outside the enumeration (-1 apart, which for
    [setCanvasMargin] names all positions). *)
Theorem accessors_total (d : PrivateData) :
  (forall axisId rect, ~ validAxisId d axisId ->
     scaleRect d axisId = Done QRectF.null
     /\ setScaleRect axisId rect d = Done d)
  /\ (forall axisPos, axisPos < 0 \/ NumAxisPositions <= axisPos ->
     canvasMargin d axisPos = Done 0
     /\ alignCanvasToScale d axisPos = Done false)
  /\ (forall axisId p, posOfInt (pos axisId) = Some p ->
     0 <= id axisId < Z.of_nat (length (getAt (scaleRects d) p)) ->
     fromOption (getAt (scaleRects d) p !! Z.to_nat (id axisId))
       = scaleRect d axisId)
  /\ (forall axisId rect axisPos,
     scaleRect d axisId <> Fault
     /\ setScaleRect axisId rect d <> Fault
     /\ canvasMargin d axisPos <> Fault
     /\ alignCanvasToScale d axisPos <> Fault)
  /\ (forall axisPos margin on,
     setCanvasMargin margin axisPos d <> Fault
     /\ setAlignCanvasToScale axisPos on d <> Fault
     /\ (axisPos < 0 \/ NumAxisPositions <= axisPos ->
         setAlignCanvasToScale axisPos on d = Done d
         /\ (axisPos <> -1 -> setCanvasMargin margin axisPos d = Done d))).
Proof.
  assert (Hrange : forall z, ((z >=? 0) && (z <? NumAxisPositions)) = true ->
                     exists p, posOfInt z = Some p).
  { intros z H. apply andb_true_iff in H as [H1 H2].
    apply posOfInt_in_range. lia. }
  assert (Hout : forall z p, ((z >=? 0) && (z <? NumAxisPositions)) = false ->
                   posOfInt z = Some p -> False).
  { intros z p H E. apply posOfInt_Some in E. subst z.
    destruct p; discriminate H. }
  split; [| split; [| split; [| split]]].
  - intros axisId rect Hinv. unfold scaleRect, setScaleRect.
    destruct ((pos axisId >=? 0) && (pos axisId <? NumAxisPositions)) eqn:Ep;
      [| split; reflexivity].
    destruct (Hrange _ Ep) as [p Hp]. rewrite Hp. simpl.
    destruct ((id axisId >=? 0) && _) eqn:Ei; [| split; reflexivity].
    exfalso. apply Hinv. exists p. split; [exact Hp |].
    apply andb_true_iff in Ei as [H1 H2]. lia.
  - intros axisPos H. unfold canvasMargin, alignCanvasToScale.
    assert (((axisPos <? 0) || (axisPos >=? NumAxisPositions)) = true) as ->.
    { apply orb_true_iff. lia. }
    split; reflexivity.
  - intros axisId p Hp Hi. unfold scaleRect.
    assert (((pos axisId >=? 0) && (pos axisId <? NumAxisPositions)) = true) as ->.
    { apply posOfInt_Some in Hp. rewrite Hp. destruct p; reflexivity. }
    rewrite Hp. simpl.
    assert (((id axisId >=? 0) && (id axisId <? Z.of_nat (length (getAt (scaleRects d) p)))) = true) as ->.
    { apply andb_true_iff. lia. }
    unfold readAt.
    assert ((0 <=? id axisId) = true) as -> by lia. reflexivity.
  - intros axisId rect axisPos. split; [| split; [| split]].
    + unfold scaleRect.
      destruct ((pos axisId >=? 0) && (pos axisId <? NumAxisPositions)) eqn:Ep;
        [| discriminate].
      destruct (Hrange _ Ep) as [p Hp]. rewrite Hp. simpl.
      destruct ((id axisId >=? 0) && _) eqn:Ei; [| discriminate].
      apply andb_true_iff in Ei as [H1 H2]. unfold readAt.
      assert ((0 <=? id axisId) = true) as -> by lia.
      destruct (getAt (scaleRects d) p !! Z.to_nat (id axisId)) eqn:El;
        [discriminate |].
      apply lookup_ge_None in El. lia.
    + unfold setScaleRect.
      destruct ((pos axisId >=? 0) && (pos axisId <? NumAxisPositions)) eqn:Ep;
        [| discriminate].
      destruct (Hrange _ Ep) as [p Hp]. rewrite Hp. simpl.
      destruct ((id axisId >=? 0) && _) eqn:Ei; [| discriminate].
      unfold assignAt.
      assert (((0 <=? id axisId) && (id axisId <? Z.of_nat (length (getAt (scaleRects d) p)))) = true) as ->.
      { apply andb_true_iff in Ei as [H1 H2]. apply andb_true_iff. lia. }
      discriminate.
    + unfold canvasMargin, engineCanvasMargin.
      destruct ((axisPos <? 0) || (axisPos >=? NumAxisPositions)) eqn:E;
        [discriminate |].
      apply orb_false_iff in E as [E1 E2].
      destruct (posOfInt_in_range axisPos) as [p ->]; [lia | discriminate].
    + unfold alignCanvasToScale, engineAlignCanvas.
      destruct ((axisPos <? 0) || (axisPos >=? NumAxisPositions)) eqn:E;
        [discriminate |].
      apply orb_false_iff in E as [E1 E2].
      destruct (posOfInt_in_range axisPos) as [p ->]; [lia | discriminate].
  - intros axisPos margin on.
    unfold setCanvasMargin, setAlignCanvasToScale, engineSetCanvasMargin,
      engineSetAlignCanvas.
    destruct ((axisPos >=? 0) && (axisPos <? NumAxisPositions)) eqn:Ep.
    + destruct (Hrange _ Ep) as [p ->]. apply andb_true_iff in Ep as [E1 E2].
      destruct (Z.eqb_spec axisPos (-1)) as [-> | _]; [discriminate E1 |].
      split; [discriminate |]. split; [discriminate |].
      unfold NumAxisPositions in *. lia.
    + split; [destruct (axisPos =? -1); discriminate |].
      split; [discriminate |]. intros _. split; [reflexivity |].
      intros Hne. apply Z.eqb_neq in Hne. rewrite Hne. reflexivity.
Qed.

Lemma accessors_total_witness :
  scaleRect ex_layout (mkAxisId 2 7) = Done QRectF.null
  /\ setScaleRect (mkAxisId 2 7) ex_rect ex_layout = Done ex_layout
  /\ canvasMargin ex_layout 4 = Done 0
  /\ alignCanvasToScale ex_layout (-1) = Done false.
Proof.
  destruct (accessors_total ex_layout) as (H1 & H2 & _ & _ & _).
  destruct (H1 (mkAxisId 2 7) ex_rect) as [Ha Hb].
  - intros (p & Hp & Hi). vm_compute in Hp. injection Hp as <-.
    vm_compute in Hi. destruct Hi as [_ Hi]. discriminate Hi.
  - destruct (H2 4) as [Hc _]; [right; vm_compute; discriminate |].
    destruct (H2 (-1)) as [_ Hd]; [left; reflexivity |].
    repeat split; assumption.
Defined.

(** * Further properties of the layout *)

(** X1. [setCanvasMargin] followed by [canvasMargin]. A margin below -1
    is stored as -1. For a position of the enumeration the margin of
    this position is replaced and the other three are kept; for the
    position -1 all four are replaced. The alignment flags are kept. *)
Theorem setCanvasMargin_canvasMargin (margin axisPos : Z) (d d' : PrivateData) :
  setCanvasMargin margin axisPos d = Done d' ->
  (forall p, axisPos = posIndex p ->
     canvasMargin d' axisPos = Done (Z.max margin (-1))
     /\ forall q, q <> p ->
          canvasMargin d' (posIndex q) = canvasMargin d (posIndex q))
  /\ (axisPos = -1 ->
      forall q, canvasMargin d' (posIndex q) = Done (Z.max margin (-1)))
  /\ (forall q, alignCanvasToScale d' q = alignCanvasToScale d q).
Proof.
  intros H.
  assert (Hm : (if margin <? -1 then -1 else margin) = Z.max margin (-1)).
  { destruct (Z.ltb_spec margin (-1)); lia. }
  unfold setCanvasMargin in H. rewrite Hm in H.
  split; [|split].
  - intros p ->.
    assert (Hp : posOfInt (posIndex p) = Some p) by (apply posOfInt_Some; reflexivity).
    assert (Hr : ((posIndex p =? -1) = false)
                 /\ ((posIndex p >=? 0) && (posIndex p <? NumAxisPositions)) = true).
    { destruct p; split; reflexivity. }
    destruct Hr as [Hr1 Hr2]. rewrite Hr1, Hr2 in H.
    unfold engineSetCanvasMargin in H. rewrite Hp in H. cbn in H.
    injection H as <-.
    split.
    + unfold canvasMargin, engineCanvasMargin. rewrite Hp.
      destruct p; cbn; reflexivity.
    + intros q Hq. unfold canvasMargin, engineCanvasMargin.
      assert (Hq' : posOfInt (posIndex q) = Some q) by (apply posOfInt_Some; reflexivity).
      rewrite Hq'. destruct q, p; try congruence; reflexivity.
  - intros ->. cbn in H. injection H as <-.
    intros q. destruct q; reflexivity.
  - intros q. unfold alignCanvasToScale, engineAlignCanvas.
    destruct ((q <? 0) || (q >=? NumAxisPositions)); [reflexivity|].
    destruct (posOfInt q) as [p|]; [|reflexivity]. cbn.
    destruct (axisPos =? -1).
    + injection H as <-. reflexivity.
    + destruct ((axisPos >=? 0) && (axisPos <? NumAxisPositions)).
      * unfold engineSetCanvasMargin in H.
        destruct (posOfInt axisPos) as [p'|]; [|discriminate].
        cbn in H. injection H as <-. reflexivity.
      * injection H as <-. reflexivity.
Qed.

Lemma setCanvasMargin_canvasMargin_witness :
  exists d', setCanvasMargin (-7) 2 ex_layout = Done d'
    /\ canvasMargin d' 2 = Done (-1) /\ canvasMargin d' 0 = Done 4.
Proof.
  destruct (setCanvasMargin (-7) 2 ex_layout) as [d'| |] eqn:E;
    [|vm_compute in E; discriminate..].
  exists d'. split; [reflexivity|].
  destruct (setCanvasMargin_canvasMargin (-7) 2 ex_layout d' E) as [H _].
  destruct (H xBottom eq_refl) as [H1 H2].
  split; [exact H1|].
  exact (H2 yLeft ltac:(discriminate)).
Defined.

(** X2. [setAlignCanvasToScale] followed by [alignCanvasToScale]: for a
    position of the enumeration the flag of this position is replaced
    and the other three are kept; [setAlignCanvasToScales] replaces all
    four. Neither changes a canvas margin. *)
Theorem setAlignCanvasToScale_alignCanvasToScale (on : bool) (d : PrivateData) :
  (forall p d', setAlignCanvasToScale (posIndex p) on d = Done d' ->
     alignCanvasToScale d' (posIndex p) = Done on
     /\ (forall q, q <> p ->
           alignCanvasToScale d' (posIndex q) = alignCanvasToScale d (posIndex q))
     /\ forall q, canvasMargin d' q = canvasMargin d q)
  /\ (forall q, alignCanvasToScale (setAlignCanvasToScales on d) (posIndex q)
                = Done on)
  /\ (forall q, canvasMargin (setAlignCanvasToScales on d) q = canvasMargin d q).
Proof.
  split; [|split].
  - intros p d' H. unfold setAlignCanvasToScale in H.
    assert (Hp : posOfInt (posIndex p) = Some p) by (apply posOfInt_Some; reflexivity).
    assert (Hr : ((posIndex p >=? 0) && (posIndex p <? NumAxisPositions)) = true)
      by (destruct p; reflexivity).
    rewrite Hr in H. unfold engineSetAlignCanvas in H. rewrite Hp in H.
    cbn in H. injection H as <-.
    split; [|split].
    + unfold alignCanvasToScale, engineAlignCanvas. rewrite Hp.
      destruct p; reflexivity.
    + intros q Hq. unfold alignCanvasToScale, engineAlignCanvas.
      assert (Hq' : posOfInt (posIndex q) = Some q) by (apply posOfInt_Some; reflexivity).
      rewrite Hq'. destruct q, p; try congruence; reflexivity.
    + intros q. reflexivity.
  - intros q. destruct q; reflexivity.
  - intros q. reflexivity.
Qed.

(** X3. [setLegendPosition] followed by [legendPosition]: a value of the
    enumeration is stored; for any other value the call changes nothing
    at all, the ratio included. [setLegendRatio] keeps the position. No
    call changes the spacing, a canvas margin or an alignment flag. *)
Theorem setLegendPosition_legendPosition (ratio : float) (d : PrivateData) :
  (forall p, legendPosition (setLegendPosition (legendPosIndex p) ratio d) = p)
  /\ (forall pos, pos < 0 \/ 3 < pos -> setLegendPosition pos ratio d = d)
  /\ legendPosition (setLegendRatio ratio d) = legendPosition d
  /\ (forall pos,
        let d' := setLegendPosition pos ratio d in
        spacing d' = spacing d
        /\ d_canvasMargin (layoutEngine d') = d_canvasMargin (layoutEngine d)
        /\ d_alignCanvas (layoutEngine d') = d_alignCanvas (layoutEngine d)
        /\ titleRect d' = titleRect d /\ footerRect d' = footerRect d
        /\ legendRect d' = legendRect d /\ canvasRect d' = canvasRect d
        /\ scaleRects d' = scaleRects d).
Proof.
  split; [|split; [|split]].
  - intros p. apply (setLegendPosition_ratio p ratio d).
  - intros pos Hpos. unfold setLegendPosition.
    assert (E : legendPosOfInt pos = None).
    { unfold legendPosOfInt.
      destruct (Z.eqb_spec pos 0); [lia|].
      destruct (Z.eqb_spec pos 1); [lia|].
      destruct (Z.eqb_spec pos 2); [lia|].
      destruct (Z.eqb_spec pos 3); [lia|]. reflexivity. }
    rewrite E. reflexivity.
  - unfold setLegendRatio.
    apply (setLegendPosition_ratio (legendPosition d) ratio d).
  - intros pos d'. unfold d', setLegendPosition.
    destruct (legendPosOfInt pos) as [[| | |]|]; cbn; repeat split; reflexivity.
Qed.

(** X4. [setScaleRect] followed by [scaleRect]: for a valid identifier
    the rectangle that was set is the one returned, the rectangle of
    every other identifier is the one it was, and the other rectangles
    and the configuration are kept. *)
Theorem setScaleRect_scaleRect (d : PrivateData) (axisId : QwtAxisId)
    (rect : QRectF.t) :
  validAxisId d axisId ->
  exists d', setScaleRect axisId rect d = Done d'
    /\ scaleRect d' axisId = Done rect
    /\ (forall other, (pos other <> pos axisId \/ id other <> id axisId) ->
          scaleRect d' other = scaleRect d other)
    /\ (forall p, length (getAt (scaleRects d') p) = length (getAt (scaleRects d) p))
    /\ titleRect d' = titleRect d /\ footerRect d' = footerRect d
    /\ legendRect d' = legendRect d /\ canvasRect d' = canvasRect d
    /\ layoutEngine d' = layoutEngine d.
Proof.
  intros (p & Hp & Hid).
  assert (Hpos : pos axisId = posIndex p) by (apply posOfInt_Some; exact Hp).
  assert (Hr : ((pos axisId >=? 0) && (pos axisId <? NumAxisPositions)) = true).
  { rewrite Hpos. destruct p; reflexivity. }
  assert (Hi : ((id axisId >=? 0) && (id axisId <? Z.of_nat (length (getAt (scaleRects d) p)))) = true).
  { apply andb_true_intro. split; [apply Z.geb_le | apply Z.ltb_lt]; lia. }
  assert (Hi' : ((0 <=? id axisId) && (id axisId <? Z.of_nat (length (getAt (scaleRects d) p)))) = true).
  { apply andb_true_intro. split; [apply Z.leb_le | apply Z.ltb_lt]; lia. }
  set (v := getAt (scaleRects d) p) in *.
  set (v' := <[Z.to_nat (id axisId) := rect]> v).
  exists (withScaleRects (setAt (scaleRects d) p v') d).
  assert (Hlen : length v' = length v) by apply length_insert.
  split; [|split; [|split; [|split]]].
  - unfold setScaleRect. rewrite Hr, Hp. cbn. fold v. rewrite Hi.
    unfold assignAt. rewrite Hi'. reflexivity.
  - unfold scaleRect. rewrite Hr, Hp. cbn.
    rewrite getAt_setAt_same, Hlen, Hi. unfold readAt.
    assert (E0 : (0 <=? id axisId) = true) by (apply Z.leb_le; lia).
    rewrite E0. unfold v'.
    rewrite list_lookup_insert_eq by (apply Nat2Z.inj_lt; rewrite Z2Nat.id; lia).
    reflexivity.
  - intros other Hother. unfold scaleRect.
    destruct ((pos other >=? 0) && (pos other <? NumAxisPositions)); [|reflexivity].
    destruct (posOfInt (pos other)) as [q|] eqn:Hq; [|reflexivity]. cbn.
    destruct (Position_eq_dec p q) as [<-|Hne].
    + rewrite getAt_setAt_same, Hlen. fold v.
      destruct ((id other >=? 0) && (id other <? Z.of_nat (length v))) eqn:Eo;
        [|reflexivity].
      apply andb_prop in Eo. destruct Eo as [Eo1 Eo2].
      apply Z.geb_le in Eo1. apply Z.ltb_lt in Eo2.
      unfold readAt. destruct (0 <=? id other); [|reflexivity].
      unfold v'. rewrite list_lookup_insert_ne; [reflexivity|].
      intros Heq. apply Z2Nat.inj in Heq; [|lia..].
      destruct Hother as [Ho|Ho]; [|congruence].
      apply Ho. apply posOfInt_Some in Hq. congruence.
    + rewrite getAt_setAt_other by assumption. reflexivity.
  - intros q. cbn. destruct (Position_eq_dec p q) as [<-|Hne].
    + rewrite getAt_setAt_same. exact Hlen.
    + rewrite getAt_setAt_other by assumption. reflexivity.
  - repeat split; reflexivity.
Qed.

Lemma setScaleRect_scaleRect_witness :
  exists d', setScaleRect (mkAxisId 2 0) ex_small_rect ex_layout = Done d'
    /\ scaleRect d' (mkAxisId 2 0) = Done ex_small_rect.
Proof.
  destruct (setScaleRect_scaleRect ex_layout (mkAxisId 2 0) ex_small_rect)
    as (d' & H1 & H2 & _).
  - exists xBottom. split; [reflexivity | vm_compute; split; [discriminate | reflexivity]].
  - exists d'. split; assumption.
Defined.

(** X5. [invalidate] resets the geometry and nothing else: the title,
    footer, legend and canvas rectangles are null, [scaleRect] returns
    the null rectangle for every identifier, each position is left with
    one rectangle, the configuration and the snapshot are kept, and a
    second call changes nothing. *)
Theorem invalidate_resets (d : PrivateData) :
  let d' := invalidate d in
  titleRect d' = QRectF.null /\ footerRect d' = QRectF.null
  /\ legendRect d' = QRectF.null /\ canvasRect d' = QRectF.null
  /\ (forall axisId, scaleRect d' axisId = Done QRectF.null)
  /\ (forall p, getAt (scaleRects d') p = [QRectF.null])
  /\ layoutEngine d' = layoutEngine d /\ layoutData d' = layoutData d
  /\ invalidate d' = d'.
Proof.
  intros d'.
  assert (Hone : forall l : list QRectF.t,
            <[0%nat := QRectF.null]> (resizeV 1 QRectF.null l) = [QRectF.null]).
  { intros l. destruct l as [|r l]; reflexivity. }
  assert (Hv : forall p, getAt (scaleRects d') p = [QRectF.null]).
  { intros p. unfold d', invalidate. destruct p; cbn; apply Hone. }
  repeat match goal with |- _ /\ _ => split end; try reflexivity.
  - intros axisId. unfold scaleRect.
    destruct ((pos axisId >=? 0) && (pos axisId <? NumAxisPositions)) eqn:Er;
      [|reflexivity].
    apply andb_prop in Er. destruct Er as [Er1 Er2].
    apply Z.geb_le in Er1. apply Z.ltb_lt in Er2.
    destruct (posOfInt_in_range (pos axisId)) as [p Hp]; [lia|].
    rewrite Hp. cbn.
    change (invalidate d) with d'. rewrite Hv. cbn.
    change (Z.of_nat 1) with 1.
    destruct ((id axisId >=? 0) && (id axisId <? 1)) eqn:E; [|reflexivity].
    apply andb_prop in E. destruct E as [E1 E2].
    apply Z.geb_le in E1. apply Z.ltb_lt in E2.
    assert (id axisId = 0) as -> by lia. reflexivity.
  - exact Hv.
  - unfold invalidate at 1. fold d'. rewrite !Hv.
    unfold d', invalidate. rewrite !Hone. reflexivity.
Qed.

(** X6. The layout the constructor makes, whatever the uninitialised
    members held: the legend is at the bottom with the ratio 0.33, every
    canvas margin is 4, the canvas is aligned to no scale, the spacing
    is 5, and the geometry is the one [invalidate] leaves. *)
Theorem construct_defaults (raw : PrivateData) :
  exists d, construct raw = Done d
    /\ legendPosition d = BottomLegend /\ legendRatio d = 0.33%float
    /\ spacing d = 5
    /\ (forall p, canvasMargin d (posIndex p) = Done 4
                  /\ alignCanvasToScale d (posIndex p) = Done false)
    /\ noAlignCanvas (layoutEngine d)
    /\ titleRect d = QRectF.null /\ footerRect d = QRectF.null
    /\ legendRect d = QRectF.null /\ canvasRect d = QRectF.null
    /\ forall p, getAt (scaleRects d) p = [QRectF.null].
Proof.
  eexists. split; [reflexivity|].
  split; [reflexivity|]. split; [reflexivity|]. split; [reflexivity|].
  split; [intros p; destruct p; split; reflexivity|].
  split; [intros p; destruct p; reflexivity|].
  split; [reflexivity|]. split; [reflexivity|].
  split; [reflexivity|]. split; [reflexivity|].
  intros p. destruct raw as [t f l [[|? ?] [|? ?] [|? ?] [|? ?]] c ld e];
    destruct p; reflexivity.
Qed.

(** X7. The tick offset the snapshot records for a position is the one
    of its first visible axis, whatever axes follow: the margin of the
    scale widget, and the maximal tick length when its scale draw has
    ticks. For a position without a visible axis it is zero. *)
Theorem init_tickOffset_first_visible (plot : QwtPlot) (rect : QRectF.t)
    (old : QwtPlotLayoutData.t) (p : Position) :
  getAt (tickOffset (init plot rect old)) p =
    match List.find axisVisible (getAt (plot_axes plot) p) with
    | Some a => widgetTickOffset (axisWidget a)
    | None => 0%Q
    end.
Proof.
  assert (H : forall q, snd (snd (initPosition plot old q)) =
            match List.find axisVisible (getAt (plot_axes plot) q) with
            | Some a => widgetTickOffset (axisWidget a)
            | None => 0%Q
            end).
  { intros q. unfold initPosition.
    rewrite initAxes_tickOffset; [reflexivity | apply length_resizeV | lia]. }
  destruct p; [exact (H yLeft) | exact (H yRight) | exact (H xBottom) | exact (H xTop)].
Qed.

(** X8. [activate] indexes the rectangles of the axes by the axes of the
    plot and the dimensions of the axes by the rectangles: it returns
    only when the layout holds, for each position, exactly as many axis
    rectangles as the plot has axes, and then it keeps their number. So
    [activate] right after [invalidate], which leaves one rectangle for
    each position, returns only for a plot with one axis at each
    position. *)
Theorem activate_needs_sizes (fuel : nat) (plot : QwtPlot) (plotRect : QRectF.t)
    (options : Z) (d : PrivateData) :
  (forall d', activate fuel plot plotRect options d = Done d' ->
     forall p, length (getAt (scaleRects d) p) = axesCount plot p
               /\ length (getAt (scaleRects d') p) = axesCount plot p)
  /\ (forall d', activate fuel plot plotRect options (invalidate d) = Done d' ->
        forall p, axesCount plot p = 1%nat).
Proof.
  assert (Hmain : forall d0 d', activate fuel plot plotRect options d0 = Done d' ->
     forall p, length (getAt (scaleRects d0) p) = axesCount plot p
               /\ length (getAt (scaleRects d') p) = axesCount plot p).
  { intros d0 d' H p.
    apply activate_inv in H. cbv zeta in H.
    destruct H as (lr & rect1 & dims & tr & rect2 & fr & rect3 & rects
                   & _ & Hdims & _ & _ & Hscales & Halign & _).
    apply layoutDimensions_sized in Hdims; [|apply init_wellFormed].
    specialize (Hdims p). rewrite init_numAxes in Hdims.
    pose proof (alignScales_sizes _ _ _ _ _ Halign p) as Hge.
    rewrite init_numAxes in Hge. cbn [snd] in Hge.
    apply alignScales_keepsInvalid in Halign. destruct Halign as [Hlen _].
    specialize (Hlen p). cbn [snd] in Hlen.
    specialize (Hscales p).
    apply layoutScales_lookup in Hscales. destruct Hscales as [Hl Hlook].
    assert (Hle : (length (getAt (scaleRects d0) p) <= axesCount plot p)%nat).
    { destruct (getAt (scaleRects d0) p) as [|r0 l] eqn:El; [cbn; lia|].
      destruct (lookup_lt_is_Some_2 (r0 :: l) (length l)) as [r Hr]; [cbn; lia|].
      destruct (Hlook _ _ Hr) as (dim & Hdim & _).
      apply lookup_lt_Some in Hdim. cbn in Hdim |- *. lia. }
    lia. }
  split.
  - apply Hmain.
  - intros d' H p. destruct (Hmain _ _ H p) as [H1 _].
    rewrite <- H1.
    destruct p; cbn; destruct d as [? ? ? [[|? ?] [|? ?] [|? ?] [|? ?]] ? ? ?];
      reflexivity.
Qed.

(** X9. After [update] the layout holds for each position exactly as
    many axis rectangles as the plot has axes, and so does the snapshot;
    the configuration is the one before. *)
Theorem update_sizes (fuel : nat) (plot : QwtPlot) (plotRect : QRectF.t)
    (options : Z) (d d' : PrivateData) :
  update fuel plot plotRect options d = Done d' ->
  (forall p, length (getAt (scaleRects d') p) = axesCount plot p
             /\ numAxes (layoutData d') p = axesCount plot p)
  /\ layoutEngine d' = layoutEngine d.
Proof.
  intros H. unfold update in H.
  pose proof (activate_keeps _ _ _ _ _ _ H) as [He Hld].
  destruct (reset_fields plot d) as (_ & _ & _ & _ & _ & He0 & _).
  cbv zeta in He0.
  split; [|congruence].
  intros p. split.
  - apply activate_inv in H. cbv zeta in H.
    destruct H as (lr & rect1 & dims & tr & rect2 & fr & rect3 & rects
                   & _ & _ & _ & _ & Hscales & Halign & _).
    apply alignScales_keepsInvalid in Halign. destruct Halign as [Hlen _].
    specialize (Hlen p). cbn [snd] in Hlen. rewrite Hlen.
    specialize (Hscales p). apply layoutScales_lookup in Hscales.
    destruct Hscales as [Hl _]. rewrite Hl.
    destruct (reset_fields plot d) as (_ & _ & _ & _ & _ & _ & Hr).
    cbv zeta in Hr. rewrite Hr. apply length_replicate.
  - rewrite Hld. apply init_numAxes.
Qed.

Lemma update_sizes_witness :
  exists d', update 5 ex_plot ex_rect 0 ex_layout = Done d'
    /\ length (getAt (scaleRects d') xBottom) = 1%nat.
Proof.
  destruct (update 5 ex_plot ex_rect 0 ex_layout) as [d'| |] eqn:E;
    [|vm_compute in E; discriminate..].
  exists d'. split; [reflexivity|].
  exact (proj1 (proj1 (update_sizes 5 ex_plot ex_rect 0 ex_layout d' E) xBottom)).
Defined.

(** X10. [update] forgets the geometry it finds: two layouts with the
    same configuration and the same snapshot get the same result,
    whatever rectangles they held before. *)
Theorem update_forgets_geometry (fuel : nat) (plot : QwtPlot)
    (plotRect : QRectF.t) (options : Z) (d1 d2 : PrivateData) :
  layoutEngine d1 = layoutEngine d2 -> layoutData d1 = layoutData d2 ->
  update fuel plot plotRect options d1 = update fuel plot plotRect options d2.
Proof.
  intros He Hd. unfold update.
  destruct (reset_fields plot d1) as (T1 & F1 & L1 & _ & D1 & E1 & S1).
  destruct (reset_fields plot d2) as (T2 & F2 & L2 & _ & D2 & E2 & S2).
  cbv zeta in *.
  apply activate_ext; try congruence.
  - destruct (scaleRects (resizeScaleRects plot (invalidate d1))) as [a b c f] eqn:A1.
    destruct (scaleRects (resizeScaleRects plot (invalidate d2))) as [a' b' c' f'] eqn:A2.
    pose proof (S1 yLeft) as X1. pose proof (S2 yLeft) as Y1.
    pose proof (S1 yRight) as X2. pose proof (S2 yRight) as Y2.
    pose proof (S1 xBottom) as X3. pose proof (S2 xBottom) as Y3.
    pose proof (S1 xTop) as X4. pose proof (S2 xTop) as Y4.
    cbn in *. congruence.
Qed.

Lemma update_forgets_geometry_witness :
  update 5 ex_plot ex_rect 0 (setTitleRect ex_small_rect ex_layout)
  = update 5 ex_plot ex_rect 0 ex_layout.
Proof.
  apply (update_forgets_geometry 5 ex_plot ex_rect 0
           (setTitleRect ex_small_rect ex_layout) ex_layout); reflexivity.
Defined.

(** X11. [alignScales] never moves an edge of the canvas outwards: the
    canvas it returns lies within the one it was given. When the canvas
    is aligned to no scale, as after the constructor, the canvas is
    returned as it is. *)
Theorem alignScales_shrinks_canvas (e : QwtPlotLayoutEngine.t) (options : Z)
    (layoutData : QwtPlotLayoutData.t) (c c' : QRectF.t)
    (sr sr' : PosArray (list QRectF.t)) :
  alignScales e options layoutData (c, sr) = Done (c', sr') ->
  within c' c /\ (noAlignCanvas e -> c' = c).
Proof.
  intros H. apply alignScales_moves in H. destruct H as (W & E & _).
  split; assumption.
Qed.

Lemma alignScales_shrinks_canvas_witness :
  exists c' sr',
    alignScales ex_engine 0 ex_snapshot (ex_canvas, ex_axis_rects) = Done (c', sr')
    /\ within c' ex_canvas.
Proof.
  destruct (alignScales ex_engine 0 ex_snapshot (ex_canvas, ex_axis_rects))
    as [[c' sr']| |] eqn:E; [|vm_compute in E; discriminate..].
  exists c', sr'. split; [reflexivity|].
  exact (proj1 (alignScales_shrinks_canvas ex_engine 0 ex_snapshot
                  ex_canvas c' ex_axis_rects sr' E)).
Defined.

(** X12. [alignScales] moves the ends of an axis rectangle along the axis
    only. At a position the canvas is not aligned to, the rectangle of
    every axis keeps its extent across the axis: a horizontal axis its
    vertical position and its height, a vertical axis its horizontal
    position and its width. *)
Theorem alignScales_keeps_thickness (e : QwtPlotLayoutEngine.t) (options : Z)
    (layoutData : QwtPlotLayoutData.t) (c c' : QRectF.t)
    (sr sr' : PosArray (list QRectF.t)) :
  alignScales e options layoutData (c, sr) = Done (c', sr') ->
  forall p, getAt (d_alignCanvas e) p = false ->
    forall i r, getAt sr p !! i = Some r ->
      exists r', getAt sr' p !! i = Some r'
        /\ if qwtIsXAxis p
           then QRectF.y r' = QRectF.y r /\ QRectF.height r' = QRectF.height r
           else QRectF.x r' = QRectF.x r /\ QRectF.width r' = QRectF.width r.
Proof.
  intros H p Hp i r Hr. apply alignScales_moves in H.
  destruct H as (_ & _ & K). exact (K p Hp i r Hr).
Qed.

Lemma alignScales_keeps_thickness_witness :
  exists c' sr' r',
    alignScales ex_engine 0 ex_snapshot (ex_canvas, ex_axis_rects) = Done (c', sr')
    /\ getAt sr' xBottom !! 0%nat = Some r'
    /\ QRectF.y r' = 570%Q /\ QRectF.height r' = 30%Q.
Proof.
  destruct (alignScales ex_engine 0 ex_snapshot (ex_canvas, ex_axis_rects))
    as [[c' sr']| |] eqn:E; [|vm_compute in E; discriminate..].
  destruct (alignScales_keeps_thickness ex_engine 0 ex_snapshot
              ex_canvas c' ex_axis_rects sr' E xBottom eq_refl 0%nat
              (QRectF.mk 0 570 790 30) eq_refl) as (r' & Hr & Hy & Hh).
  exists c', sr', r'. repeat split; assumption.
Defined.

(** X13. The axes around the canvas. After [update] of a layout whose
    canvas is aligned to no scale, the canvas is what the axes leave of
    the rectangle [rect1] the solver was given (the plot rectangle when
    there is no legend, less title and footer): and every axis with a
    positive dimension has a rectangle that is as thick as its dimension
    and lies on its side of the canvas, away from it by the dimensions
    of the axes of the same position before it. *)
Theorem update_axes_stacked (fuel : nat) (plot : QwtPlot) (plotRect : QRectF.t)
    (options : Z) (d d' : PrivateData) :
  noAlignCanvas (layoutEngine d) ->
  update fuel plot plotRect options d = Done d' ->
  exists rect1 dims,
    layoutDimensions fuel (layoutEngine d) options (layoutData d') rect1 = Done dims
    /\ (testFlag options IgnoreLegend = true \/ hasLegend plot = false ->
        rect1 = plotRect)
    /\ QRectF.left (canvasRect d')
       = (QRectF.left rect1 + inject_Z (dimAxes dims yLeft))%Q
    /\ QRectF.width (canvasRect d')
       = (QRectF.width rect1 - inject_Z (dimYAxes dims))%Q
    /\ forall p i dim, dimVec dims p !! i = Some dim -> 0 < dim ->
         exists r, getAt (scaleRects d') p !! i = Some r
           /\ let off := inject_Z (fold_left Z.add (take i (dimVec dims p)) 0) in
              let c := canvasRect d' in
              match p with
              | yLeft => QRectF.width r = inject_Z dim
                         /\ (QRectF.right r == QRectF.left c - off)%Q
              | yRight => QRectF.width r = inject_Z dim
                          /\ (QRectF.left r == QRectF.right c + off)%Q
              | xBottom => QRectF.height r = inject_Z dim
                           /\ (QRectF.top r == QRectF.bottom c + off)%Q
              | xTop => QRectF.height r = inject_Z dim
                        /\ (QRectF.bottom r == QRectF.top c - off)%Q
              end.
Proof.
  intros Hno H.
  apply update_structure in H. cbv zeta in H.
  destruct H as (lr & rect1 & dims & rect2 & rect3 & rects
                 & H1 & H2 & H3 & H4 & H5 & H6 & _ & Hld).
  exists rect1, dims.
  split; [exact H2|].
  split.
  { intros Hl.
    assert (E : negb (testFlag options IgnoreLegend) && hasLegend plot = false).
    { destruct Hl as [-> | ->]; [reflexivity | apply andb_false_r]. }
    rewrite E in H1. congruence. }
  pose proof (alignScales_moves _ _ _ _ _ _ _ H6) as (_ & Hc & Hk).
  specialize (Hc Hno).
  assert (X3 : QRectF.xp rect3 = QRectF.xp rect1 /\ QRectF.w rect3 = QRectF.w rect1).
  { assert (X2 : QRectF.xp rect2 = QRectF.xp rect1 /\ QRectF.w rect2 = QRectF.w rect1).
    { destruct (dimTitle dims >? 0); injection H3 as _ ->; split; reflexivity. }
    destruct X2 as [<- <-].
    destruct (dimFooter dims >? 0); injection H4 as _ ->; split; reflexivity. }
  destruct X3 as [Xx Xw].
  split; [rewrite Hc; unfold innerRect, QRectF.left, QRectF.x; cbn; rewrite Xx; reflexivity|].
  split; [rewrite Hc; unfold innerRect, QRectF.width; cbn; rewrite Xw; reflexivity|].
  intros p i dim Hdim Hpos.
  assert (Hwf : wellFormed (layoutData d')) by (rewrite Hld; apply init_wellFormed).
  pose proof (layoutDimensions_sized _ _ _ _ _ _ Hwf H2 p) as Hsz.
  rewrite Hld, init_numAxes in Hsz.
  specialize (H5 p). apply layoutScales_lookup in H5. destruct H5 as [_ Hlook].
  assert (Hi : (i < axesCount plot p)%nat).
  { rewrite <- Hsz. eapply lookup_lt_Some. exact Hdim. }
  destruct (Hlook i QRectF.null) as (dim' & Hd' & Hr0).
  { apply lookup_replicate_2. exact Hi. }
  cbn [Nat.add] in Hd'. rewrite Hdim in Hd'. injection Hd' as <-.
  assert (Ez : (dim =? 0) = false) by (apply Z.eqb_neq; lia).
  rewrite Ez in Hr0. rewrite drop_0, Z.add_0_l in Hr0.
  destruct (Hk p (Hno p) i _ Hr0) as (r & Hr & Hs).
  exists r. split; [exact Hr|].
  cbv zeta. rewrite Hc.
  pose proof (placeScale_across (innerRect dims rect3) p
                (0 + fold_left Z.add (take i (dimVec dims p)) 0) dim Hpos) as Hp.
  cbv zeta in Hp. rewrite Z.add_0_l in Hp.
  set (c := innerRect dims rect3) in *.
  set (off := inject_Z (fold_left Z.add (take i (dimVec dims p)) 0)) in *.
  unfold sameAcross in Hs.
  destruct p; cbn [qwtIsXAxis] in Hs; destruct Hs as [S1 S2]; destruct Hp as [P1 P2];
    unfold QRectF.width, QRectF.height, QRectF.right, QRectF.left,
           QRectF.top, QRectF.bottom in *;
    rewrite S1, S2, P1, P2; (split; [reflexivity | ring]).
Qed.

Lemma update_axes_stacked_witness :
  exists d' rect1 dims,
    update 5 ex_plot ex_rect 0 ex_layout = Done d'
    /\ layoutDimensions 5 (layoutEngine ex_layout) 0 (layoutData d') rect1
       = Done dims
    /\ rect1 = ex_rect
    /\ QRectF.width (canvasRect d')
       = (QRectF.width rect1 - inject_Z (dimYAxes dims))%Q.
Proof.
  destruct (update 5 ex_plot ex_rect 0 ex_layout) as [d'| |] eqn:E;
    [|vm_compute in E; discriminate..].
  destruct (update_axes_stacked 5 ex_plot ex_rect 0 ex_layout d')
    as (rect1 & dims & Hd & Hr1 & _ & Hw & _).
  - intros p. destruct p; reflexivity.
  - exact E.
  - exists d', rect1, dims. split; [reflexivity|]. split; [exact Hd|].
    split; [apply Hr1; right; reflexivity | exact Hw].
Defined.

(** X14. The title and the footer. After [update] of a layout whose
    canvas is aligned to no scale, [rect1] being the rectangle the
    solver was given (the plot rectangle when there is no legend): a
    title of positive dimension lies at the top of [rect1] and is as
    high as its dimension, the canvas begins below it after the spacing
    and the top axes; a footer of positive dimension ends at the bottom
    of [rect1], the canvas ends above it before the bottom axes and the
    spacing. Horizontally both span [rect1] when the plot has as many
    visible left as right axes, and the canvas otherwise. A title or
    footer whose dimension is not positive has the null rectangle. *)
Theorem update_labels_placed (fuel : nat) (plot : QwtPlot) (plotRect : QRectF.t)
    (options : Z) (d d' : PrivateData) :
  noAlignCanvas (layoutEngine d) ->
  update fuel plot plotRect options d = Done d' ->
  exists rect1 dims,
    layoutDimensions fuel (layoutEngine d) options (layoutData d') rect1 = Done dims
    /\ (testFlag options IgnoreLegend = true \/ hasLegend plot = false ->
        rect1 = plotRect)
    /\ (let t := titleRect d' in
        let c := canvasRect d' in
        if dimTitle dims >? 0 then
          QRectF.top t = QRectF.top rect1
          /\ QRectF.height t = inject_Z (dimTitle dims)
          /\ (QRectF.top c == QRectF.bottom t + inject_Z (spacing d)
                              + inject_Z (dimAxes dims xTop))%Q
          /\ (if hasSymmetricYAxes (layoutData d')
              then QRectF.left t = QRectF.left rect1
                   /\ QRectF.width t = QRectF.width rect1
              else QRectF.left t = QRectF.left c
                   /\ QRectF.width t = QRectF.width c)
        else t = QRectF.null)
    /\ (let f := footerRect d' in
        let c := canvasRect d' in
        if dimFooter dims >? 0 then
          (QRectF.bottom f == QRectF.bottom rect1)%Q
          /\ QRectF.height f = inject_Z (dimFooter dims)
          /\ (QRectF.top f == QRectF.bottom c + inject_Z (dimAxes dims xBottom)
                              + inject_Z (spacing d))%Q
          /\ (if hasSymmetricYAxes (layoutData d')
              then QRectF.left f = QRectF.left rect1
                   /\ QRectF.width f = QRectF.width rect1
              else QRectF.left f = QRectF.left c
                   /\ QRectF.width f = QRectF.width c)
        else f = QRectF.null).
Proof.
  intros Hno H.
  apply update_structure in H. cbv zeta in H.
  destruct H as (lr & rect1 & dims & rect2 & rect3 & rects
                 & H1 & H2 & H3 & H4 & _ & H6 & _ & _).
  exists rect1, dims.
  split; [exact H2|].
  split.
  { intros Hl.
    assert (E : negb (testFlag options IgnoreLegend) && hasLegend plot = false).
    { destruct Hl as [-> | ->]; [reflexivity | apply andb_false_r]. }
    rewrite E in H1. congruence. }
  pose proof (alignScales_moves _ _ _ _ _ _ _ H6) as (_ & Hc & _).
  specialize (Hc Hno). cbv zeta. rewrite Hc.
  unfold spacing.
  set (sp := inject_Z (d_spacing (layoutEngine d))).
  split.
  - destruct (dimTitle dims >? 0).
    + unfold placeTitle in H3. injection H3 as Ht Hr2. rewrite Ht.
      assert (Y3 : QRectF.yp rect3 = QRectF.yp rect2
                   /\ QRectF.xp rect3 = QRectF.xp rect2
                   /\ QRectF.w rect3 = QRectF.w rect2).
      { destruct (dimFooter dims >? 0); injection H4 as _ ->;
          repeat split; reflexivity. }
      destruct Y3 as (Y3 & X3 & W3).
      unfold innerRect, QRectF.top, QRectF.bottom, QRectF.height, QRectF.left,
        QRectF.width, QRectF.x, QRectF.y. cbn [QRectF.xp QRectF.yp QRectF.w QRectF.h].
      rewrite Y3, X3, W3, Hr2.
      destruct (negb (hasSymmetricYAxes (layoutData d'))) eqn:Es.
      * apply negb_true_iff in Es. rewrite Es. cbn.
        repeat split; try reflexivity; fold sp; ring.
      * apply negb_false_iff in Es. rewrite Es. cbn.
        repeat split; try reflexivity; fold sp; ring.
    + injection H3 as -> _. reflexivity.
  - assert (B2 : (QRectF.bottom rect2 == QRectF.bottom rect1)%Q
                 /\ QRectF.xp rect2 = QRectF.xp rect1
                 /\ QRectF.w rect2 = QRectF.w rect1).
    { destruct (dimTitle dims >? 0); injection H3 as _ ->;
        unfold QRectF.bottom; cbn; repeat split; try reflexivity; ring. }
    destruct B2 as (B2 & X2 & W2).
    destruct (dimFooter dims >? 0).
    + unfold placeFooter in H4. injection H4 as Hf Hr3. rewrite Hf, Hr3.
      unfold innerRect, QRectF.top, QRectF.bottom, QRectF.height, QRectF.left,
        QRectF.width, QRectF.x, QRectF.y in *.
      destruct (negb (hasSymmetricYAxes (layoutData d'))) eqn:Es.
      * apply negb_true_iff in Es. rewrite Es. cbn. fold sp.
        rewrite X2, W2.
        repeat split; try reflexivity.
        -- rewrite <- B2. ring.
        -- unfold dimXAxes, dimAxes, getAt. rewrite inject_Z_plus. ring.
      * apply negb_false_iff in Es. rewrite Es. cbn. fold sp.
        rewrite X2, W2.
        repeat split; try reflexivity.
        -- rewrite <- B2. ring.
        -- unfold dimXAxes, dimAxes, getAt. rewrite inject_Z_plus. ring.
    + injection H4 as -> _. reflexivity.
Qed.

Lemma update_labels_placed_witness :
  exists d' rect1 dims,
    update 5 ex_full_plot ex_rect IgnoreLegend ex_layout = Done d'
    /\ layoutDimensions 5 (layoutEngine ex_layout) IgnoreLegend (layoutData d')
         rect1 = Done dims
    /\ rect1 = ex_rect.
Proof.
  destruct (update 5 ex_full_plot ex_rect IgnoreLegend ex_layout) as [d'| |] eqn:E;
    [|vm_compute in E; discriminate..].
  destruct (update_labels_placed 5 ex_full_plot ex_rect IgnoreLegend ex_layout d')
    as (rect1 & dims & Hd & Hr1 & _).
  - intros p. destruct p; reflexivity.
  - exact E.
  - exists d', rect1, dims. split; [reflexivity|]. split; [exact Hd|].
    apply Hr1. left. reflexivity.
Defined.

(** X15. What is ignored or empty gets no room. After [update], the title
    rectangle is null when the option to ignore the title is set or the
    title text is empty, and the solver has left the dimension of the
    title at zero; the same holds for the footer; the legend rectangle
    is null when the option to ignore the legend is set or the plot has
    no legend or an empty one. *)
Theorem update_honours_ignore_flags (fuel : nat) (plot : QwtPlot)
    (plotRect : QRectF.t) (options : Z) (d d' : PrivateData) :
  update fuel plot plotRect options d = Done d' ->
  (testFlag options IgnoreTitle = true \/ noTitle plot ->
     titleRect d' = QRectF.null)
  /\ (testFlag options IgnoreFooter = true \/ noFooter plot ->
        footerRect d' = QRectF.null)
  /\ (testFlag options IgnoreLegend = true \/ hasLegend plot = false ->
        legendRect d' = QRectF.null)
  /\ (forall l e rect dims,
        labelOff options (layoutData d') l ->
        layoutDimensions fuel e options (layoutData d') rect = Done dims ->
        dimLabel l dims = 0).
Proof.
  intros H.
  assert (Hsolver : forall l e rect dims,
        labelOff options (layoutData d') l ->
        layoutDimensions fuel e options (layoutData d') rect = Done dims ->
        dimLabel l dims = 0).
  { intros l e rect dims Hoff Hd. unfold layoutDimensions in Hd.
    eapply layoutLoop_off; [exact Hoff | | exact Hd]. destruct l; reflexivity. }
  apply update_structure in H. cbv zeta in H.
  destruct H as (lr & rect1 & dims & rect2 & rect3 & rects
                 & H1 & H2 & H3 & H4 & _ & _ & H7 & Hld).
  split; [|split; [|split]].
  - intros Hoff.
    assert (Hz : dimTitle dims = 0).
    { apply (Hsolver Title _ _ _) with (2 := H2).
      destruct Hoff as [Hf|He]; [left; exact Hf|].
      right. rewrite Hld. exact He. }
    rewrite Hz in H3. cbn in H3. congruence.
  - intros Hoff.
    assert (Hz : dimFooter dims = 0).
    { apply (Hsolver Footer _ _ _) with (2 := H2).
      destruct Hoff as [Hf|He]; [left; exact Hf|].
      right. rewrite Hld. exact He. }
    rewrite Hz in H4. cbn in H4. congruence.
  - intros Hl.
    assert (E : negb (testFlag options IgnoreLegend) && hasLegend plot = false).
    { destruct Hl as [-> | ->]; [reflexivity | apply andb_false_r]. }
    rewrite E in H1. injection H1 as -> _.
    rewrite H7. reflexivity.
  - exact Hsolver.
Qed.

Lemma update_honours_ignore_flags_witness :
  exists d',
    update 5 ex_full_plot ex_rect (Z.lor IgnoreTitle IgnoreLegend) ex_layout = Done d'
    /\ titleRect d' = QRectF.null /\ footerRect d' = QRectF.null
    /\ legendRect d' = QRectF.null.
Proof.
  destruct (update 5 ex_full_plot ex_rect (Z.lor IgnoreTitle IgnoreLegend) ex_layout)
    as [d'| |] eqn:E; [|vm_compute in E; discriminate..].
  destruct (update_honours_ignore_flags 5 ex_full_plot ex_rect
              (Z.lor IgnoreTitle IgnoreLegend) ex_layout d' E) as (T & F & L & _).
  exists d'. split; [reflexivity|].
  split; [apply T; left; reflexivity|].
  split; [apply F; right; reflexivity | apply L; left; reflexivity].
Defined.

(** X16. The dimensions the solver returns are sufficient and not
    negative: measured at the lengths that these dimensions leave, no
    visible axis needs more than its dimension, and neither do the
    title and the footer unless they are ignored. *)
Theorem layoutDimensions_sufficient (fuel : nat) (e : QwtPlotLayoutEngine.t)
    (options : Z) (layoutData : QwtPlotLayoutData.t) (rect : QRectF.t)
    (dims : Dimensions) :
  wellFormed layoutData ->
  layoutDimensions fuel e options layoutData rect = Done dims ->
  (forall p i sd, getAt (scaleData layoutData) p !! i = Some sd ->
     isVisible sd = true ->
     exists d cur, axisDim e options layoutData rect dims p sd = Done d
       /\ dimAxis dims p i = Done cur /\ d <= cur)
  /\ (testFlag options IgnoreTitle = false ->
      heightForWidth Title layoutData options (QRectF.width rect) (dimYAxes dims)
      <= dimTitle dims)
  /\ (testFlag options IgnoreFooter = false ->
      heightForWidth Footer layoutData options (QRectF.width rect) (dimYAxes dims)
      <= dimFooter dims)
  /\ 0 <= dimTitle dims /\ 0 <= dimFooter dims
  /\ (forall p i cur, dimAxis dims p i = Done cur -> 0 <= cur).
Proof.
  intros Hwf H. unfold layoutDimensions in H.
  apply layoutLoop_monotone in H; [|exact Hwf | apply newDimensions_sized].
  destruct H as ((Ht & Hf & Hax) & _ & Hfix).
  apply layoutPass_fixed in Hfix. destruct Hfix as (F1 & F2 & F3).
  split; [|split; [|split; [|split; [|split]]]].
  - intros p i sd Hsd Hv.
    destruct (axesLoop_fixed _ _ _ _ _ _ (F3 p) i sd Hsd Hv) as (d & cur & Hd & Hc & Hle).
    exists d, cur. split; [exact Hd|]. split; [|exact Hle].
    unfold dimAxis. unfold dimVec in Hc. rewrite Hc. reflexivity.
  - intros Hflag. unfold labelStep in F1. rewrite Hflag in F1. cbn [negb fst] in F1.
    destruct (Z.gtb_spec
                (heightForWidth Title layoutData options (QRectF.width rect)
                   (dimYAxes dims)) (dimTitle dims)) as [Hgt|Hle];
      [discriminate | exact Hle].
  - intros Hflag. unfold labelStep in F2. rewrite Hflag in F2. cbn [negb fst] in F2.
    destruct (Z.gtb_spec
                (heightForWidth Footer layoutData options (QRectF.width rect)
                   (dimYAxes dims)) (dimFooter dims)) as [Hgt|Hle];
      [discriminate | exact Hle].
  - exact Ht.
  - exact Hf.
  - intros p i cur Hc. unfold dimAxis in Hc.
    destruct (getAt (dimAxisVector dims) p !! i) as [c|] eqn:Ec; [|discriminate].
    injection Hc as ->.
    destruct (Forall2_lookup_r _ _ _ _ _ (Hax p) Ec) as (x & Hx & Hle).
    assert (x = 0).
    { unfold dimVec, newDimensions in Hx.
      destruct p; cbn in Hx; apply lookup_replicate_1 in Hx; apply Hx. }
    lia.
Qed.

Lemma layoutDimensions_sufficient_witness :
  exists dims,
    layoutDimensions 5 ex_engine 0 ex_snapshot ex_rect = Done dims
    /\ 0 <= dimTitle dims.
Proof.
  destruct (layoutDimensions 5 ex_engine 0 ex_snapshot ex_rect) as [dims| |] eqn:E;
    [|vm_compute in E; discriminate..].
  exists dims. split; [reflexivity|].
  destruct (layoutDimensions_sufficient 5 ex_engine 0 ex_snapshot ex_rect dims
              (init_wellFormed ex_plot ex_rect (layoutData ex_layout)) E)
    as (_ & _ & _ & H & _).
  exact H.
Defined.

(** X17. A visible axis whose scale widget has no title gets exactly its
    dimension without title, or zero when that is negative, whatever
    the rectangle and the other axes are. *)
Theorem untitled_axis_thickness (fuel : nat) (e : QwtPlotLayoutEngine.t)
    (options : Z) (layoutData : QwtPlotLayoutData.t) (rect : QRectF.t)
    (dims : Dimensions) (p : Position) (i : nat) (sd : ScaleData)
    (sw : QwtScaleWidget) :
  layoutDimensions fuel e options layoutData rect = Done dims ->
  wellFormed layoutData ->
  getAt (scaleData layoutData) p !! i = Some sd -> isVisible sd = true ->
  scaleWidget sd = Some sw -> sw_titleIsEmpty sw = true ->
  dimAxis dims p i = Done (Z.max 0 (dimWithoutTitle sd)).
Proof.
  intros H Hwf Hsd Hv Hsw He.
  assert (Hdim : forall dims0, axisDim e options layoutData rect dims0 p sd
                               = Done (dimWithoutTitle sd)).
  { intros dims0. unfold axisDim. rewrite Hsw. cbn. rewrite He. reflexivity. }
  pose proof H as Hup. unfold layoutDimensions in Hup.
  apply (layoutLoop_keeps
           (fun ds => exists cur, dimVec ds p !! i = Some cur
                        /\ cur <= Z.max 0 (dimWithoutTitle sd))) in Hup.
  - destruct Hup as (cur & Hc & Hle).
    apply (layoutDimensions_sized _ _ _ _ _ _ Hwf) in H as Hsz.
    unfold layoutDimensions in H.
    apply layoutLoop_monotone in H; [|exact Hwf | apply newDimensions_sized].
    destruct H as ((_ & _ & Hax) & _ & Hfix).
    apply layoutPass_fixed in Hfix. destruct Hfix as (_ & _ & F3).
    destruct (axesLoop_fixed _ _ _ _ _ _ (F3 p) i sd Hsd Hv) as (d & cur' & Hd & Hc' & Hle').
    rewrite Hdim in Hd. injection Hd as <-.
    assert (cur' = cur) by congruence. subst cur'.
    destruct (Forall2_lookup_r _ _ _ _ _ (Hax p) Hc) as (x & Hx & Hx').
    assert (x = 0).
    { unfold dimVec, newDimensions in Hx.
      destruct p; cbn in Hx; apply lookup_replicate_1 in Hx; apply Hx. }
    unfold dimAxis. unfold dimVec in Hc. rewrite Hc. cbn. f_equal. lia.
  - intros ds Hds. exact Hds.
  - intros ds Hds. exact Hds.
  - intros ds q j sd' d (cur & Hc & Hle) Hsd' Hv' Hd.
    rewrite dimVec_raised. destruct (Position_eq_dec q p) as [->|Hne].
    + destruct (Nat.eq_dec j i) as [->|Hji].
      * assert (sd' = sd) by congruence. subst sd'.
        rewrite Hdim in Hd. injection Hd as <-.
        exists (dimWithoutTitle sd).
        rewrite list_lookup_insert_eq by (eapply lookup_lt_Some; exact Hc).
        split; [reflexivity | lia].
      * exists cur. rewrite list_lookup_insert_ne by assumption.
        split; assumption.
    + exists cur. split; assumption.
  - exists 0. split; [|lia].
    unfold dimVec, newDimensions.
    apply lookup_lt_Some in Hsd.
    destruct p; cbn; apply lookup_replicate_2; exact Hsd.
Qed.

Lemma untitled_axis_thickness_witness :
  exists dims,
    layoutDimensions 5 ex_engine 0 ex_snapshot ex_rect = Done dims
    /\ dimAxis dims yRight 0 = Done 10.
Proof.
  destruct (layoutDimensions 5 ex_engine 0 ex_snapshot ex_rect) as [dims| |] eqn:E;
    [|vm_compute in E; discriminate..].
  exists dims. split; [reflexivity|].
  exact (untitled_axis_thickness 5 ex_engine 0 ex_snapshot ex_rect dims yRight 0
           (ScaleData_init ScaleData_default (Some ex_right_widget)) ex_right_widget
           E (init_wellFormed ex_plot ex_rect (layoutData ex_layout))
           eq_refl eq_refl eq_refl eq_refl).
Defined.

(** X18. [layoutLegend] puts the legend flush against its side of the
    rectangle: the legend rectangle shares with the rectangle the edge
    of the side of the legend and both edges in the other direction.
    When the thickness of the legend is not negative and not above the
    extent of the rectangle, the legend lies within the rectangle. *)
Theorem layoutLegend_flush (e : QwtPlotLayoutEngine.t) (options : Z)
    (legendData : LegendData) (rect : QRectF.t) :
  let lr := layoutLegend e options legendData rect in
  let dim := inject_Z (legendDim e options legendData rect) in
  match d_legendPos e with
  | LeftLegend =>
      QRectF.left lr = QRectF.left rect
      /\ QRectF.top lr = QRectF.top rect /\ QRectF.height lr = QRectF.height rect
      /\ ((0 <= dim)%Q -> (dim <= QRectF.width rect)%Q -> within lr rect)
  | RightLegend =>
      (QRectF.right lr == QRectF.right rect)%Q
      /\ QRectF.top lr = QRectF.top rect /\ QRectF.height lr = QRectF.height rect
      /\ ((0 <= dim)%Q -> (dim <= QRectF.width rect)%Q -> within lr rect)
  | TopLegend =>
      QRectF.top lr = QRectF.top rect
      /\ QRectF.left lr = QRectF.left rect /\ QRectF.width lr = QRectF.width rect
      /\ ((0 <= dim)%Q -> (dim <= QRectF.height rect)%Q -> within lr rect)
  | BottomLegend =>
      (QRectF.bottom lr == QRectF.bottom rect)%Q
      /\ QRectF.left lr = QRectF.left rect /\ QRectF.width lr = QRectF.width rect
      /\ ((0 <= dim)%Q -> (dim <= QRectF.height rect)%Q -> within lr rect)
  end.
Proof.
  intros lr dim. subst lr. unfold layoutLegend. fold dim.
  destruct (d_legendPos e);
    unfold within, QRectF.left, QRectF.right, QRectF.top, QRectF.bottom,
      QRectF.width, QRectF.height; cbn;
    (split; [try reflexivity; ring|]);
    (split; [reflexivity|]); (split; [reflexivity|]);
    intros H0 H1; repeat split; lra.
Qed.

(** X19. The minimum size hint of a plot without content. When the first
    axis of every position is hidden, the title and the footer are
    missing or empty and the legend is missing or empty, the hint is the
    minimum size of the canvas, or in each direction the two contents
    margins of the canvas and two pixels when that is more. *)
Theorem minimumSizeHint_bare (plot : QwtPlot) (hints : QwtPlotHints)
    (d : PrivateData) :
  firstAxesHidden plot -> noTitle plot -> noFooter plot ->
  hasLegend plot = false ->
  let m := plot_canvasMargins plot in
  minimumSizeHint plot hints d =
    Done (mkQSize
            (Z.max (getAt m yLeft + 1 + getAt m yRight + 1)
                   (sz_width (hint_canvasMinimumSize hints)))
            (Z.max (getAt m xTop + 1 + getAt m xBottom + 1)
                   (sz_height (hint_canvasMinimumSize hints)))).
Proof.
  intros Hax Ht Hf Hl m.
  assert (Hs : forall p, hintScaleData plot hints p = Done HintScaleData_default).
  { intros p. destruct (Hax p) as (a & Ha & Hv).
    unfold hintScaleData. rewrite Ha. cbn. rewrite Hv. reflexivity. }
  unfold minimumSizeHint. rewrite !Hs. cbn [mbind outcome_bind].
  change (mkPosArray HintScaleData_default HintScaleData_default
            HintScaleData_default HintScaleData_default)
    with (constArray HintScaleData_default).
  cbn [fold_left positions]. rewrite !shiftStep_default.
  assert (Hlab : forall label hfw wh,
            text_isEmpty (text (LabelData_init label)) = true ->
            hintLabelStep plot (constArray HintScaleData_default) (spacing d)
              label hfw wh = wh).
  { intros label hfw [w h] He. unfold hintLabelStep.
    destruct label as [label|]; [|reflexivity].
    cbn in He. rewrite He. reflexivity. }
  rewrite (Hlab _ _ _ Ht), (Hlab _ _ _ Hf).
  assert (Hleg : forall wh, hintLegendStep (layoutEngine d) (plot_legend plot) wh = wh).
  { intros [w h]. unfold hintLegendStep. unfold hasLegend in Hl.
    destruct (plot_legend plot) as [l|]; [|reflexivity].
    rewrite Hl. reflexivity. }
  rewrite Hleg. unfold hintCore. cbn. reflexivity.
Qed.

Lemma minimumSizeHint_bare_witness :
  minimumSizeHint ex_bare_plot ex_hints ex_layout = Done (mkQSize 100 80).
Proof.
  apply (minimumSizeHint_bare ex_bare_plot ex_hints ex_layout).
  - intros p. eexists. destruct p; split; reflexivity.
  - reflexivity.
  - reflexivity.
  - reflexivity.
Defined.

(** X20. The minimum size hint is not below what the canvas and the
    axes around it ask for. When every position has a first axis, the
    spacing is not negative and the widgets report no negative measure,
    the hint is at least as wide as the minimum width of the canvas and
    the minimum widths of the left and of the right axis together
    unless a legend at the left or right is cut by the ratio, and at
    least as high as the minimum height of the canvas and the minimum
    heights of the bottom and of the top axis together unless a legend
    at the top or bottom is cut by the ratio. A legend is cut when it
    is not empty and the ratio is below 1: its share is then limited by
    the quotient of the size and of 1 minus the ratio, converted to
    [int]. *)
Theorem minimumSizeHint_lower_bound (plot : QwtPlot) (hints : QwtPlotHints)
    (d : PrivateData) (sl sr sb st : HintScaleData) :
  hintScaleData plot hints yLeft = Done sl ->
  hintScaleData plot hints yRight = Done sr ->
  hintScaleData plot hints xBottom = Done sb ->
  hintScaleData plot hints xTop = Done st ->
  0 <= spacing d -> hintsNonneg plot hints ->
  exists size, minimumSizeHint plot hints d = Done size
    /\ (legendUncut (layoutEngine d) (plot_legend plot)
        \/ legendAcross (layoutEngine d) ->
        hs_w sl + hs_w sr + sz_width (hint_canvasMinimumSize hints)
        <= sz_width size)
    /\ (legendUncut (layoutEngine d) (plot_legend plot)
        \/ ~ legendAcross (layoutEngine d) ->
        hs_h sb + hs_h st + sz_height (hint_canvasMinimumSize hints)
        <= sz_height size).
Proof.
  intros Hl Hr Hb Ht Hsp (Hn & Hcw & Hch & Htl & Hfl & Hlg).
  destruct (Hn _ _ Hl) as [N1 _]. destruct (Hn _ _ Hr) as [N2 _].
  destruct (Hn _ _ Hb) as [_ N3]. destruct (Hn _ _ Ht) as [_ N4].
  unfold minimumSizeHint. rewrite Hl, Hr, Hb, Ht. cbn [mbind outcome_bind].
  pose proof (shiftLoop_keeps (canvasBorder plot (layoutEngine d))
                (mkPosArray sl sr sb st)) as K.
  cbv zeta in K.
  pose proof (proj1 (K yLeft) eq_refl) as Wl.
  pose proof (proj1 (K yRight) eq_refl) as Wr.
  pose proof (proj2 (K xBottom) eq_refl) as Hbm.
  pose proof (proj2 (K xTop) eq_refl) as Htp.
  clear K Hl Hr Hb Ht Hn.
  change (getAt (mkPosArray sl sr sb st) yLeft) with sl in Wl.
  change (getAt (mkPosArray sl sr sb st) yRight) with sr in Wr.
  change (getAt (mkPosArray sl sr sb st) xBottom) with sb in Hbm.
  change (getAt (mkPosArray sl sr sb st) xTop) with st in Htp.
  revert Wl Wr Hbm Htp.
  generalize (fold_left (shiftStep (canvasBorder plot (layoutEngine d))) positions
                (mkPosArray sl sr sb st)).
  intros s Wl Wr Hbm Htp.
  eexists. split; [reflexivity|]. cbn [sz_width sz_height].
  destruct (hintCore plot hints s) as [w0 h0] eqn:Ec.
  assert (C : hs_w sl + hs_w sr + sz_width (hint_canvasMinimumSize hints) <= w0
              /\ hs_h sb + hs_h st + sz_height (hint_canvasMinimumSize hints) <= h0).
  { unfold hintCore in Ec. cbv zeta in Ec. injection Ec as Ew Eh.
    unfold getAt in Wl, Wr, Hbm, Htp, Ew, Eh. lia. }
  destruct C as [C1 C2].
  pose proof (hintLabelStep_grows plot s (spacing d) (plot_titleLabel plot)
                (hint_titleHeightForWidth hints) w0 h0 Hsp Htl) as [T1 T2].
  destruct (hintLabelStep plot s (spacing d) (plot_titleLabel plot)
              (hint_titleHeightForWidth hints) (w0, h0)) as [w1 h1].
  cbn [fst snd] in T1, T2.
  pose proof (hintLabelStep_grows plot s (spacing d) (plot_footerLabel plot)
                (hint_footerHeightForWidth hints) w1 h1 Hsp Hfl) as [F1 F2].
  destruct (hintLabelStep plot s (spacing d) (plot_footerLabel plot)
              (hint_footerHeightForWidth hints) (w1, h1)) as [w2 h2].
  cbn [fst snd] in F1, F2.
  pose proof (hintLegendStep_grows (layoutEngine d) (plot_legend plot) w2 h2
                Hsp Hlg) as [G1 G2].
  split; intros G; [specialize (G1 G) | specialize (G2 G)]; lia.
Qed.

Lemma minimumSizeHint_lower_bound_witness :
  exists size, minimumSizeHint ex_full_plot ex_hints ex_layout = Done size
    /\ 40 + 0 + 100 <= sz_width size.
Proof.
  destruct (minimumSizeHint_lower_bound ex_full_plot ex_hints ex_layout
              (mkHintScaleData 40 30 12 6 10) HintScaleData_default
              (mkHintScaleData 40 30 12 6 10) HintScaleData_default)
    as (size & Hs & Hw & _); try reflexivity.
  - vm_compute. discriminate.
  - unfold hintsNonneg. split; [|split; [|split; [|split; [|split]]]].
    + intros p sd H. destruct p; injection H as <-; cbn; lia.
    + cbn. lia.
    + cbn. lia.
    + intros w. cbn. destruct (w <? 200); lia.
    + intros w. cbn. lia.
    + intros legend H. injection H as <-. cbn. repeat split; lia.
  - exists size. split; [exact Hs|]. apply Hw. right. right. reflexivity.
Defined.

(** X21. The second loop of [minimumSizeHint] at the top end of a
    vertical axis. When there is a top axis and no bottom axis, the
    height of a vertical axis whose start distance hint exceeds the
    border of the canvas at the top is reduced by the smaller of the
    tick offset of the top axis and of the excess of its end distance
    hint over that border: the start hint decides, the end hint
    measures. When the end hint is below the border this makes the axis
    higher than its widget asks for. *)
Theorem minimumSizeHint_top_shift (cb : Position -> Z)
    (s : PosArray HintScaleData) (p : Position) :
  qwtIsYAxis p = true ->
  hs_h (getAt s p) <> 0 -> hs_h (getAt s xBottom) = 0 ->
  hs_h (getAt s xTop) <> 0 -> cb xTop < hs_minLeft (getAt s p) ->
  hs_h (getAt (shiftStep cb s p) p)
  = hs_h (getAt s p)
    - Z.min (hs_minRight (getAt s p) - cb xTop) (hs_tickOffset (getAt s xTop))
  /\ (hs_minRight (getAt s p) < cb xTop -> 0 <= hs_tickOffset (getAt s xTop) ->
      hs_h (getAt s p) < hs_h (getAt (shiftStep cb s p) p)).
Proof.
  intros Hp Hh Hb Ht Hm.
  assert (E : hs_h (getAt (shiftStep cb s p) p)
              = hs_h (getAt s p)
                - Z.min (hs_minRight (getAt s p) - cb xTop)
                        (hs_tickOffset (getAt s xTop))).
  { unfold shiftStep. rewrite getAt_setAt_same.
    assert (Ex : qwtIsXAxis p = false) by (destruct p; [reflexivity..|discriminate|discriminate]).
    rewrite Ex, Hp, andb_false_r, andb_true_r.
    apply Z.eqb_neq in Hh, Ht. rewrite Hh, Hb, Ht.
    change (0 =? 0) with true. cbn [negb]. rewrite andb_false_r, andb_true_r.
    apply Z.gtb_lt in Hm. rewrite Hm.
    destruct (Z.gtb_spec (hs_minRight (getAt s p) - cb xTop)
                         (hs_tickOffset (getAt s xTop))); cbn [hs_h withH]; lia. }
  split; [exact E|]. intros H1 H2. rewrite E. lia.
Qed.

Lemma minimumSizeHint_top_shift_witness :
  let s := mkPosArray (mkHintScaleData 40 100 12 3 0) HintScaleData_default
                      HintScaleData_default (mkHintScaleData 200 30 0 0 8) in
  hs_h (getAt (shiftStep (fun _ => 6) s yLeft) yLeft) = 103.
Proof.
  intros s.
  destruct (minimumSizeHint_top_shift (fun _ => 6) s yLeft) as [H _];
    [reflexivity | discriminate | reflexivity | discriminate | reflexivity|].
  exact H.
Defined.

